(** * lenses-go: the multi-context configuration engine (configuration.go)

    A shallow embedding of [Configuration] and [ClientConfiguration] with
    their methods, and the properties of host normalisation, context
    removal, merging and cloning.

    Go strings are byte sequences: they are [string] here (a list of 8-bit
    [ascii]).  Indices are Go [int]s; they are [Z] here, no operation of this
    file can leave the 64-bit range on a string that fits in memory. *)

From Stdlib Require Import ZArith Lia Ascii String.
From stdpp Require Import base option list gmap strings fin_maps.

Local Open Scope string_scope.
Local Open Scope Z_scope.

(** ** The pieces of Go's package [strings] that [FormatHost] uses *)

Module Strings.

(** [len(s)] *)
Definition len (s : string) : Z := Z.of_nat (String.length s).

(** [s[i]], for an index in range. *)
Definition at_index (s : string) (i : Z) : option ascii :=
  if (i <? 0) then None else String.get (Z.to_nat i) s.

(** [s[n:]] with [n] a number of bytes. *)
Fixpoint drop (n : nat) (s : string) : string :=
  match n, s with
  | O, _ => s
  | S _, EmptyString => EmptyString
  | S n', String _ s' => drop n' s'
  end.

(** [s[:n]] with [n] a number of bytes. *)
Fixpoint take (n : nat) (s : string) : string :=
  match n, s with
  | O, _ => EmptyString
  | S _, EmptyString => EmptyString
  | S n', String a s' => String a (take n' s')
  end.

(** [s[lo:hi]]; the bounds are in range wherever [FormatHost] slices. *)
Definition slice (s : string) (lo hi : Z) : string :=
  take (Z.to_nat (hi - lo)) (drop (Z.to_nat lo) s).

(** [s[lo:]] *)
Definition slice_from (s : string) (lo : Z) : string :=
  slice s lo (len s).

(** [strings.HasPrefix] *)
Fixpoint HasPrefix (s prefix : string) {struct prefix} : bool :=
  match prefix, s with
  | EmptyString, _ => true
  | String _ _, EmptyString => false
  | String p prefix', String a s' => Ascii.eqb a p && HasPrefix s' prefix'
  end.

(** [strings.HasSuffix]: the code does not call it, the statements use it to
    tell the hosts that end in two slashes. *)
Definition HasSuffix (s suffix : string) : bool :=
  (len suffix <=? len s) && String.eqb (slice_from s (len s - len suffix)) suffix.

(** [strings.Index]: the index of the first instance of [substr], or -1. *)
Fixpoint Index (s substr : string) : Z :=
  if HasPrefix s substr then 0
  else match s with
       | EmptyString => -1
       | String _ s' => let r := Index s' substr in
                        if 0 <=? r then 1 + r else -1
       end.

(** [strings.LastIndexByte]: the index of the last instance of [c], or -1. *)
Fixpoint LastIndexByte (s : string) (c : ascii) : Z :=
  match s with
  | EmptyString => -1
  | String a s' => let r := LastIndexByte s' c in
                   if 0 <=? r then 1 + r
                   else if Ascii.eqb a c then 0 else -1
  end.

End Strings.

(** ** Host normalisation *)

(** The body of [ClientConfiguration.FormatHost], on the [Host] field it
    reads and rewrites. *)
Definition FormatHost (Host : string) : string :=
  if Strings.len Host =? 0 then Host
  else
    (* remove last slash *)
    let Host :=
      if bool_decide (Strings.at_index Host (Strings.len Host - 1) = Some "/"%char)
      then Strings.slice Host 0 (Strings.len Host - 1)
      else Host in
    let portIdx := Strings.LastIndexByte Host ":"%char in
    let schemaIdx := Strings.Index Host "://" in
    let hasSchema := 0 <=? schemaIdx in
    let hasPort := schemaIdx + 1 <? portIdx in
    let port := if hasPort then Strings.slice_from Host (portIdx + 1) else "80" in
    (* find the schema based on the port *)
    let '(Host, port) :=
      if negb hasSchema then
        if String.eqb port "443" then ("https://" +:+ Host, port)
        else ("http://" +:+ Host, port)
      else if negb hasPort then
        (* has schema but not port *)
        if Strings.HasPrefix Host "https://" then (Host, "443") else (Host, port)
      else (Host, port) in
    (* finally, append the port part if it wasn't there *)
    if negb hasPort then Host +:+ ":" +:+ port else Host.

(** ** Data model *)

(** Modelled from the spec: the [Authentication] interface and the types that
    implement it are declared outside configuration.go.  The spec gives a
    closed set of credential kinds, basic (user name and password) and
    Kerberos; the methods below only test the interface value against nil. *)
Inductive AuthenticationKind : Type :=
  | BasicAuthentication (Username Password : string)
  | KerberosAuthentication (ConfFile : string).

(** An interface value: [None] is the nil interface. *)
Definition AuthenticationValue : Type := option AuthenticationKind.

Record ClientConfiguration : Type := {
  Host : string;
  Authentication : AuthenticationValue;
  Token : string;
  Timeout : string;
  Debug : bool
}.

(** [new(ClientConfiguration)], the zero value. *)
Definition zero_ClientConfiguration : ClientConfiguration :=
  {| Host := ""; Authentication := None; Token := ""; Timeout := ""; Debug := false |}.

Definition set_Host (v : string) (c : ClientConfiguration) : ClientConfiguration :=
  {| Host := v; Authentication := Authentication c; Token := Token c;
     Timeout := Timeout c; Debug := Debug c |}.
Definition set_Authentication (v : AuthenticationValue) (c : ClientConfiguration) : ClientConfiguration :=
  {| Host := Host c; Authentication := v; Token := Token c;
     Timeout := Timeout c; Debug := Debug c |}.
Definition set_Token (v : string) (c : ClientConfiguration) : ClientConfiguration :=
  {| Host := Host c; Authentication := Authentication c; Token := v;
     Timeout := Timeout c; Debug := Debug c |}.
Definition set_Timeout (v : string) (c : ClientConfiguration) : ClientConfiguration :=
  {| Host := Host c; Authentication := Authentication c; Token := Token c;
     Timeout := v; Debug := Debug c |}.
Definition set_Debug (v : bool) (c : ClientConfiguration) : ClientConfiguration :=
  {| Host := Host c; Authentication := Authentication c; Token := Token c;
     Timeout := Timeout c; Debug := v |}.

(** Addresses.  A [*ClientConfiguration] is [None] when nil; so is a
    [map[string]*ClientConfiguration], which Go handles by reference. *)
Abbreviation loc := positive (only parsing).
Abbreviation ptr := (option positive) (only parsing).
Abbreviation mapref := (option positive) (only parsing).

Record Configuration : Type := {
  CurrentContext : string;
  Contexts : mapref
}.

(** The heap: the client configurations and the maps that are pointed to. *)
Record Store : Type := {
  structs : gmap loc ClientConfiguration;
  maps : gmap loc (gmap string ptr)
}.

Definition set_structs (f : gmap loc ClientConfiguration -> gmap loc ClientConfiguration)
    (σ : Store) : Store :=
  {| structs := f (structs σ); maps := maps σ |}.
Definition set_maps (f : gmap loc (gmap string ptr) -> gmap loc (gmap string ptr))
    (σ : Store) : Store :=
  {| structs := structs σ; maps := f (maps σ) |}.

(** ** Heap operations, with run-time panics *)

Inductive Result (A : Type) : Type :=
  | Ok (a : A)
  | Panic.
Arguments Ok {A} a.
Arguments Panic {A}.

Definition M (A : Type) : Type := Store -> Result (A * Store).

Definition ret {A} (a : A) : M A := fun σ => Ok (a, σ).
Definition bind {A B} (m : M A) (k : A -> M B) : M B :=
  fun σ => match m σ with
           | Ok (a, σ') => k a σ'
           | Panic => Panic
           end.
Definition panic {A} : M A := fun _ => Panic.

Declare Scope go_scope.
Delimit Scope go_scope with go.
Notation "x <- m ;; k" := (bind m (fun x => k))
  (at level 100, m at next level, right associativity) : go_scope.
Notation "m ;; k" := (bind m (fun _ => k))
  (at level 100, right associativity) : go_scope.
Local Open Scope go_scope.

(** [*p], a nil dereference panics. *)
Definition load (p : ptr) : M ClientConfiguration :=
  fun σ => match p with
           | Some l => match structs σ !! l with
                       | Some v => Ok (v, σ)
                       | None => Panic
                       end
           | None => Panic
           end.

(** [*p = v] *)
Definition store (p : ptr) (v : ClientConfiguration) : M unit :=
  fun σ => match p with
           | Some l => match structs σ !! l with
                       | Some _ => Ok (tt, set_structs <[l := v]> σ)
                       | None => Panic
                       end
           | None => Panic
           end.

(** A fresh cell holding [v]: [new(ClientConfiguration)] and the address of
    a local variable. *)
Definition alloc (v : ClientConfiguration) : M ptr :=
  fun σ => let l := fresh (dom (structs σ)) in
           Ok (Some l, set_structs <[l := v]> σ).

(** [make(map[string]*ClientConfiguration)] *)
Definition make : M mapref :=
  fun σ => let r := fresh (dom (maps σ)) in
           Ok (Some r, set_maps <[r := ∅]> σ).

(** The contents of a map; a nil map reads as empty. *)
Definition map_read (m : mapref) : M (gmap string ptr) :=
  fun σ => match m with
           | None => Ok (∅, σ)
           | Some r => match maps σ !! r with
                       | Some mp => Ok (mp, σ)
                       | None => Panic
                       end
           end.

(** [v, ok := m[k]] *)
Definition map_lookup (m : mapref) (k : string) : M (option ptr) :=
  mp <- map_read m ;; ret (mp !! k).

(** [len(m)] *)
Definition map_len (m : mapref) : M Z :=
  mp <- map_read m ;; ret (Z.of_nat (size mp)).

(** [m[k] = v], which panics on a nil map. *)
Definition map_assign (m : mapref) (k : string) (v : ptr) : M unit :=
  fun σ => match m with
           | None => Panic
           | Some r => match maps σ !! r with
                       | Some mp => Ok (tt, set_maps <[r := <[k := v]> mp]> σ)
                       | None => Panic
                       end
           end.

(** [delete(m, k)], a no-op on a nil map. *)
Definition map_delete (m : mapref) (k : string) : M unit :=
  fun σ => match m with
           | None => Ok (tt, σ)
           | Some r => match maps σ !! r with
                       | Some mp => Ok (tt, set_maps <[r := delete k mp]> σ)
                       | None => Panic
                       end
           end.

(** A method with a pointer receiver that reads and writes the receiver's
    fields: [f] maps the fields before to the result and the fields after. *)
Definition on_struct {A} (p : ptr) (f : ClientConfiguration -> A * ClientConfiguration) : M A :=
  v <- load p ;;
  let '(a, v') := f v in
  store p v' ;; ret a.

(** ** [ClientConfiguration] *)

(** [ClientConfiguration.IsValid], on the fields of the receiver. *)
Definition ClientConfiguration_IsValid (c : ClientConfiguration) : bool * ClientConfiguration :=
  if Strings.len (Host c) =? 0 then (false, c)
  else
    let c := set_Host (FormatHost (Host c)) c in
    (negb (String.eqb (Host c) "") &&
       (negb (String.eqb (Token c) "") || bool_decide (Authentication c <> None)), c).

(** [ClientConfiguration.Fill], on the fields of the receiver. *)
Definition Fill (c other : ClientConfiguration) : bool * ClientConfiguration :=
  let c := if negb (String.eqb (Host other) "") && negb (String.eqb (Host other) (Host c))
           then set_Host (Host other) c else c in
  let c := if bool_decide (Authentication other <> None)
           then set_Authentication (Authentication other) c else c in
  let c := if negb (String.eqb (Token other) "") && negb (String.eqb (Token other) (Token c))
           then set_Token (Token other) c else c in
  let c := if negb (String.eqb (Timeout other) "") && negb (String.eqb (Timeout other) (Timeout c))
           then set_Timeout (Timeout other) c else c in
  let c := if negb (Bool.eqb (Debug c) (Debug other))
           then set_Debug (Debug other) c else c in
  ClientConfiguration_IsValid c.

(** ** [Configuration] *)

Definition DefaultContextKey : string := "master".

Definition set_CurrentContext (v : string) (c : Configuration) : Configuration :=
  {| CurrentContext := v; Contexts := Contexts c |}.
Definition set_Contexts (v : mapref) (c : Configuration) : Configuration :=
  {| CurrentContext := CurrentContext c; Contexts := v |}.

(** [Configuration.SetCurrent] *)
Definition SetCurrent (c : Configuration) (currentContextName : string) : Configuration :=
  set_CurrentContext currentContextName c.

(** [Configuration.CurrentContextExists] *)
Definition CurrentContextExists (c : Configuration) : M bool :=
  r <- map_lookup (Contexts c) (CurrentContext c) ;;
  ret (bool_decide (is_Some r)).

(** [Configuration.GetCurrent]: the entry returned and the receiver after. *)
Definition GetCurrent (c : Configuration) : M (ptr * Configuration) :=
  c <- match Contexts c with
       | None => m <- make ;; ret (set_Contexts m c)
       | Some _ => ret c
       end ;;
  r <- map_lookup (Contexts c) (CurrentContext c) ;;
  match r with
  | Some cfg => ret (cfg, c)
  | None =>
      cfg <- alloc zero_ClientConfiguration ;;
      let c := if String.eqb (CurrentContext c) ""
               then set_CurrentContext DefaultContextKey c else c in
      map_assign (Contexts c) (CurrentContext c) cfg ;;
      ret (cfg, c)
  end.

(** [Configuration.FillCurrent]; [cfg] is the method's own copy of its
    argument, whose address is stored in the map. *)
Definition FillCurrent (c : Configuration) (cfg : ClientConfiguration) : M unit :=
  let context := CurrentContext c in
  r <- map_lookup (Contexts c) context ;;
  match r with
  | None =>
      let '(valid, cfg) := ClientConfiguration_IsValid cfg in
      if valid then p <- alloc cfg ;; map_assign (Contexts c) context p
      else ret tt
  | Some p =>
      on_struct p (fun r => Fill r cfg) ;; ret tt
  end.

Section ranging.
(** The order in which a [range] loop yields the entries of a map: Go leaves
    it unspecified, every entry comes once. *)
Variable range : gmap string ptr -> list (string * ptr).

Definition map_range (m : mapref) : M (list (string * ptr)) :=
  mp <- map_read m ;; ret (range mp).

(** The loop of [Configuration.IsValid]: [false] on the first entry that
    is not valid. *)
Fixpoint IsValid_loop (entries : list (string * ptr)) : M bool :=
  match entries with
  | [] => ret true
  | (_, cfg) :: rest =>
      valid <- on_struct cfg ClientConfiguration_IsValid ;;
      if negb valid then ret false else IsValid_loop rest
  end.

(** [Configuration.IsValid] *)
Definition Configuration_IsValid (c : Configuration) : M bool :=
  n <- map_len (Contexts c) ;;
  if n =? 0 then ret false
  else
    entries <- map_range (Contexts c) ;;
    all <- IsValid_loop entries ;;
    if negb all then ret false
    else n <- map_len (Contexts c) ;; ret (0 <? n).

(** The loop of [Configuration.RemoveContext]: the name of the first
    other context that is valid, if any. *)
Fixpoint RemoveContext_loop (contextName : string) (entries : list (string * ptr))
    : M (option string) :=
  match entries with
  | [] => ret None
  | (name, cfg) :: rest =>
      if String.eqb name contextName then RemoveContext_loop contextName rest
      else
        valid <- on_struct cfg ClientConfiguration_IsValid ;;
        if valid then ret (Some name)
        else RemoveContext_loop contextName rest
  end.

(** [Configuration.RemoveContext]: the result and the receiver after. *)
Definition RemoveContext (c : Configuration) (contextName : string)
    : M (bool * Configuration) :=
  r <- map_lookup (Contexts c) contextName ;;
  match r with
  | Some _ =>
      decision <-
        (if String.eqb (CurrentContext c) contextName then
           entries <- map_range (Contexts c) ;;
           found <- RemoveContext_loop contextName entries ;;
           match found with
           | Some name => ret (true, SetCurrent c name)
           | None => ret (false, c)
           end
         else ret (true, c)) ;;
      let '(canBeRemoved, c) := decision in
      (if canBeRemoved : bool then map_delete (Contexts c) contextName else ret tt) ;;
      ret (canBeRemoved, c)
  | None => ret (false, c)
  end.

(** The loop of [Configuration.Clone]. *)
Fixpoint Clone_loop (cloneContexts : mapref) (entries : list (string * ptr)) : M unit :=
  match entries with
  | [] => ret tt
  | (k, v) :: rest =>
      vCopy <- load v ;;
      p <- alloc vCopy ;;
      map_assign cloneContexts k p ;;
      Clone_loop cloneContexts rest
  end.

(** [Configuration.Clone] *)
Definition Clone (c : Configuration) : M Configuration :=
  m <- make ;;
  let clone := {| CurrentContext := CurrentContext c; Contexts := m |} in
  entries <- map_range (Contexts c) ;;
  Clone_loop (Contexts clone) entries ;;
  ret clone.

End ranging.

(** ** The rest of [Configuration] *)

Section ranging_tokens.
(** The order of a [range] loop, as above. *)
Variable range : gmap string ptr -> list (string * ptr).

(** The loop of [Configuration.RemoveTokens]. *)
Fixpoint RemoveTokens_loop (entries : list (string * ptr)) : M unit :=
  match entries with
  | [] => ret tt
  | (_, v) :: rest =>
      on_struct v (fun r => (tt, set_Token "" r)) ;;
      RemoveTokens_loop rest
  end.

(** [Configuration.RemoveTokens] *)
Definition RemoveTokens (c : Configuration) : M unit :=
  entries <- map_range range (Contexts c) ;;
  RemoveTokens_loop entries.

End ranging_tokens.

(** ** Reading a configuration from the file system *)

Section reading.
(** The errors of the run time, and an open file. *)
Variables (error File : Type).

(** The file system and the path functions of the standard library, fixed
    for the time of a lookup: [filepath.Abs], [filepath.Join], [os.Open] and
    [ioutil.ReadAll]; and the error that [fmt.Errorf] builds from the name
    of a file that no format could read. *)
Variable filepath_Abs : string -> error + string.
Variable filepath_Join : string -> string -> string.
Variable os_Open : string -> error + File.
Variable ioutil_ReadAll : File -> error + string.
Variable not_compatible : string -> error.

(** [UnmarshalFunc]: from the bytes read and the configuration behind
    [outPtr], the error returned (none for nil) and the configuration left
    behind [outPtr]. *)
Definition UnmarshalFunc : Type :=
  string -> Configuration -> M (option error * Configuration).

(** The two decoders of the package, declared outside configuration.go. *)
Variables ConfigurationUnmarshalJSON ConfigurationUnmarshalYAML : UnmarshalFunc.

(** [ReadConfiguration] *)
Definition ReadConfiguration (r : File) (unmarshaler : UnmarshalFunc)
    (out : Configuration) : M (option error * Configuration) :=
  match ioutil_ReadAll r with
  | inl err => ret (Some err, out)
  | inr data => unmarshaler data out
  end.

(** [ReadConfigurationFromFile] *)
Definition ReadConfigurationFromFile (filename : string) (unmarshaler : UnmarshalFunc)
    (out : Configuration) : M (option error * Configuration) :=
  match filepath_Abs filename with
  | inl err => ret (Some err, out)
  | inr absPath =>
      match os_Open absPath with
      | inl err => ret (Some err, out)
      | inr f => ReadConfiguration f unmarshaler out
      end
  end.

(** The loop of [TryReadConfigurationFromFile] over the formats left to
    try. *)
Fixpoint TryRead_loop (tries : list UnmarshalFunc) (filename : string)
    (out : Configuration) : M (option error * Configuration) :=
  match tries with
  | [] => ret (Some (not_compatible filename), out)
  | unmarshaler :: rest =>
      r <- ReadConfigurationFromFile filename unmarshaler out ;;
      match r with
      | (None, out) => ret (None, out)
      | (Some _, out) => TryRead_loop rest filename out
      end
  end.

(** [TryReadConfigurationFromFile] *)
Definition TryReadConfigurationFromFile (filename : string) (out : Configuration)
    : M (option error * Configuration) :=
  TryRead_loop [ConfigurationUnmarshalJSON; ConfigurationUnmarshalYAML] filename out.

Definition configurationPossibleFilenames : list string :=
  [ "lenses.yml"; "lenses.yaml"; "lenses.json";
    ".lenses.yml"; ".lenses.yaml"; ".lenses.json";
    "lenses-cli.yml"; "lenses-cli.yaml"; "lenses-cli.json";
    ".lenses-cli.yml"; ".lenses-cli.yaml"; ".lenses-cli.json" ].

(** The loop of [lookupConfiguration] over the file names left to try. *)
Fixpoint lookup_loop (filenames : list string) (dir : string) (out : Configuration)
    : M (bool * Configuration) :=
  match filenames with
  | [] => ret (false, out)
  | filename :: rest =>
      let fullpath := filepath_Join dir filename in
      r <- TryReadConfigurationFromFile fullpath out ;;
      match r with
      | (None, out) => ret (true, out)
      | (Some _, out) => lookup_loop rest dir out
      end
  end.

(** [lookupConfiguration] *)
Definition lookupConfiguration (dir : string) (out : Configuration)
    : M (bool * Configuration) :=
  lookup_loop configurationPossibleFilenames dir out.

End reading.

(** ** The home directory *)

(** [HomeDir], from what the operating system answers: [u] is the home
    directory of the user record when [user.Current] returns one, [err_nil]
    tells whether its error is nil, [Getenv] is [os.Getenv] and [GOOS] is
    [runtime.GOOS]. *)
Definition HomeDir (u : option string) (err_nil : bool)
    (Getenv : string -> string) (GOOS : string) : string :=
  let homeDir := "" in
  let homeDir := match u with
                 | Some uHomeDir => if err_nil then uHomeDir else homeDir
                 | None => homeDir
                 end in
  let homeDir := if String.eqb homeDir "" then Getenv "HOME" else homeDir in
  if String.eqb homeDir "" then
    if String.eqb GOOS "plan9" then Getenv "home"
    else if String.eqb GOOS "windows" then
      let homeDir := Getenv "HOMEDRIVE" +:+ Getenv "HOMEPATH" in
      if String.eqb homeDir "" then Getenv "USERPROFILE" else homeDir
    else homeDir
  else homeDir.

(** ** Importing service accounts (pkg/import/service_account_commands.go) *)

Section service_accounts.
(** The errors, the service accounts of package [api] and the entries of a
    directory; the name of an account, and the payload of an update, which
    is a new account with the [Name], [Owner] and [Groups] of the one
    loaded. *)
Variables (error ServiceAccount FileInfo : Type).
Variable Name : ServiceAccount -> string.
Variable update_payload : ServiceAccount -> ServiceAccount.

(** The requests that change the server. *)
Inductive request : Type :=
  | UpdateServiceAccount (payload : ServiceAccount)
  | CreateServiceAccount (svcacc : ServiceAccount).

(** [bite.LoadFile] on an entry of the directory, and the answer of the
    server to a request after the requests made so far: an error or none. *)
Variable LoadFile : FileInfo -> error + ServiceAccount.
Variable respond : list request -> request -> option error.

(** The inner loop of [loadServiceAccounts] over the accounts of the server:
    the error if any, [found], and the requests made. *)
Fixpoint update_loop (svcacc : ServiceAccount) (currentSvcAccs : list ServiceAccount)
    (found : bool) (log : list request) : option error * bool * list request :=
  match currentSvcAccs with
  | [] => (None, found, log)
  | sva :: rest =>
      if String.eqb (Name sva) (Name svcacc) then
        let req := UpdateServiceAccount (update_payload svcacc) in
        match respond log req with
        | Some err => (Some err, true, log ++ [req])
        | None => update_loop svcacc rest true (log ++ [req])
        end
      else update_loop svcacc rest found log
  end%list.

(** The loop of [loadServiceAccounts] over the files. *)
Fixpoint files_loop (files : list FileInfo) (currentSvcAccs : list ServiceAccount)
    (log : list request) : option error * list request :=
  match files with
  | [] => (None, log)
  | file :: rest =>
      match LoadFile file with
      | inl err => (Some err, log)
      | inr svcacc =>
          match update_loop svcacc currentSvcAccs false log with
          | (Some err, _, log) => (Some err, log)
          | (None, true, log) => files_loop rest currentSvcAccs log
          | (None, false, log) =>
              let req := CreateServiceAccount svcacc in
              match respond log req with
              | Some err => (Some err, log ++ [req])
              | None => files_loop rest currentSvcAccs (log ++ [req])
              end
          end
      end
  end%list.

(** [loadServiceAccounts], from the files found and the answer of
    [GetServiceAccounts]: the error returned and the requests made, in
    order. *)
Definition loadServiceAccounts (files : list FileInfo)
    (GetServiceAccounts : error + list ServiceAccount) : option error * list request :=
  match GetServiceAccounts with
  | inl err => (Some err, [])
  | inr currentSvcAccs => files_loop files currentSvcAccs []
  end.

End service_accounts.

(** ** Vocabulary of the statements *)

(** A host is in normal form when it is not empty, does not end in a slash,
    has a scheme separator and a port marker after it. *)
Definition normalized (r : string) : Prop :=
  0 < Strings.len r /\
  Strings.at_index r (Strings.len r - 1) <> Some "/"%char /\
  0 <= Strings.Index r "://" /\
  Strings.Index r "://" + 1 < Strings.LastIndexByte r ":"%char.

(** The first step of [FormatHost], and the rest of it. *)
Definition strip_slash (Host : string) : string :=
  if bool_decide (Strings.at_index Host (Strings.len Host - 1) = Some "/"%char)
  then Strings.slice Host 0 (Strings.len Host - 1)
  else Host.

Definition format_stripped (Host : string) : string :=
  let portIdx := Strings.LastIndexByte Host ":"%char in
  let schemaIdx := Strings.Index Host "://" in
  let hasSchema := 0 <=? schemaIdx in
  let hasPort := schemaIdx + 1 <? portIdx in
  let port := if hasPort then Strings.slice_from Host (portIdx + 1) else "80" in
  let '(Host, port) :=
    if negb hasSchema then
      if String.eqb port "443" then ("https://" +:+ Host, port)
      else ("http://" +:+ Host, port)
    else if negb hasPort then
      if Strings.HasPrefix Host "https://" then (Host, "443") else (Host, port)
    else (Host, port) in
  if negb hasPort then Host +:+ ":" +:+ port else Host.

(** What [Fill] leaves in [Host] before it calls [IsValid]. *)
Definition merged_host (c other : ClientConfiguration) : string :=
  if String.eqb (Host other) "" then Host c else Host other.

(** Validity as a property of the fields: a host, and a token or an
    authentication. *)
Definition is_valid (v : ClientConfiguration) : Prop :=
  Host v <> "" /\ (Token v <> "" \/ Authentication v <> None).

(** Two heaps that hold the same client configurations up to their hosts. *)
Definition same_but_hosts (s s' : gmap loc ClientConfiguration) : Prop :=
  forall l, match s !! l, s' !! l with
            | Some v, Some v' => v' = set_Host (Host v') v
            | None, None => True
            | _, _ => False
            end.

(** A pointer that is not nil and whose cell is allocated. *)
Definition allocated (σ : Store) (p : ptr) : Prop :=
  exists l, p = Some l /\ is_Some (structs σ !! l).

(** The data model of a configuration: its map, when it is not nil, is
    allocated, and every entry of the map is a pointer, not nil, to an
    allocated client configuration.  The zero value [Configuration{}] has
    it, and every assignment into the map in configuration.go stores the
    address of a client configuration. *)
Definition owns_entries (σ : Store) (c : Configuration) : Prop :=
  forall r, Contexts c = Some r ->
    exists mp, maps σ !! r = Some mp /\
               forall k p, mp !! k = Some p -> allocated σ p.

(** The number of names of [mp], other than [name], that point to the
    client configuration at [l]. *)
Definition other_names (mp : gmap string ptr) (name : string) (l : loc) : nat :=
  length (filter (fun e : string * ptr => e.1 <> name /\ e.2 = Some l) (map_to_list mp)).

(** A client configuration whose host went [n] times through [FormatHost]. *)
Definition formatted (n : nat) (v : ClientConfiguration) : ClientConfiguration :=
  set_Host (Nat.iter n FormatHost (Host v)) v.

(** The addresses a configuration holds are allocated: its map when it is
    not nil, and every pointer in the map that is not nil.  Go's memory
    safety gives this for every configuration a program can hold. *)
Definition no_dangling (σ : Store) (c : Configuration) : Prop :=
  forall r, Contexts c = Some r ->
    exists mp, maps σ !! r = Some mp /\
               forall k l, mp !! k = Some (Some l) -> is_Some (structs σ !! l).

(** Every entry of a map is a pointer to a valid client configuration. *)
Definition all_valid (σ : Store) (mp : gmap string ptr) : Prop :=
  forall k p, mp !! k = Some p ->
    exists l v, p = Some l /\ structs σ !! l = Some v /\ is_valid v.

(** Two heaps with the same cells, each as valid after as before. *)
Definition same_validity (s s' : gmap loc ClientConfiguration) : Prop :=
  forall l, match s !! l, s' !! l with
            | Some v, Some v' => is_valid v <-> is_valid v'
            | None, None => True
            | _, _ => False
            end.

(** From [σ] to [σ'] nothing was written outside the map at [m] and the
    client configurations that the entries [mp] of this map point to. *)
Definition edits_within (σ σ' : Store) (m : loc) (mp : gmap string ptr) : Prop :=
  (forall r, r <> m -> maps σ' !! r = maps σ !! r) /\
  (forall l, l ∈ dom (structs σ) -> (forall k, mp !! k <> Some (Some l)) ->
             structs σ' !! l = structs σ !! l).

(** What [ReadConfigurationFromFile] hands to the decoder: the bytes of the
    file, or the first error among [filepath.Abs], [os.Open] and
    [ioutil.ReadAll]. *)
Definition read_file {error File : Type}
    (filepath_Abs : string -> error + string) (os_Open : string -> error + File)
    (ioutil_ReadAll : File -> error + string) (filename : string) : error + string :=
  match filepath_Abs filename with
  | inl err => inl err
  | inr absPath =>
      match os_Open absPath with
      | inl err => inl err
      | inr f => ioutil_ReadAll f
      end
  end.

(** A file system for the examples: paths are absolute, a directory holds
    the files listed, and a file is its own handle. *)
Definition example_Abs (filename : string) : string + string := inr filename.
Definition example_Join (dir filename : string) : string := dir +:+ "/" +:+ filename.
Definition example_Open (files : list (string * string)) (path : string) : string + string :=
  match list_find (fun f => bool_decide (f.1 = path)) files with
  | Some (_, f) => inr f.2
  | None => inl "no such file"
  end.
Definition example_ReadAll (f : string) : string + string := inr f.
Definition example_not_compatible (filename : string) : string :=
  "not compatible: " +:+ filename.

(** Two decoders for the examples: the first accepts the text "json" and the
    second the text "yaml"; each stores the name of its format as the
    current context. *)
Definition example_JSON : UnmarshalFunc string :=
  fun data out =>
    if String.eqb data "json" then ret (None, set_CurrentContext "from-json" out)
    else ret (Some "not json", out).
Definition example_YAML : UnmarshalFunc string :=
  fun data out =>
    if String.eqb data "yaml" then ret (None, set_CurrentContext "from-yaml" out)
    else ret (Some "not yaml", out).

(** A directory for the examples, with one file that only the second
    decoder accepts. *)
Definition example_files : list (string * string) :=
  [ ("/etc/lenses/lenses-cli.yml", "yaml") ].

(** The requests that one loaded account gives when every request
    succeeds: an update for each account of the server with its name, or a
    creation when there is none. *)
Definition requests_for {ServiceAccount : Type} (Name : ServiceAccount -> string)
    (update_payload : ServiceAccount -> ServiceAccount)
    (currentSvcAccs : list ServiceAccount) (svcacc : ServiceAccount)
    : list (request ServiceAccount) :=
  match length (filter (fun sva => Name sva = Name svcacc) currentSvcAccs) with
  | O => [CreateServiceAccount _ svcacc]
  | S n => replicate (S n) (UpdateServiceAccount _ (update_payload svcacc))
  end.

(** Accounts for the examples: a name and an owner; every file loads, to an
    account with the name of the file, and the server accepts every
    request. *)
Definition example_LoadFile (file : string) : string + (string * string) :=
  inr (file, "owner").
Definition example_respond (log : list (request (string * string)))
    (req : request (string * string)) : option string := None.

(** ** Example configurations *)

(** Two contexts, "prod" being the current one. *)
Definition RemoveContext_not_current_input : Store * Configuration :=
  ({| structs := {[ 1%positive := zero_ClientConfiguration;
                    2%positive := zero_ClientConfiguration ]};
      maps := {[ 1%positive := {[ "dev" := Some 1%positive; "prod" := Some 2%positive ]} ]} |},
   {| CurrentContext := "prod"; Contexts := Some 1%positive |}).

(** A single context, "dev". *)
Definition RemoveContext_sole_input : Store :=
  {| structs := {[ 1%positive := zero_ClientConfiguration ]};
     maps := {[ 1%positive := {[ "dev" := Some 1%positive ]} ]} |}.

(** A valid client configuration whose host is not in normal form. *)
Definition valid_example : ClientConfiguration :=
  {| Host := "example.com"; Authentication := None; Token := "secret";
     Timeout := ""; Debug := false |}.

(** An argument of [Fill] that only brings a host. *)
Definition Fill_example_other : ClientConfiguration :=
  {| Host := "example.com"; Authentication := None; Token := "";
     Timeout := ""; Debug := false |}.

(** Two valid contexts; then the heap after "dev", the current one, has been
    removed; and the heap after a [Clone]. *)
Definition two_contexts : Store :=
  {| structs := {[ 1%positive := valid_example;
                   2%positive := set_Host "other.example.com:443/" valid_example ]};
     maps := {[ 1%positive := {[ "dev" := Some 1%positive; "prod" := Some 2%positive ]} ]} |}.

Definition two_contexts_after : Store :=
  {| structs := {[ 1%positive := valid_example;
                   2%positive := set_Host "https://other.example.com:443" valid_example ]};
     maps := {[ 1%positive := {[ "prod" := Some 2%positive ]} ]} |}.

Definition two_contexts_cloned : Store :=
  {| structs := {[ 1%positive := valid_example;
                   2%positive := set_Host "other.example.com:443/" valid_example;
                   3%positive := valid_example;
                   4%positive := set_Host "other.example.com:443/" valid_example ]};
     maps := {[ 1%positive := {[ "dev" := Some 1%positive; "prod" := Some 2%positive ]};
                2%positive := {[ "dev" := Some 3%positive; "prod" := Some 4%positive ]} ]} |}.

(** The current context "dev" and a context "prod" that has a host but no
    credentials; then the heap after the refused removal of "dev". *)
Definition no_fallback : Store :=
  {| structs := {[ 1%positive := valid_example; 2%positive := Fill_example_other ]};
     maps := {[ 1%positive := {[ "dev" := Some 1%positive; "prod" := Some 2%positive ]} ]} |}.

Definition no_fallback_after : Store :=
  {| structs := {[ 1%positive := valid_example;
                   2%positive := set_Host "http://example.com:80" Fill_example_other ]};
     maps := {[ 1%positive := {[ "dev" := Some 1%positive; "prod" := Some 2%positive ]} ]} |}.

(** One context, valid. *)
Definition all_valid_contexts : Store :=
  {| structs := {[ 1%positive := valid_example ]};
     maps := {[ 1%positive := {[ "dev" := Some 1%positive ]} ]} |}.

(** A valid context and one without credentials; then the heap after
    [Configuration.IsValid] has looked at the second. *)
Definition half_filled_contexts : Store :=
  {| structs := {[ 1%positive := valid_example; 2%positive := Fill_example_other ]};
     maps := {[ 1%positive := {[ "dev" := Some 1%positive; "scratch" := Some 2%positive ]} ]} |}.

Definition half_filled_contexts_after : Store :=
  {| structs := {[ 1%positive := valid_example;
                   2%positive := set_Host "http://example.com:80" Fill_example_other ]};
     maps := {[ 1%positive := {[ "dev" := Some 1%positive; "scratch" := Some 2%positive ]} ]} |}.

(** The two valid contexts after [RemoveTokens]. *)
Definition two_contexts_no_tokens : Store :=
  {| structs := {[ 1%positive := set_Token "" valid_example;
                   2%positive := set_Token "" (set_Host "other.example.com:443/" valid_example) ]};
     maps := {[ 1%positive := {[ "dev" := Some 1%positive; "prod" := Some 2%positive ]} ]} |}.

(** The single context "dev" after a context "prod" was asked for. *)
Definition sole_input_with_prod : Store :=
  {| structs := {[ 1%positive := zero_ClientConfiguration;
                   2%positive := zero_ClientConfiguration ]};
     maps := {[ 1%positive := {[ "dev" := Some 1%positive; "prod" := Some 2%positive ]} ]} |}.

(** A valid context under the default name. *)
Definition master_contexts : Store :=
  {| structs := {[ 1%positive := valid_example ]};
     maps := {[ 1%positive := {[ "master" := Some 1%positive ]} ]} |}.

(** The heap after a [Clone] of the two contexts whose "dev" was then
    removed. *)
Definition two_contexts_cloned_edited : Store :=
  {| structs := {[ 1%positive := valid_example;
                   2%positive := set_Host "other.example.com:443/" valid_example;
                   3%positive := valid_example;
                   4%positive := set_Host "https://other.example.com:443" valid_example ]};
     maps := {[ 1%positive := {[ "dev" := Some 1%positive; "prod" := Some 2%positive ]};
                2%positive := {[ "prod" := Some 4%positive ]} ]} |}.

(** ** Facts about the string primitives *)

Section string_facts.
Implicit Types (s a b p : string) (c : ascii).

Lemma len_nonneg s : 0 <= Strings.len s.
Proof. unfold Strings.len. lia. Qed.

Lemma len_String c s : Strings.len (String c s) = 1 + Strings.len s.
Proof. unfold Strings.len. cbn [String.length]. lia. Qed.

Lemma len_app a b : Strings.len (a +:+ b) = Strings.len a + Strings.len b.
Proof.
  induction a as [|c a IH]; [done|].
  change (String c a +:+ b) with (String c (a +:+ b)).
  rewrite !len_String, IH. lia.
Qed.

Lemma app_assoc a b p : (a +:+ b) +:+ p = a +:+ (b +:+ p).
Proof.
  induction a as [|c a IH]; [done|].
  change (String c a +:+ b) with (String c (a +:+ b)).
  change (String c (a +:+ b) +:+ p) with (String c ((a +:+ b) +:+ p)).
  by rewrite IH.
Qed.

Lemma len_0 s : Strings.len s = 0 -> s = "".
Proof. destruct s; [done|]. rewrite len_String. pose proof (len_nonneg s). lia. Qed.

Lemma LastIndexByte_range s c :
  -1 <= Strings.LastIndexByte s c < Strings.len s.
Proof.
  induction s as [|a s IH]; [done|].
  rewrite len_String. cbn [Strings.LastIndexByte].
  destruct (Z.leb_spec 0 (Strings.LastIndexByte s c)); [lia|].
  destruct (Ascii.eqb a c); lia.
Qed.

Lemma LastIndexByte_app a b c :
  Strings.LastIndexByte (a +:+ b) c =
    if 0 <=? Strings.LastIndexByte b c
    then Strings.len a + Strings.LastIndexByte b c
    else Strings.LastIndexByte a c.
Proof.
  induction a as [|x a IH].
  - change ("" +:+ b) with b. change (Strings.len "") with 0.
    pose proof (LastIndexByte_range b c).
    destruct (Z.leb_spec 0 (Strings.LastIndexByte b c)); [lia|].
    change (Strings.LastIndexByte "" c) with (-1). lia.
  - change (String x a +:+ b) with (String x (a +:+ b)).
    rewrite len_String. cbn [Strings.LastIndexByte]. rewrite IH.
    pose proof (len_nonneg a).
    destruct (Z.leb_spec 0 (Strings.LastIndexByte b c)).
    + destruct (Z.leb_spec 0 (Strings.len a + Strings.LastIndexByte b c)); lia.
    + done.
Qed.

Lemma HasPrefix_len s p : Strings.HasPrefix s p = true -> Strings.len p <= Strings.len s.
Proof.
  revert s. induction p as [|x p IH]; intros s H.
  - apply len_nonneg.
  - destruct s as [|y s]; [done|]. cbn in H.
    apply andb_prop in H as [_ H]. apply IH in H. rewrite !len_String. lia.
Qed.

Lemma HasPrefix_app s b p :
  Strings.HasPrefix s p = true -> Strings.HasPrefix (s +:+ b) p = true.
Proof.
  revert s. induction p as [|x p IH]; intros s H; [by destruct s|].
  destruct s as [|y s]; [done|].
  change (String y s +:+ b) with (String y (s +:+ b)).
  cbn [Strings.HasPrefix] in *.
  apply andb_prop in H as [-> H]. by rewrite IH.
Qed.

Lemma Index_range s p :
  -1 <= Strings.Index s p /\
  (0 <= Strings.Index s p -> Strings.Index s p + Strings.len p <= Strings.len s).
Proof.
  induction s as [|x s [IH1 IH2]].
  - cbn [Strings.Index]. destruct (Strings.HasPrefix "" p) eqn:E; [|done].
    apply HasPrefix_len in E. lia.
  - cbn [Strings.Index]. destruct (Strings.HasPrefix (String x s) p) eqn:E.
    + apply HasPrefix_len in E. lia.
    + rewrite len_String. destruct (Z.leb_spec 0 (Strings.Index s p)); lia.
Qed.

Lemma HasPrefix_app_inv s b p :
  Strings.len p <= Strings.len s ->
  Strings.HasPrefix (s +:+ b) p = Strings.HasPrefix s p.
Proof.
  revert s. induction p as [|x p IH]; intros s H; [by destruct s|].
  destruct s as [|y s].
  - rewrite len_String in H. pose proof (len_nonneg p).
    change (Strings.len "") with 0 in H. lia.
  - change (String y s +:+ b) with (String y (s +:+ b)).
    cbn [Strings.HasPrefix]. rewrite IH; [done|].
    rewrite !len_String in H. lia.
Qed.

Lemma Index_app_l s b p :
  0 <= Strings.Index s p -> Strings.Index (s +:+ b) p = Strings.Index s p.
Proof.
  induction s as [|x s IH]; intros H.
  - cbn [Strings.Index] in H. destruct (Strings.HasPrefix "" p) eqn:E; [|done].
    destruct p; [|done]. by destruct b.
  - pose proof (Index_range (String x s) p) as [_ Hr]. specialize (Hr H).
    pose proof (len_nonneg p).
    change (String x s +:+ b) with (String x (s +:+ b)).
    cbn [Strings.Index] in *.
    change (String x (s +:+ b)) with (String x s +:+ b) at 1.
    rewrite HasPrefix_app_inv by lia.
    destruct (Strings.HasPrefix (String x s) p); [done|].
    destruct (Z.leb_spec 0 (Strings.Index s p)) as [Hs|Hs]; [|lia].
    rewrite (IH Hs).
    destruct (Z.leb_spec 0 (Strings.Index s p)); [done|lia].
Qed.

(** The last byte and the slice without it. *)
Lemma string_snoc s : s <> "" -> exists a c, s = a +:+ String c "".
Proof.
  induction s as [|x s IH]; [done|]. intros _.
  destruct s as [|y s].
  - by exists "", x.
  - destruct IH as (a & c & ->); [done|]. by exists (String x a), c.
Qed.

Lemma at_index_last a c :
  Strings.at_index (a +:+ String c "") (Strings.len (a +:+ String c "") - 1) = Some c.
Proof.
  rewrite len_app, len_String. change (Strings.len "") with 0.
  pose proof (len_nonneg a). unfold Strings.at_index.
  destruct (Z.ltb_spec (Strings.len a + (1 + 0) - 1) 0); [lia|].
  replace (Z.to_nat (Strings.len a + (1 + 0) - 1)) with (String.length a)
    by (unfold Strings.len; lia).
  clear. induction a as [|x a IH]; [done|]. exact IH.
Qed.

Lemma at_index_last_app a b :
  b <> "" ->
  Strings.at_index (a +:+ b) (Strings.len (a +:+ b) - 1) =
  Strings.at_index b (Strings.len b - 1).
Proof.
  intros (b' & c & ->)%string_snoc.
  rewrite <- app_assoc. by rewrite !at_index_last.
Qed.

Lemma take_app_length a b : Strings.take (String.length a) (a +:+ b) = a.
Proof.
  induction a as [|x a IH]; [by destruct b|].
  change (String x a +:+ b) with (String x (a +:+ b)).
  cbn [Strings.take String.length]. by rewrite IH.
Qed.

Lemma drop_app_length a b : Strings.drop (String.length a) (a +:+ b) = b.
Proof. induction a as [|x a IH]; [done|]. exact IH. Qed.

Lemma take_all a : Strings.take (String.length a) a = a.
Proof. induction a as [|x a IH]; [done|]. cbn [Strings.take String.length]. by rewrite IH. Qed.

Lemma slice_init a c :
  Strings.slice (a +:+ String c "") 0 (Strings.len (a +:+ String c "") - 1) = a.
Proof.
  unfold Strings.slice. rewrite len_app, len_String. change (Strings.len "") with 0.
  replace (Z.to_nat (Strings.len a + (1 + 0) - 1 - 0)) with (String.length a)
    by (unfold Strings.len; lia).
  change (Z.to_nat 0) with 0%nat. cbn [Strings.drop].
  apply take_app_length.
Qed.

Lemma HasSuffix_app a b : Strings.HasSuffix (a +:+ b) b = true.
Proof.
  unfold Strings.HasSuffix, Strings.slice_from, Strings.slice.
  rewrite len_app. pose proof (len_nonneg a). pose proof (len_nonneg b).
  apply andb_true_intro; split; [apply Z.leb_le; lia|].
  replace (Strings.len a + Strings.len b - Strings.len b) with (Strings.len a) by lia.
  replace (Z.to_nat (Strings.len a)) with (String.length a) by (unfold Strings.len; lia).
  rewrite drop_app_length.
  replace (Z.to_nat (Strings.len a + Strings.len b - Strings.len a)) with (String.length b)
    by (unfold Strings.len; lia).
  rewrite take_all. apply String.eqb_refl.
Qed.

End string_facts.

(** ** [FormatHost]: normal forms *)

Lemma FormatHost_unfold h :
  FormatHost h = if Strings.len h =? 0 then h else format_stripped (strip_slash h).
Proof. reflexivity. Qed.

Lemma FormatHost_empty : FormatHost "" = "".
Proof. reflexivity. Qed.

Lemma strip_slash_id h :
  Strings.at_index h (Strings.len h - 1) <> Some "/"%char -> strip_slash h = h.
Proof. intros H. unfold strip_slash. by rewrite bool_decide_eq_false_2. Qed.

Lemma strip_slash_last h :
  Strings.HasSuffix h "//" = false ->
  strip_slash h = "" \/
  Strings.at_index (strip_slash h) (Strings.len (strip_slash h) - 1) <> Some "/"%char.
Proof.
  intros Hs. destruct (decide (h = "")) as [->|Hne]; [by left|].
  destruct (string_snoc h Hne) as (a & c & ->).
  unfold strip_slash. rewrite at_index_last.
  destruct (decide (c = "/"%char)) as [->|Hc].
  - rewrite bool_decide_eq_true_2 by done. rewrite slice_init.
    destruct (decide (a = "")) as [->|Ha]; [by left|]. right.
    destruct (string_snoc a Ha) as (a' & c' & ->).
    rewrite at_index_last. intros [= ->].
    rewrite app_assoc in Hs.
    change (String "/" "" +:+ String "/" "") with "//" in Hs.
    by rewrite HasSuffix_app in Hs.
  - rewrite bool_decide_eq_false_2 by congruence. right.
    rewrite at_index_last. congruence.
Qed.

Lemma FormatHost_normalized_id r : normalized r -> FormatHost r = r.
Proof.
  intros (Hlen & Hlast & Hsch & Hport).
  rewrite FormatHost_unfold.
  destruct (Z.eqb_spec (Strings.len r) 0); [lia|].
  rewrite strip_slash_id by done. unfold format_stripped.
  destruct (Z.leb_spec 0 (Strings.Index r "://")); [|lia].
  destruct (Z.ltb_spec (Strings.Index r "://" + 1) (Strings.LastIndexByte r ":")); [|lia].
  reflexivity.
Qed.

Lemma Index_http s : Strings.Index ("http://" +:+ s) "://" = 4.
Proof. reflexivity. Qed.

Lemma Index_https s : Strings.Index ("https://" +:+ s) "://" = 5.
Proof. reflexivity. Qed.

Lemma normalized_app_port X port :
  port = "80" \/ port = "443" ->
  0 <= Strings.Index X "://" ->
  normalized (X +:+ ":" +:+ port).
Proof.
  intros Hport HX.
  pose proof (Index_range X "://") as [_ HI]. specialize (HI HX).
  change (Strings.len "://") with 3 in HI.
  pose proof (len_nonneg X).
  assert (Strings.len (":" +:+ port) = 3 \/ Strings.len (":" +:+ port) = 4) as Hl
    by (destruct Hport as [-> | ->]; [by left|by right]).
  assert (Strings.LastIndexByte (":" +:+ port) ":"%char = 0) as HL
    by (by destruct Hport as [-> | ->]).
  repeat split.
  - rewrite len_app. lia.
  - rewrite at_index_last_app by (by destruct Hport as [-> | ->]).
    by destruct Hport as [-> | ->].
  - by rewrite Index_app_l.
  - rewrite Index_app_l by done. rewrite LastIndexByte_app, HL.
    change (0 <=? 0) with true. cbv iota. lia.
Qed.

Lemma normalized_add_scheme p h :
  p = "http://" \/ p = "https://" ->
  Strings.at_index h (Strings.len h - 1) <> Some "/"%char ->
  0 < Strings.LastIndexByte h ":"%char ->
  normalized (p +:+ h).
Proof.
  intros Hp Hlast HL.
  pose proof (LastIndexByte_range h ":"%char).
  assert (h <> "") by (intros ->; change (Strings.len "") with 0 in *; lia).
  assert (Strings.Index (p +:+ h) "://" + 3 = Strings.len p) as HI
    by (destruct Hp as [-> | ->]; [by rewrite Index_http|by rewrite Index_https]).
  assert (7 <= Strings.len p) by (by destruct Hp as [-> | ->]).
  repeat split.
  - rewrite len_app. lia.
  - by rewrite at_index_last_app.
  - lia.
  - rewrite LastIndexByte_app.
    destruct (Z.leb_spec 0 (Strings.LastIndexByte h ":")); lia.
Qed.

Lemma format_stripped_normalized h :
  h = "" \/ Strings.at_index h (Strings.len h - 1) <> Some "/"%char ->
  normalized (format_stripped h).
Proof.
  intros Hlast. unfold format_stripped.
  pose proof (LastIndexByte_range h ":"%char) as HL.
  pose proof (Index_range h "://") as [HI1 HI2].
  pose proof (len_nonneg h) as Hlen.
  change (Strings.len "://") with 3 in HI2.
  assert (0 < Strings.LastIndexByte h ":"%char ->
          Strings.at_index h (Strings.len h - 1) <> Some "/"%char) as Hl.
  { intros HL'. destruct Hlast as [-> |]; [|done].
    change (Strings.LastIndexByte "" ":"%char) with (-1) in HL'. lia. }
  destruct (Z.ltb_spec (Strings.Index h "://" + 1) (Strings.LastIndexByte h ":")) as [Hp|Hp];
    destruct (Z.leb_spec 0 (Strings.Index h "://")) as [Hs|Hs]; cbn [negb].
  - (* scheme and port: nothing to add *)
    repeat split; [lia|apply Hl; lia|lia|lia].
  - (* port without scheme *)
    destruct (String.eqb _ "443");
      (apply normalized_add_scheme; [auto|apply Hl; lia|lia]).
  - (* scheme without port *)
    destruct (Strings.HasPrefix h "https://"); apply normalized_app_port; auto.
  - (* neither *)
    change (normalized (("http://" +:+ h) +:+ ":" +:+ "80")).
    apply normalized_app_port; [auto|]. rewrite Index_http. lia.
Qed.

Lemma FormatHost_normalized h :
  h <> "" -> Strings.HasSuffix h "//" = false -> normalized (FormatHost h).
Proof.
  intros Hne Hs. rewrite FormatHost_unfold.
  destruct (Z.eqb_spec (Strings.len h) 0) as [H0|_]; [by apply len_0 in H0|].
  apply format_stripped_normalized, strip_slash_last, Hs.
Qed.

Lemma normalized_nonempty r : normalized r -> r <> "".
Proof. intros [H _] ->. change (Strings.len "") with 0 in H. lia. Qed.

(** [FormatHost] never empties a host: it leaves a scheme or adds one. *)
Lemma format_stripped_nonempty h : format_stripped h <> "".
Proof.
  unfold format_stripped.
  pose proof (LastIndexByte_range h ":"%char) as HL.
  destruct (Z.ltb_spec (Strings.Index h "://" + 1) (Strings.LastIndexByte h ":")) as [Hp|Hp];
    destruct (Z.leb_spec 0 (Strings.Index h "://")) as [Hs|Hs]; cbn [negb].
  - intros ->. change (Strings.len "") with 0 in HL. lia.
  - by destruct (String.eqb _ "443").
  - destruct (Strings.HasPrefix h "https://"); by destruct h.
  - done.
Qed.

Lemma FormatHost_nonempty h : h <> "" -> FormatHost h <> "".
Proof.
  intros Hne. rewrite FormatHost_unfold.
  destruct (Z.eqb_spec (Strings.len h) 0) as [H0|_]; [by apply len_0 in H0|].
  apply format_stripped_nonempty.
Qed.

(** What [format_stripped] adds: nothing when the host has a scheme and a
    port, at least three bytes otherwise. *)
Lemma format_stripped_grows h :
  (0 <= Strings.Index h "://" /\
   Strings.Index h "://" + 1 < Strings.LastIndexByte h ":"%char /\
   format_stripped h = h) \/
  Strings.len h + 3 <= Strings.len (format_stripped h).
Proof.
  unfold format_stripped.
  pose proof (len_nonneg h) as Hlen.
  destruct (Z.ltb_spec (Strings.Index h "://" + 1) (Strings.LastIndexByte h ":")) as [Hp|Hp];
    destruct (Z.leb_spec 0 (Strings.Index h "://")) as [Hs|Hs]; cbn [negb].
  - by left.
  - right. destruct (String.eqb _ "443"); rewrite len_app;
      [change (Strings.len "https://") with 8|change (Strings.len "http://") with 7]; lia.
  - right. destruct (Strings.HasPrefix h "https://"); rewrite len_app;
      [change (Strings.len (":" +:+ "443")) with 4|change (Strings.len (":" +:+ "80")) with 3]; lia.
  - right. change (Strings.len h + 3 <= Strings.len (("http://" +:+ h) +:+ ":80")).
    rewrite !len_app. change (Strings.len "http://") with 7.
    change (Strings.len ":80") with 3. lia.
Qed.

Lemma format_stripped_scheme_port h :
  0 <= Strings.Index (format_stripped h) "://" /\
  Strings.Index (format_stripped h) "://" + 1
    < Strings.LastIndexByte (format_stripped h) ":"%char.
Proof.
  unfold format_stripped.
  pose proof (LastIndexByte_range h ":"%char) as HL.
  pose proof (Index_range h "://") as [HI1 HI2].
  destruct (Z.ltb_spec (Strings.Index h "://" + 1) (Strings.LastIndexByte h ":")) as [Hp|Hp];
    destruct (Z.leb_spec 0 (Strings.Index h "://")) as [Hs|Hs]; cbn [negb].
  - done.
  - destruct (String.eqb _ "443"); rewrite LastIndexByte_app;
      destruct (Z.leb_spec 0 (Strings.LastIndexByte h ":")); try lia;
      [rewrite Index_https; change (Strings.len "https://") with 8
      |rewrite Index_http; change (Strings.len "http://") with 7]; lia.
  - destruct (Strings.HasPrefix h "https://").
    + by destruct (normalized_app_port h "443" (or_intror eq_refl) Hs) as (_ & _ & ? & ?).
    + by destruct (normalized_app_port h "80" (or_introl eq_refl) Hs) as (_ & _ & ? & ?).
  - assert (0 <= Strings.Index ("http://" +:+ h) "://") as H4
      by (rewrite Index_http; lia).
    by destruct (normalized_app_port ("http://" +:+ h) "80" (or_introl eq_refl) H4)
      as (_ & _ & ? & ?).
Qed.

Lemma strip_slash_len h :
  strip_slash h = h \/ Strings.len (strip_slash h) = Strings.len h - 1.
Proof.
  destruct (decide (h = "")) as [->|Hne]; [by left|].
  destruct (string_snoc h Hne) as (a & c & ->).
  unfold strip_slash. rewrite at_index_last.
  destruct (decide (c = "/"%char)) as [->|Hc].
  - right. rewrite bool_decide_eq_true_2 by done. rewrite slice_init, len_app.
    change (Strings.len (String "/" "")) with 1. lia.
  - left. by rewrite bool_decide_eq_false_2 by congruence.
Qed.

(** A suffix can be split off. *)
Lemma take_drop n s : Strings.take n s +:+ Strings.drop n s = s.
Proof.
  revert s. induction n as [|n IH]; intros [|x s]; simpl; try done.
  change (String x (Strings.take n s +:+ Strings.drop n s) = String x s).
  by rewrite IH.
Qed.

Lemma drop_length n s :
  String.length (Strings.drop n s) = (String.length s - n)%nat.
Proof.
  revert s. induction n as [|n IH]; intros [|x s]; cbn [Strings.drop String.length];
    try done; try lia.
Qed.

Lemma HasSuffix_inv s suffix :
  Strings.HasSuffix s suffix = true -> exists a, s = a +:+ suffix.
Proof.
  unfold Strings.HasSuffix, Strings.slice_from, Strings.slice.
  intros [Hlen Heq]%andb_prop. apply Z.leb_le in Hlen. apply String.eqb_eq in Heq.
  set (n := Z.to_nat (Strings.len s - Strings.len suffix)) in *.
  replace (Z.to_nat (Strings.len s - (Strings.len s - Strings.len suffix)))
    with (String.length (Strings.drop n s)) in Heq
    by (rewrite drop_length; unfold n, Strings.len in *; lia).
  rewrite take_all in Heq. exists (Strings.take n s).
  rewrite <- (take_drop n s) at 1. by rewrite Heq.
Qed.

(** A host that ends in two slashes still ends in one after the first step
    of [FormatHost]. *)
Lemma strip_slash_double a :
  strip_slash (a +:+ "//") = a +:+ "/" /\
  Strings.slice (a +:+ "//") 0 (Strings.len (a +:+ "//") - 1) = a +:+ "/".
Proof.
  assert (a +:+ "//" = (a +:+ "/") +:+ String "/" "") as E
    by (by rewrite app_assoc).
  rewrite E. unfold strip_slash. rewrite at_index_last.
  rewrite bool_decide_eq_true_2 by done. by rewrite slice_init.
Qed.

(** A host without a port gets one, and then it is in normal form. *)
Lemma format_stripped_adds_port h :
  ~ Strings.Index h "://" + 1 < Strings.LastIndexByte h ":"%char ->
  normalized (format_stripped h).
Proof.
  intros Hp. unfold format_stripped.
  destruct (Z.ltb_spec (Strings.Index h "://" + 1) (Strings.LastIndexByte h ":"));
    [done|].
  destruct (Z.leb_spec 0 (Strings.Index h "://")) as [Hs|Hs]; cbn [negb].
  - destruct (Strings.HasPrefix h "https://"); apply normalized_app_port; auto.
  - change (normalized (("http://" +:+ h) +:+ ":" +:+ "80")).
    apply normalized_app_port; [auto|]. rewrite Index_http. lia.
Qed.

(** A host with a port keeps its last byte. *)
Lemma format_stripped_keeps_last h :
  Strings.Index h "://" + 1 < Strings.LastIndexByte h ":"%char ->
  Strings.at_index (format_stripped h) (Strings.len (format_stripped h) - 1)
  = Strings.at_index h (Strings.len h - 1).
Proof.
  intros Hp. unfold format_stripped.
  pose proof (Index_range h "://") as [HI _].
  assert (h <> "") as Hne.
  { intros ->. change (Strings.LastIndexByte "" ":"%char) with (-1) in Hp. lia. }
  destruct (Z.ltb_spec (Strings.Index h "://" + 1) (Strings.LastIndexByte h ":"));
    [|lia].
  destruct (Z.leb_spec 0 (Strings.Index h "://")) as [Hs|Hs]; cbn [negb]; [done|].
  destruct (String.eqb _ "443"); by apply at_index_last_app.
Qed.

(** A result of [FormatHost] is left as it is by a second call exactly when
    it does not end in a slash. *)
Lemma FormatHost_again h :
  h <> "" ->
  FormatHost (FormatHost h) = FormatHost h <->
  Strings.at_index (FormatHost h) (Strings.len (FormatHost h) - 1) <> Some "/"%char.
Proof.
  intros Hne.
  assert (FormatHost h = format_stripped (strip_slash h)) as Hr.
  { rewrite FormatHost_unfold.
    destruct (Z.eqb_spec (Strings.len h) 0) as [H0|_]; [by apply len_0 in H0|done]. }
  pose proof (FormatHost_nonempty h Hne) as Hrne.
  destruct (format_stripped_scheme_port (strip_slash h)) as [Hsch Hport].
  rewrite <- Hr in Hsch, Hport.
  set (r := FormatHost h) in *. clearbody r.
  pose proof (len_nonneg r) as Hlen.
  assert (0 < Strings.len r) as Hpos.
  { destruct (Z.eqb_spec (Strings.len r) 0) as [H0|]; [by apply len_0 in H0|lia]. }
  split.
  - intros Hfix Hlast.
    rewrite FormatHost_unfold in Hfix.
    destruct (Z.eqb_spec (Strings.len r) 0) as [|_]; [lia|].
    assert (Strings.len (strip_slash r) = Strings.len r - 1) as Hstrip.
    { destruct (string_snoc r Hrne) as (a & x & ->).
      unfold strip_slash. rewrite bool_decide_eq_true_2 by done.
      rewrite slice_init, len_app. change (Strings.len (String x "")) with 1. lia. }
    destruct (format_stripped_grows (strip_slash r)) as [(_ & _ & E)|E];
      rewrite Hfix in E; [rewrite <- E in Hstrip|]; lia.
  - intros Hlast. by apply FormatHost_normalized_id.
Qed.

(** C1 (as amended). [FormatHost] is idempotent on a host exactly when the
    host does not both end in two slashes and have a port before the last of
    them, that is, a last colon more than one byte after the start of the
    scheme separator (or after the first byte without one), as the code
    tells a port.  Only one trailing slash is removed per call: such a host
    keeps a slash at the first call, no port is appended behind it, and the
    second call removes it.  Every other host, also one that ends in two
    slashes without a port, gets its final form at the first call. *)
Theorem FormatHost_idempotent_iff (h : string) :
  FormatHost (FormatHost h) = FormatHost h <->
  ~ (Strings.HasSuffix h "//" = true /\
     let Host := Strings.slice h 0 (Strings.len h - 1) in
     Strings.Index Host "://" + 1 < Strings.LastIndexByte Host ":"%char).
Proof.
  destruct (decide (h = "")) as [->|Hne].
  { split; [|done]. by intros _ [? _]. }
  rewrite (FormatHost_again h Hne).
  assert (FormatHost h = format_stripped (strip_slash h)) as ->.
  { rewrite FormatHost_unfold.
    destruct (Z.eqb_spec (Strings.len h) 0) as [H0|_]; [by apply len_0 in H0|done]. }
  cbv zeta.
  destruct (decide (Strings.Index (strip_slash h) "://" + 1
                    < Strings.LastIndexByte (strip_slash h) ":"%char)) as [Hp|Hp].
  - rewrite (format_stripped_keeps_last _ Hp).
    destruct (Strings.HasSuffix h "//") eqn:Hs.
    + apply HasSuffix_inv in Hs as [a ->].
      destruct (strip_slash_double a) as [E1 E2]. rewrite E1 in Hp |- *. rewrite E2.
      change (a +:+ "/") with (a +:+ String "/" ""). rewrite at_index_last.
      split; [done|]. intros H. by destruct H.
    + split; [by intros _ [? _]|]. intros _.
      destruct (strip_slash_last h Hs) as [E|E]; [|done].
      rewrite E in Hp. change (Strings.LastIndexByte "" ":"%char) with (-1) in Hp.
      change (Strings.Index "" "://") with (-1) in Hp. lia.
  - destruct (format_stripped_adds_port _ Hp) as (_ & Hlast & _).
    split; [|done]. intros _ [Hs Hport].
    apply HasSuffix_inv in Hs as [a ->].
    destruct (strip_slash_double a) as [E1 E2]. rewrite E1 in Hp. rewrite E2 in Hport.
    done.
Qed.

(** On the hosts that do not end in two slashes, in particular. *)
Corollary FormatHost_idempotent_no_double_slash (h : string) :
  Strings.HasSuffix h "//" = false ->
  FormatHost (FormatHost h) = FormatHost h.
Proof.
  intros Hs. destruct (decide (h = "")) as [->|Hne]; [done|].
  apply FormatHost_normalized_id, FormatHost_normalized; done.
Qed.

(** C1, counterexample: a host with a port and two trailing slashes loses one
    slash at the first call and the other at the second. *)
Lemma FormatHost_not_idempotent :
  FormatHost "example.com:80//" = "http://example.com:80/" /\
  FormatHost (FormatHost "example.com:80//") = "http://example.com:80" /\
  FormatHost (FormatHost "example.com:80//") <> FormatHost "example.com:80//".
Proof. repeat split. vm_compute. discriminate. Qed.

(** Two trailing slashes without a port before them: the port goes behind
    the slash that is left, and the second call changes nothing. *)
Lemma FormatHost_double_slash_no_port :
  FormatHost "example.com//" = "http://example.com/:80" /\
  FormatHost (FormatHost "example.com//") = FormatHost "example.com//".
Proof. by split. Qed.

(** C6. The three documented normalisations. *)
Theorem FormatHost_examples :
  FormatHost "example.com" = "http://example.com:80" /\
  FormatHost "example.com:443" = "https://example.com:443" /\
  FormatHost "https://example.com/" = "https://example.com:443".
Proof. repeat split. Qed.

(** ** Running the heap operations *)

Lemma bind_Ok {A B} (m : M A) (k : A -> M B) σ a σ1 :
  m σ = Ok (a, σ1) -> bind m k σ = k a σ1.
Proof. intros H. unfold bind. by rewrite H. Qed.

Lemma bind_inv {A B} (m : M A) (k : A -> M B) σ b σ' :
  bind m k σ = Ok (b, σ') ->
  exists a σ1, m σ = Ok (a, σ1) /\ k a σ1 = Ok (b, σ').
Proof.
  unfold bind. destruct (m σ) as [[a σ1]|]; [|done]. intros H. by exists a, σ1.
Qed.

Lemma bind_assoc {A B C} (m : M A) (k : A -> M B) (k' : B -> M C) σ :
  bind (bind m k) k' σ = bind m (fun x => bind (k x) k') σ.
Proof. unfold bind. by destruct (m σ) as [[a σ1]|]. Qed.

Lemma bind_ret {A B} (a : A) (k : A -> M B) σ : bind (ret a) k σ = k a σ.
Proof. done. Qed.

Lemma map_read_Some r mp σ :
  maps σ !! r = Some mp -> map_read (Some r) σ = Ok (mp, σ).
Proof. intros H. unfold map_read. by rewrite H. Qed.

Lemma map_read_nil σ : map_read None σ = Ok (∅, σ).
Proof. done. Qed.

Lemma map_read_inv m mp σ σ' :
  map_read m σ = Ok (mp, σ') ->
  σ' = σ /\ match m with Some r => maps σ !! r = Some mp | None => mp = ∅ end.
Proof.
  unfold map_read. destruct m as [r|]; [|by intros [= <- <-]].
  destruct (maps σ !! r); [|done]. by intros [= <- <-].
Qed.

Lemma map_lookup_Some r mp k σ :
  maps σ !! r = Some mp -> map_lookup (Some r) k σ = Ok (mp !! k, σ).
Proof. intros H. unfold map_lookup. by rewrite (bind_Ok _ _ _ _ _ (map_read_Some _ _ _ H)). Qed.

Lemma map_lookup_nil k σ : map_lookup None k σ = Ok (None, σ).
Proof. done. Qed.

Lemma map_range_Some range r mp σ :
  maps σ !! r = Some mp -> map_range range (Some r) σ = Ok (range mp, σ).
Proof. intros H. unfold map_range. by rewrite (bind_Ok _ _ _ _ _ (map_read_Some _ _ _ H)). Qed.

Lemma map_delete_Some r mp k σ :
  maps σ !! r = Some mp ->
  map_delete (Some r) k σ = Ok (tt, set_maps <[r := delete k mp]> σ).
Proof. intros H. unfold map_delete. by rewrite H. Qed.

Lemma map_assign_Some r mp k v σ :
  maps σ !! r = Some mp ->
  map_assign (Some r) k v σ = Ok (tt, set_maps <[r := <[k := v]> mp]> σ).
Proof. intros H. unfold map_assign. by rewrite H. Qed.

Lemma on_struct_Some {A} l v (f : ClientConfiguration -> A * ClientConfiguration) σ :
  structs σ !! l = Some v ->
  on_struct (Some l) f σ = Ok ((f v).1, set_structs <[l := (f v).2]> σ).
Proof.
  intros H. unfold on_struct, bind, load, store, ret. rewrite H.
  destruct (f v) as [a v']. cbn. by rewrite H.
Qed.

Lemma on_struct_inv {A} p (f : ClientConfiguration -> A * ClientConfiguration) σ a σ' :
  on_struct p f σ = Ok (a, σ') ->
  exists l v, p = Some l /\ structs σ !! l = Some v /\
              a = (f v).1 /\ σ' = set_structs <[l := (f v).2]> σ.
Proof.
  destruct p as [l|]; [|done].
  destruct (structs σ !! l) as [v|] eqn:E.
  - rewrite (on_struct_Some _ _ _ _ E). intros [= <- <-]. by exists l, v.
  - unfold on_struct, bind, load. by rewrite E.
Qed.

(** ** [RemoveContext] *)

Section RemoveContext_facts.
Variable range : gmap string ptr -> list (string * ptr).
Hypothesis range_perm : forall mp, range mp ≡ₚ map_to_list mp.

Lemma range_singleton k (p : ptr) : range {[k := p]} = [(k, p)].
Proof.
  apply Permutation_singleton_r. rewrite range_perm.
  by rewrite map_to_list_singleton.
Qed.

Lemma elem_of_range mp k (p : ptr) : (k, p) ∈ range mp <-> mp !! k = Some p.
Proof. rewrite range_perm. apply elem_of_map_to_list. Qed.

End RemoveContext_facts.

(** C7. Removing a context that exists and is not the current one returns
    true, deletes that key from the map (the entry under the name is gone,
    every other key keeps its entry), and leaves the receiver, so
    [CurrentContext], and every client configuration as they were. *)
Theorem RemoveContext_not_current
    (range : gmap string ptr -> list (string * ptr))
    (c : Configuration) (name : string) (σ : Store)
    (r : loc) (mp : gmap string ptr) (p : ptr) :
  Contexts c = Some r ->
  maps σ !! r = Some mp ->
  mp !! name = Some p ->
  name <> CurrentContext c ->
  exists mp',
    RemoveContext range c name σ = Ok ((true, c), set_maps <[r := mp']> σ) /\
    mp' !! name = None /\
    (forall k, k <> name -> mp' !! k = mp !! k).
Proof.
  intros Hc Hr Hp Hne. exists (delete name mp). split; [|split].
  - unfold RemoveContext. rewrite Hc.
    rewrite (bind_Ok _ _ _ _ _ (map_lookup_Some _ _ name _ Hr)), Hp.
    destruct (String.eqb_spec (CurrentContext c) name) as [E|_]; [by subst|].
    unfold bind at 1. cbn [ret]. rewrite Hc.
    by rewrite (bind_Ok _ _ _ _ _ (map_delete_Some _ _ name _ Hr)).
  - apply lookup_delete_eq.
  - intros k Hk. by apply lookup_delete_ne.
Qed.

Lemma RemoveContext_not_current_witness :
  exists mp',
    RemoveContext map_to_list RemoveContext_not_current_input.2 "dev"
      RemoveContext_not_current_input.1
    = Ok ((true, RemoveContext_not_current_input.2),
          set_maps <[1%positive := mp']> RemoveContext_not_current_input.1) /\
    mp' !! "dev" = None /\
    (forall k, k <> "dev" ->
       mp' !! k = ({[ "dev" := Some 1%positive; "prod" := Some 2%positive ]} : gmap string ptr) !! k).
Proof.
  apply (RemoveContext_not_current map_to_list RemoveContext_not_current_input.2 "dev"
           RemoveContext_not_current_input.1 1%positive
           {[ "dev" := Some 1%positive; "prod" := Some 2%positive ]} (Some 1%positive)).
  - reflexivity.
  - vm_compute. reflexivity.
  - vm_compute. reflexivity.
  - vm_compute. discriminate.
Defined.

(** C2 (as amended). When the map holds exactly one entry and that entry is
    the current context, removing it returns false and changes nothing: the
    receiver, the map and the client configurations are as before. *)
Theorem RemoveContext_sole_current
    (range : gmap string ptr -> list (string * ptr))
    (range_perm : forall mp, range mp ≡ₚ map_to_list mp)
    (c : Configuration) (name : string) (σ : Store) (r : loc) (p : ptr) :
  Contexts c = Some r ->
  maps σ !! r = Some {[ name := p ]} ->
  CurrentContext c = name ->
  RemoveContext range c name σ = Ok ((false, c), σ).
Proof.
  intros Hc Hr Hcur. unfold RemoveContext. rewrite Hc.
  rewrite (bind_Ok _ _ _ _ _ (map_lookup_Some _ _ name _ Hr)).
  rewrite lookup_singleton_eq, Hcur, String.eqb_refl.
  rewrite bind_assoc, (bind_Ok _ _ _ _ _ (map_range_Some range _ _ _ Hr)).
  rewrite (range_singleton range range_perm).
  cbn [RemoveContext_loop]. by rewrite String.eqb_refl.
Qed.

Lemma RemoveContext_sole_current_witness :
  RemoveContext map_to_list {| CurrentContext := "dev"; Contexts := Some 1%positive |} "dev"
    RemoveContext_sole_input
  = Ok ((false, {| CurrentContext := "dev"; Contexts := Some 1%positive |}),
        RemoveContext_sole_input).
Proof.
  apply (RemoveContext_sole_current map_to_list (fun mp => reflexivity _)
           {| CurrentContext := "dev"; Contexts := Some 1%positive |} "dev"
           RemoveContext_sole_input 1%positive (Some 1%positive)).
  - reflexivity.
  - vm_compute. reflexivity.
  - reflexivity.
Defined.

(** C2, counterexample: the map holds the single entry "dev" and
    [CurrentContext] is empty; removing "dev" returns true and empties the
    map. *)
Lemma RemoveContext_sole_not_current :
  RemoveContext map_to_list {| CurrentContext := ""; Contexts := Some 1%positive |} "dev"
    RemoveContext_sole_input
  = Ok ((true, {| CurrentContext := ""; Contexts := Some 1%positive |}),
        {| structs := {[ 1%positive := zero_ClientConfiguration ]};
           maps := {[ 1%positive := ∅ ]} |}).
Proof. vm_compute. reflexivity. Qed.

(** ** [GetCurrent] and [FillCurrent] *)

(** The branch of [GetCurrent] that creates the missing entry. *)
Lemma GetCurrent_create (c : Configuration) (σ : Store) r mp :
  Contexts c = Some r ->
  maps σ !! r = Some mp ->
  let l := fresh (dom (structs σ)) in
  let c' := if String.eqb (CurrentContext c) ""
            then set_CurrentContext DefaultContextKey c else c in
  (cfg <- alloc zero_ClientConfiguration ;;
   map_assign (Contexts c') (CurrentContext c') cfg ;;
   ret (cfg, c')) σ
  = Ok ((Some l, c'),
        {| structs := <[l := zero_ClientConfiguration]> (structs σ);
           maps := <[r := <[CurrentContext c' := Some l]> mp]> (maps σ) |}).
Proof.
  intros Hc Hr l c'.
  assert (Contexts c' = Some r) as Hc' by (subst c'; by destruct (String.eqb _ _)).
  unfold bind at 1. unfold alloc. fold l. rewrite Hc'.
  by erewrite bind_Ok by (by apply map_assign_Some).
Qed.

(** [GetCurrent] on an allocated map. *)
Lemma GetCurrent_live (c : Configuration) (σ : Store) r mp :
  Contexts c = Some r ->
  maps σ !! r = Some mp ->
  GetCurrent c σ =
    match mp !! CurrentContext c with
    | Some cfg => Ok ((cfg, c), σ)
    | None =>
        let l := fresh (dom (structs σ)) in
        let c' := if String.eqb (CurrentContext c) ""
                  then set_CurrentContext DefaultContextKey c else c in
        Ok ((Some l, c'),
            {| structs := <[l := zero_ClientConfiguration]> (structs σ);
               maps := <[r := <[CurrentContext c' := Some l]> mp]> (maps σ) |})
    end.
Proof.
  intros Hc Hr. unfold GetCurrent. rewrite Hc, bind_ret, Hc.
  rewrite (bind_Ok _ _ _ _ _ (map_lookup_Some _ _ (CurrentContext c) _ Hr)).
  destruct (mp !! CurrentContext c); [done|].
  by apply GetCurrent_create.
Qed.

(** [GetCurrent] on a nil map: the map is made first. *)
Lemma GetCurrent_nil (c : Configuration) (σ : Store) :
  Contexts c = None ->
  GetCurrent c σ =
    GetCurrent (set_Contexts (Some (fresh (dom (maps σ)))) c)
               (set_maps <[fresh (dom (maps σ)) := ∅]> σ).
Proof. intros Hc. unfold GetCurrent. rewrite Hc. reflexivity. Qed.

(** C4. [GetCurrent] has no error case and never returns nil: on every
    configuration of the data model (a map that is nil or allocated, whose
    entries point to client configurations) it returns a pointer, not nil,
    to a client configuration, and the configuration it leaves is again one
    of the data model.  On the zero value [Configuration{}] the receiver
    ends with [CurrentContext = "master"] and a map with exactly one entry,
    a zero-valued client configuration under that key. *)
Theorem GetCurrent_self_heals (c : Configuration) (σ : Store) :
  owns_entries σ c ->
  exists l v c' σ',
    GetCurrent c σ = Ok ((Some l, c'), σ') /\
    structs σ' !! l = Some v /\
    owns_entries σ' c' /\
    (c = {| CurrentContext := ""; Contexts := None |} ->
     exists r,
       c' = {| CurrentContext := "master"; Contexts := Some r |} /\
       maps σ' !! r = Some {[ "master" := Some l ]} /\
       v = zero_ClientConfiguration).
Proof.
  assert (forall (c : Configuration) σ r mp,
            Contexts c = Some r -> maps σ !! r = Some mp ->
            (forall k p, mp !! k = Some p -> allocated σ p) ->
            exists l v c' σ',
              GetCurrent c σ = Ok ((Some l, c'), σ') /\
              structs σ' !! l = Some v /\
              owns_entries σ' c' /\
              (mp = ∅ -> CurrentContext c = "" ->
               c' = set_CurrentContext "master" c /\
               maps σ' !! r = Some {[ "master" := Some l ]} /\
               v = zero_ClientConfiguration)) as Hlive.
  { clear c σ. intros c σ r mp Hc Hmp Hall.
    rewrite (GetCurrent_live c σ r mp Hc Hmp).
    destruct (mp !! CurrentContext c) as [p|] eqn:Hcur.
    - destruct (Hall _ p Hcur) as (l & -> & [v Hv]).
      exists l, v, c, σ. split; [done|]. split; [done|]. split.
      + intros r' Hr'. assert (r' = r) as -> by congruence. by exists mp.
      + intros -> _. by rewrite lookup_empty in Hcur.
    - set (l := fresh (dom (structs σ))).
      set (c' := if String.eqb (CurrentContext c) ""
                 then set_CurrentContext DefaultContextKey c else c).
      assert (Contexts c' = Some r) as Hc' by (subst c'; by destruct (String.eqb _ _)).
      eexists l, zero_ClientConfiguration, c', _. split; [reflexivity|].
      cbn [structs maps]. split; [apply lookup_insert_eq|]. split.
      + intros r' Hr'. assert (r' = r) as -> by congruence.
        eexists. cbn [maps]. split; [apply lookup_insert_eq|].
        intros k p Hk. destruct (decide (k = CurrentContext c')) as [->|Hne].
        * rewrite lookup_insert_eq in Hk. injection Hk as <-.
          exists l. split; [done|]. cbn [structs]. rewrite lookup_insert_eq. eauto.
        * rewrite lookup_insert_ne in Hk by done.
          destruct (Hall k p Hk) as (l' & -> & Hl'). exists l'. split; [done|].
          cbn [structs]. destruct (decide (l = l')) as [<-|Hl].
          -- rewrite lookup_insert_eq. eauto.
          -- by rewrite lookup_insert_ne.
      + intros -> Hempty. subst c'. rewrite Hempty. cbn [String.eqb].
        split; [done|]. split; [|done].
        rewrite lookup_insert_eq. done. }
  intros Hown. destruct (Contexts c) as [r|] eqn:Hc.
  - destruct (Hown r Hc) as (mp & Hmp & Hall).
    destruct (Hlive c σ r mp Hc Hmp Hall) as (l & v & c' & σ' & H & Hl & Hown' & _).
    exists l, v, c', σ'. split; [done|]. split; [done|]. split; [done|].
    intros ->. done.
  - rewrite (GetCurrent_nil c σ Hc).
    set (r := fresh (dom (maps σ))).
    set (σ1 := set_maps <[r := ∅]> σ).
    assert (maps σ1 !! r = Some ∅) as Hr by apply lookup_insert_eq.
    destruct (Hlive (set_Contexts (Some r) c) σ1 r ∅ eq_refl Hr)
      as (l & v & c' & σ' & H & Hl & Hown' & Hzero).
    { intros k p Hk. by rewrite lookup_empty in Hk. }
    exists l, v, c', σ'. split; [done|]. split; [done|]. split; [done|].
    intros ->. destruct (Hzero eq_refl eq_refl) as (-> & Hm & ->).
    by exists r.
Qed.

Lemma GetCurrent_self_heals_witness :
  exists l v c' σ',
    GetCurrent {| CurrentContext := ""; Contexts := None |} {| structs := ∅; maps := ∅ |}
    = Ok ((Some l, c'), σ') /\
    structs σ' !! l = Some v /\
    owns_entries σ' c' /\
    ({| CurrentContext := ""; Contexts := None |} = {| CurrentContext := ""; Contexts := None |} ->
     exists r,
       c' = {| CurrentContext := "master"; Contexts := Some r |} /\
       maps σ' !! r = Some {[ "master" := Some l ]} /\
       v = zero_ClientConfiguration).
Proof.
  apply (GetCurrent_self_heals {| CurrentContext := ""; Contexts := None |}
           {| structs := ∅; maps := ∅ |}).
  intros r H. discriminate H.
Defined.

(** Outside the data model an entry is returned as it is found: a map that
    holds a nil pointer under the current context makes [GetCurrent] return
    nil, which is why the entries are required to point to client
    configurations. *)
Lemma GetCurrent_returns_nil_entry :
  GetCurrent {| CurrentContext := "dev"; Contexts := Some 1%positive |}
    {| structs := ∅; maps := {[ 1%positive := {[ "dev" := None ]} ]} |}
  = Ok ((None, {| CurrentContext := "dev"; Contexts := Some 1%positive |}),
        {| structs := ∅; maps := {[ 1%positive := {[ "dev" := None ]} ]} |}).
Proof. vm_compute. reflexivity. Qed.

(** C10. On a configuration whose map is nil, [FillCurrent] with a valid
    argument reaches the assignment into the nil map and panics, where
    [GetCurrent] makes the map first and returns.  With an allocated map
    that has no entry under the current context, or an allocated one,
    [FillCurrent] returns. *)
Theorem FillCurrent_nil_map_panics (c : Configuration) (cfg : ClientConfiguration) (σ : Store) :
  Contexts c = None ->
  (ClientConfiguration_IsValid cfg).1 = true ->
  FillCurrent c cfg σ = Panic /\
  (exists res, GetCurrent c σ = Ok res) /\
  (forall c' r mp,
     Contexts c' = Some r ->
     maps σ !! r = Some mp ->
     (forall p, mp !! CurrentContext c' = Some p -> exists l, p = Some l /\ is_Some (structs σ !! l)) ->
     exists σ', FillCurrent c' cfg σ = Ok (tt, σ')).
Proof.
  intros Hc Hvalid. split; [|split].
  - unfold FillCurrent. rewrite Hc, (bind_Ok _ _ _ _ _ (map_lookup_nil _ _)).
    destruct (ClientConfiguration_IsValid cfg) as [valid cfg']. cbn in Hvalid. subst valid.
    reflexivity.
  - rewrite (GetCurrent_nil c σ Hc).
    rewrite (GetCurrent_live (set_Contexts (Some (fresh (dom (maps σ)))) c) _
               (fresh (dom (maps σ))) ∅ eq_refl) by apply lookup_insert_eq.
    rewrite lookup_empty. by eexists.
  - intros c' r mp Hc' Hr Hentry. unfold FillCurrent.
    rewrite Hc', (bind_Ok _ _ _ _ _ (map_lookup_Some _ _ _ _ Hr)).
    destruct (mp !! CurrentContext c') as [p|].
    + destruct (Hentry p eq_refl) as (l & -> & [v Hv]).
      rewrite (bind_Ok _ _ _ _ _ (on_struct_Some _ _ _ _ Hv)). by eexists.
    + destruct (ClientConfiguration_IsValid cfg) as [valid cfg'].
      destruct valid; [|by eexists].
      unfold bind at 1, alloc.
      erewrite map_assign_Some by done. by eexists.
Qed.

Lemma FillCurrent_nil_map_panics_witness :
  FillCurrent {| CurrentContext := "dev"; Contexts := None |} valid_example
    {| structs := ∅; maps := ∅ |} = Panic.
Proof.
  apply (FillCurrent_nil_map_panics {| CurrentContext := "dev"; Contexts := None |}
           valid_example {| structs := ∅; maps := ∅ |}); reflexivity.
Defined.

(** ** [ClientConfiguration.IsValid] and [Fill] *)

Lemma IsValid_non_empty_host (c : ClientConfiguration) :
  Host c <> "" ->
  ClientConfiguration_IsValid c =
    (negb (String.eqb (Token c) "") || bool_decide (Authentication c <> None),
     set_Host (FormatHost (Host c)) c).
Proof.
  intros Hne. unfold ClientConfiguration_IsValid.
  destruct (Z.eqb_spec (Strings.len (Host c)) 0) as [H0|_]; [by apply len_0 in H0|].
  cbn [set_Host Host Token Authentication].
  destruct (String.eqb_spec (FormatHost (Host c)) "") as [E|_]; [|done].
  by apply FormatHost_nonempty in E.
Qed.

Lemma IsValid_empty_host (c : ClientConfiguration) :
  Host c = "" -> ClientConfiguration_IsValid c = (false, c).
Proof. intros H. unfold ClientConfiguration_IsValid. by rewrite H. Qed.

Lemma Fill_host (c other : ClientConfiguration) :
  merged_host c other <> "" ->
  Host (Fill c other).2 = FormatHost (merged_host c other).
Proof.
  unfold merged_host, Fill. intros Hne.
  match goal with
  | |- context [ClientConfiguration_IsValid ?x] =>
      assert (Host x = if String.eqb (Host other) "" then Host c else Host other) as Hx
  end.
  { destruct (String.eqb_spec (Host other) "") as [E|E]; cbn [negb andb].
    - repeat (match goal with |- context [if ?b then _ else _] => destruct b end); done.
    - destruct (String.eqb_spec (Host other) (Host c)) as [E'|E']; cbn [negb];
        repeat (match goal with |- context [if ?b then _ else _] => destruct b end); done. }
  rewrite IsValid_non_empty_host by (by rewrite Hx). cbn [snd set_Host Host].
  by rewrite Hx.
Qed.

(** C3 (as amended). When [other.Host] is not empty and differs from the
    receiver's, after [Fill] the receiver's [Host] is the [FormatHost]
    normal form of [other.Host]: [Fill] ends with a call of [IsValid], which
    normalises the host it has just stored. *)
Theorem Fill_host_is_normalized (c other : ClientConfiguration) :
  Host other <> "" ->
  Host other <> Host c ->
  Host (Fill c other).2 = FormatHost (Host other).
Proof.
  intros Hne _. pose proof (Fill_host c other) as H. unfold merged_host in H.
  destruct (String.eqb_spec (Host other) "") as [E|_]; [done|]. by apply H.
Qed.

Lemma Fill_host_is_normalized_witness :
  Host (Fill zero_ClientConfiguration Fill_example_other).2 = FormatHost "example.com".
Proof.
  apply (Fill_host_is_normalized zero_ClientConfiguration Fill_example_other);
    vm_compute; discriminate.
Defined.

(** C3, counterexample: filling the zero value with the host "example.com"
    leaves "http://example.com:80" in the receiver, not "example.com". *)
Lemma Fill_host_not_verbatim :
  Host Fill_example_other <> "" /\
  Host Fill_example_other <> Host zero_ClientConfiguration /\
  Host (Fill zero_ClientConfiguration Fill_example_other).2 = "http://example.com:80" /\
  Host (Fill zero_ClientConfiguration Fill_example_other).2 <> Host Fill_example_other.
Proof. repeat split; vm_compute; discriminate. Qed.

Section callers_of_IsValid.
Variable range : gmap string ptr -> list (string * ptr).
Hypothesis range_perm : forall mp, range mp ≡ₚ map_to_list mp.

Lemma Configuration_IsValid_single (c : Configuration) (σ : Store) r name l v :
  Contexts c = Some r ->
  maps σ !! r = Some {[ name := Some l ]} ->
  structs σ !! l = Some v ->
  Configuration_IsValid range c σ =
    Ok ((ClientConfiguration_IsValid v).1,
        set_structs <[l := (ClientConfiguration_IsValid v).2]> σ).
Proof.
  intros Hc Hr Hl. unfold Configuration_IsValid, map_len. rewrite Hc.
  rewrite bind_assoc, (bind_Ok _ _ _ _ _ (map_read_Some _ _ _ Hr)), bind_ret.
  rewrite map_size_singleton. change (Z.of_nat 1 =? 0) with false. cbv iota.
  rewrite (bind_Ok _ _ _ _ _ (map_range_Some range _ _ _ Hr)).
  rewrite (range_singleton range range_perm). cbn [IsValid_loop].
  rewrite bind_assoc, (bind_Ok _ _ _ _ _ (on_struct_Some _ _ _ _ Hl)).
  destruct (ClientConfiguration_IsValid v) as [[] v']; cbn [fst snd negb].
  - rewrite !bind_ret. cbn [negb].
    rewrite bind_assoc. erewrite bind_Ok by (by apply map_read_Some).
    rewrite bind_ret, map_size_singleton. reflexivity.
  - by rewrite !bind_ret.
Qed.

Lemma RemoveContext_two (c : Configuration) (σ : Store) r name p other l v :
  Contexts c = Some r ->
  CurrentContext c = name ->
  name <> other ->
  maps σ !! r = Some (<[ name := p ]> {[ other := Some l ]}) ->
  structs σ !! l = Some v ->
  exists b c' σ',
    RemoveContext range c name σ = Ok ((b, c'), σ') /\
    structs σ' = <[l := (ClientConfiguration_IsValid v).2]> (structs σ).
Proof.
  intros Hc Hcur Hne Hr Hl. unfold RemoveContext. rewrite Hc.
  rewrite (bind_Ok _ _ _ _ _ (map_lookup_Some _ _ name _ Hr)).
  rewrite lookup_insert_eq, Hcur, String.eqb_refl.
  rewrite bind_assoc, (bind_Ok _ _ _ _ _ (map_range_Some range _ _ _ Hr)).
  assert (range (<[name:=p]> {[other := Some l]}) = [(name, p); (other, Some l)] \/
          range (<[name:=p]> {[other := Some l]}) = [(other, Some l); (name, p)]) as Hrange.
  { apply Permutation_length_2_inv. rewrite range_perm.
    rewrite map_to_list_insert by (by rewrite lookup_singleton_ne).
    by rewrite map_to_list_singleton. }
  assert (String.eqb other name = false) as Hon
    by (apply String.eqb_neq; congruence).
  set (σ1 := set_structs <[l := (ClientConfiguration_IsValid v).2]> σ).
  assert (RemoveContext_loop name (range (<[name:=p]> {[other := Some l]})) σ =
          Ok (if (ClientConfiguration_IsValid v).1 then Some other else None, σ1)) as Hloop.
  { destruct Hrange as [-> | ->]; cbn [RemoveContext_loop];
      rewrite ?String.eqb_refl, Hon, (bind_Ok _ _ _ _ _ (on_struct_Some _ _ _ _ Hl));
      destruct (ClientConfiguration_IsValid v) as [[] v']; cbn [fst snd];
      rewrite ?String.eqb_refl; reflexivity. }
  rewrite bind_assoc, (bind_Ok _ _ _ _ _ Hloop).
  destruct (ClientConfiguration_IsValid v).1.
  - rewrite bind_ret. cbn [SetCurrent set_CurrentContext Contexts]. rewrite Hc.
    erewrite bind_Ok by (by apply map_delete_Some). by eexists _, _, _.
  - rewrite !bind_ret. by eexists _, _, _.
Qed.
End callers_of_IsValid.

(** C9. [ClientConfiguration.IsValid] writes to its receiver: when [Host] is
    not empty it is replaced by its [FormatHost] normal form, and [Token],
    [Timeout], [Debug] and [Authentication] stay as they were.  The write is
    visible through every caller: [Fill] leaves the normal form of the host
    it has merged, [Configuration.IsValid] normalises the entry it
    validates, and [RemoveContext] the candidate it tries as the new
    current context.  The normal form can differ from the host, so the call
    is not a pure test. *)
Theorem IsValid_normalizes_host
    (range : gmap string ptr -> list (string * ptr))
    (range_perm : forall mp, range mp ≡ₚ map_to_list mp)
    (c : ClientConfiguration) :
  Host c <> "" ->
  let c' := (ClientConfiguration_IsValid c).2 in
  (Host c' = FormatHost (Host c) /\ Token c' = Token c /\ Timeout c' = Timeout c /\
   Debug c' = Debug c /\ Authentication c' = Authentication c) /\
  (forall σ l, structs σ !! l = Some c ->
     on_struct (Some l) ClientConfiguration_IsValid σ =
       Ok ((ClientConfiguration_IsValid c).1, set_structs <[l := c']> σ)) /\
  (forall other, Host (Fill c other).2 = FormatHost (merged_host c other)) /\
  (forall conf σ r name l,
     Contexts conf = Some r ->
     maps σ !! r = Some {[ name := Some l ]} ->
     structs σ !! l = Some c ->
     Configuration_IsValid range conf σ =
       Ok ((ClientConfiguration_IsValid c).1, set_structs <[l := c']> σ)) /\
  (forall conf σ r name p other l,
     Contexts conf = Some r ->
     CurrentContext conf = name ->
     name <> other ->
     maps σ !! r = Some (<[ name := p ]> {[ other := Some l ]}) ->
     structs σ !! l = Some c ->
     exists b conf' σ',
       RemoveContext range conf name σ = Ok ((b, conf'), σ') /\
       structs σ' = <[l := c']> (structs σ)) /\
  (exists c0, Host c0 <> "" /\ (ClientConfiguration_IsValid c0).2 <> c0).
Proof.
  intros Hne c'. subst c'. repeat apply conj.
  1-5: by rewrite IsValid_non_empty_host.
  - intros σ l Hl. by apply on_struct_Some.
  - intros other. apply Fill_host. unfold merged_host.
    by destruct (String.eqb_spec (Host other) "").
  - intros conf σ r name l. by apply Configuration_IsValid_single.
  - intros conf σ r name p other l. by apply RemoveContext_two.
  - exists valid_example. split; [done|]. vm_compute. discriminate.
Qed.

Lemma IsValid_normalizes_host_witness :
  Host (ClientConfiguration_IsValid valid_example).2 = FormatHost (Host valid_example).
Proof.
  apply (IsValid_normalizes_host map_to_list (fun mp => reflexivity _) valid_example).
  vm_compute. discriminate.
Defined.

(** ** [RemoveContext] on the current context *)

Lemma same_but_hosts_refl s : same_but_hosts s s.
Proof. intros l. destruct (s !! l) as [[]|]; done. Qed.

Lemma same_but_hosts_trans s1 s2 s3 :
  same_but_hosts s1 s2 -> same_but_hosts s2 s3 -> same_but_hosts s1 s3.
Proof.
  intros H12 H23 l. specialize (H12 l). specialize (H23 l).
  destruct (s1 !! l) as [v1|], (s2 !! l) as [v2|], (s3 !! l) as [v3|]; try done.
  rewrite H23, H12. by destruct v1.
Qed.

Lemma IsValid_fields (v : ClientConfiguration) :
  (ClientConfiguration_IsValid v).2 = set_Host (Host (ClientConfiguration_IsValid v).2) v.
Proof.
  unfold ClientConfiguration_IsValid.
  destruct (Strings.len (Host v) =? 0); by destruct v.
Qed.

Lemma same_but_hosts_IsValid s l v :
  s !! l = Some v ->
  same_but_hosts s (<[l := (ClientConfiguration_IsValid v).2]> s).
Proof.
  intros Hl l'. destruct (decide (l = l')) as [<-|Hne].
  - rewrite lookup_insert_eq, Hl. apply IsValid_fields.
  - rewrite lookup_insert_ne by done. apply same_but_hosts_refl.
Qed.

Lemma IsValid_true (v : ClientConfiguration) :
  (ClientConfiguration_IsValid v).1 = true ->
  is_valid (ClientConfiguration_IsValid v).2 /\
  (ClientConfiguration_IsValid (ClientConfiguration_IsValid v).2).1 = true.
Proof.
  destruct (decide (Host v = "")) as [E|E].
  - by rewrite IsValid_empty_host.
  - rewrite IsValid_non_empty_host by done. cbn [fst snd]. intros Hb.
    assert (FormatHost (Host v) <> "") as Hf by (by apply FormatHost_nonempty).
    split.
    + split; [done|]. cbn [set_Host Token Authentication].
      apply orb_prop in Hb as [Hb|Hb].
      * left. apply negb_true_iff, String.eqb_neq in Hb. done.
      * right. by apply bool_decide_eq_true_1 in Hb.
    + by rewrite IsValid_non_empty_host.
Qed.

Lemma RemoveContext_loop_spec name entries σ found σ' :
  RemoveContext_loop name entries σ = Ok (found, σ') ->
  maps σ' = maps σ /\
  same_but_hosts (structs σ) (structs σ') /\
  (forall name', found = Some name' ->
     name' <> name /\
     exists l v, (name', Some l) ∈ entries /\ structs σ' !! l = Some v /\
                 is_valid v /\ (ClientConfiguration_IsValid v).1 = true).
Proof.
  revert σ. induction entries as [|[k p] rest IH]; intros σ H.
  - cbn in H. injection H as <- <-. split; [done|]. split; [apply same_but_hosts_refl|done].
  - cbn [RemoveContext_loop] in H.
    destruct (String.eqb_spec k name) as [->|Hk].
    + apply IH in H as (Hm & Hs & Hf). split; [done|]. split; [done|].
      intros name' E. destruct (Hf name' E) as (Hn & l & v & Hin & Hrest).
      split; [done|]. exists l, v. split; [by apply list_elem_of_further|done].
    + apply bind_inv in H as (valid & σ1 & Hv & H).
      apply on_struct_inv in Hv as (l & v & -> & Hl & -> & ->).
      pose proof (same_but_hosts_IsValid _ _ _ Hl) as Hstep.
      destruct (ClientConfiguration_IsValid v).1 eqn:Hvalid.
      * injection H as <- <-. split; [done|]. split; [done|].
        intros name' [= <-]. split; [done|].
        exists l, (ClientConfiguration_IsValid v).2.
        split; [apply list_elem_of_here|]. split; [apply lookup_insert_eq|].
        by apply IsValid_true.
      * apply IH in H as (Hm & Hs & Hf). split; [done|].
        split; [by eapply same_but_hosts_trans|].
        intros name' E. destruct (Hf name' E) as (Hn & l' & v' & Hin & Hrest).
        split; [done|]. exists l', v'. split; [by apply list_elem_of_further|done].
Qed.

Lemma map_lookup_inv m k o σ σ' :
  map_lookup m k σ = Ok (o, σ') ->
  σ' = σ /\
  match m with
  | Some r => exists mp, maps σ !! r = Some mp /\ o = mp !! k
  | None => o = None
  end.
Proof.
  unfold map_lookup. intros (mp & σ1 & Hr & H)%bind_inv.
  apply map_read_inv in Hr as [-> Hr]. injection H as <- <-. split; [done|].
  destruct m as [r|]; [by exists mp|by subst].
Qed.

Lemma map_range_inv range m entries σ σ' :
  map_range range m σ = Ok (entries, σ') ->
  σ' = σ /\
  match m with
  | Some r => exists mp, maps σ !! r = Some mp /\ entries = range mp
  | None => entries = range ∅
  end.
Proof.
  unfold map_range. intros (mp & σ1 & Hr & H)%bind_inv.
  apply map_read_inv in Hr as [-> Hr]. injection H as <- <-. split; [done|].
  destruct m as [r|]; [by exists mp|by subst].
Qed.

(** One call of [IsValid] sends the host through [FormatHost] once; the
    empty host stays empty. *)
Lemma IsValid_formatted (v : ClientConfiguration) :
  (ClientConfiguration_IsValid v).2 = formatted 1 v.
Proof.
  unfold formatted. cbn [Nat.iter nat_rect].
  destruct (decide (Host v = "")) as [E|E].
  - rewrite IsValid_empty_host by done. rewrite E. by destruct v; cbn in *; subst.
  - by rewrite IsValid_non_empty_host.
Qed.

Lemma formatted_0 v : formatted 0 v = v.
Proof. by destruct v. Qed.

Lemma formatted_S n v : formatted n (formatted 1 v) = formatted (S n) v.
Proof.
  unfold formatted. cbn [Host set_Host Authentication Token Timeout Debug].
  by rewrite <- Nat.iter_succ_r.
Qed.

(** A search that finds no replacement has called [IsValid] on every entry
    under another name: each client configuration went through it once for
    each such name that points to it. *)
Lemma RemoveContext_loop_refused name entries σ σ' :
  RemoveContext_loop name entries σ = Ok (None, σ') ->
  forall l,
    structs σ' !! l
    = formatted (length (filter (fun e : string * ptr => e.1 <> name /\ e.2 = Some l)
                                entries))
        <$> structs σ !! l.
Proof.
  revert σ. induction entries as [|[k p] rest IH]; intros σ H l.
  - cbn in H. injection H as <-. cbn [filter list_filter length].
    destruct (structs σ !! l) as [v|]; [|done]. cbn. by rewrite formatted_0.
  - cbn [RemoveContext_loop] in H. rewrite filter_cons.
    destruct (String.eqb_spec k name) as [->|Hk].
    + rewrite decide_False by (by intros [? _]). by apply IH.
    + apply bind_inv in H as (valid & σ1 & Hv & H).
      apply on_struct_inv in Hv as (l0 & v & -> & Hl & -> & ->).
      destruct (ClientConfiguration_IsValid v).1; [done|].
      rewrite (IH _ H l). cbn [set_structs structs].
      destruct (decide (l0 = l)) as [->|Hne].
      * rewrite decide_True by done. rewrite lookup_insert_eq, Hl. cbn.
        by rewrite IsValid_formatted, formatted_S.
      * rewrite decide_False by (cbn; intros [_ [= ?]]; done).
        by rewrite lookup_insert_ne.
Qed.

Lemma other_names_0 (mp : gmap string ptr) (name : string) (l : loc) :
  (forall k, k <> name -> mp !! k <> Some (Some l)) -> other_names mp name l = 0%nat.
Proof.
  intros Hno. unfold other_names.
  destruct (filter _ (map_to_list mp)) as [|[k p] rest] eqn:E; [done|]. exfalso.
  assert ((k, p) ∈ filter (fun e : string * ptr => e.1 <> name /\ e.2 = Some l)
                          (map_to_list mp)) as Hin
    by (rewrite E; apply list_elem_of_here).
  apply list_elem_of_filter in Hin as [[Hk Hp] Hin]. cbn in Hk, Hp. subst p.
  apply elem_of_map_to_list in Hin. by apply (Hno k).
Qed.

(** C5 (as amended). Removing the current context.  When [RemoveContext]
    returns true the new [CurrentContext] names an entry that is still in the
    map, and that entry is valid.  When it returns false the receiver, so
    [CurrentContext] and the map it refers to, and the contents of every map
    (the names and the cells they point to) are as before.  If the name is
    not in the map nothing at all has changed.  Otherwise every entry under
    another name was tried as the replacement: a client configuration keeps
    its [Token], [Timeout], [Debug] and [Authentication], and its [Host] has
    gone through [FormatHost] once for each other name that points to it;
    so a client configuration that no other name points to is as before. *)
Theorem RemoveContext_current_resolvable
    (range : gmap string ptr -> list (string * ptr))
    (range_perm : forall mp, range mp ≡ₚ map_to_list mp)
    (c : Configuration) (name : string) (σ : Store)
    (b : bool) (c' : Configuration) (σ' : Store) :
  CurrentContext c = name ->
  RemoveContext range c name σ = Ok ((b, c'), σ') ->
  (b = true ->
   exists r mp' l v,
     Contexts c' = Some r /\ maps σ' !! r = Some mp' /\
     mp' !! CurrentContext c' = Some (Some l) /\
     structs σ' !! l = Some v /\
     is_valid v /\ (ClientConfiguration_IsValid v).1 = true) /\
  (b = false ->
   c' = c /\ maps σ' = maps σ /\
   exists mp,
     map_read (Contexts c) σ = Ok (mp, σ) /\
     (mp !! name = None -> σ' = σ) /\
     (forall l, is_Some (mp !! name) ->
        structs σ' !! l = formatted (other_names mp name l) <$> structs σ !! l) /\
     (forall l, (forall k, k <> name -> mp !! k <> Some (Some l)) ->
        structs σ' !! l = structs σ !! l)).
Proof.
  intros Hcur H. unfold RemoveContext in H.
  apply bind_inv in H as (o & σ0 & Hlook & H).
  apply map_lookup_inv in Hlook as [-> Hlook].
  destruct o as [p|].
  2:{ injection H as <- <- <-. split; [done|]. intros _.
      split; [done|]. split; [done|].
      assert (exists mp, map_read (Contexts c) σ = Ok (mp, σ) /\ mp !! name = None)
        as (mp & Hread & Hname).
      { destruct (Contexts c) as [r|].
        - destruct Hlook as (mp & Hr & Hp). exists mp. split; [by apply map_read_Some|done].
        - exists ∅. split; [done|]. apply lookup_empty. }
      exists mp. split; [done|]. split; [done|]. split; [|done].
      intros l [q Hq]. congruence. }
  destruct (Contexts c) as [r|] eqn:Hc; [|done].
  destruct Hlook as (mp & Hr & Hp).
  rewrite Hcur, String.eqb_refl in H.
  rewrite !bind_assoc in H.
  apply bind_inv in H as (entries & σ0 & Hrange & H).
  apply map_range_inv in Hrange as [-> (mp0 & Hr0 & ->)].
  assert (mp0 = mp) as -> by congruence.
  rewrite bind_assoc in H.
  apply bind_inv in H as (found & σ1 & Hloop & H).
  pose proof Hloop as Hrefused.
  apply RemoveContext_loop_spec in Hloop as (Hmaps & Hstructs & Hfound).
  destruct found as [name'|].
  - rewrite bind_ret in H. cbn [SetCurrent set_CurrentContext Contexts] in H.
    rewrite Hc in H.
    assert (maps σ1 !! r = Some mp) as Hr1 by (by rewrite Hmaps).
    rewrite (bind_Ok _ _ _ _ _ (map_delete_Some _ _ name _ Hr1)) in H.
    injection H as <- <- <-. split; [|done]. intros _.
    destruct (Hfound name' eq_refl) as (Hne & l & v & Hin & Hl & Hv & Hv').
    exists r, (delete name mp), l, v. cbn [Contexts CurrentContext set_maps maps structs].
    split; [done|]. split; [apply lookup_insert_eq|].
    split; [|done].
    rewrite lookup_delete_ne by done.
    by apply (elem_of_range range range_perm).
  - rewrite !bind_ret in H. injection H as <- <- <-. split; [done|]. intros _.
    split; [done|]. split; [done|].
    assert (forall l, structs σ1 !! l
                      = formatted (other_names mp name l) <$> structs σ !! l) as Hexact.
    { intros l. rewrite (RemoveContext_loop_refused _ _ _ _ Hrefused l).
      unfold other_names. by rewrite (range_perm mp). }
    exists mp. split; [by apply map_read_Some|].
    split; [by rewrite <- Hp|]. split; [by intros l _|].
    intros l Hno. rewrite Hexact, (other_names_0 mp name l Hno).
    destruct (structs σ !! l) as [v|]; [|done]. cbn. by rewrite formatted_0.
Qed.

(** With no nil pointer among the entries, [RemoveContext] returns. *)
Lemma allocated_insert σ l v p :
  allocated σ p -> allocated (set_structs <[l := v]> σ) p.
Proof.
  intros (l' & -> & Hl'). exists l'. split; [done|]. cbn [set_structs structs].
  destruct (decide (l = l')) as [->|Hne].
  - rewrite lookup_insert_eq. eauto.
  - by rewrite lookup_insert_ne.
Qed.

Lemma RemoveContext_loop_returns name entries σ :
  Forall (fun e => allocated σ e.2) entries ->
  exists res, RemoveContext_loop name entries σ = Ok res.
Proof.
  revert σ. induction entries as [|[k p] rest IH]; intros σ Hall.
  - by eexists.
  - apply Forall_cons in Hall as [Hp Hrest]. cbn [RemoveContext_loop].
    destruct (String.eqb k name); [by apply IH|].
    destruct Hp as (l & Hp & [v Hv]). cbn in Hp. subst p.
    rewrite (bind_Ok _ _ _ _ _ (on_struct_Some _ _ _ _ Hv)).
    destruct (ClientConfiguration_IsValid v).1; [by eexists|].
    apply IH. eapply Forall_impl; [exact Hrest|].
    intros e He. by apply allocated_insert.
Qed.

Lemma RemoveContext_returns
    (range : gmap string ptr -> list (string * ptr))
    (range_perm : forall mp, range mp ≡ₚ map_to_list mp)
    (c : Configuration) (name : string) (σ : Store) :
  (forall r, Contexts c = Some r ->
     exists mp, maps σ !! r = Some mp /\
                forall k p, mp !! k = Some p -> allocated σ p) ->
  exists res, RemoveContext range c name σ = Ok res.
Proof.
  intros Hwf. unfold RemoveContext. destruct (Contexts c) as [r|] eqn:Hc.
  2:{ rewrite (bind_Ok _ _ _ _ _ (map_lookup_nil _ _)). by eexists. }
  destruct (Hwf r eq_refl) as (mp & Hr & Hall).
  rewrite (bind_Ok _ _ _ _ _ (map_lookup_Some _ _ name _ Hr)).
  destruct (mp !! name) as [p|]; [|by eexists].
  destruct (String.eqb (CurrentContext c) name).
  - rewrite bind_assoc, (bind_Ok _ _ _ _ _ (map_range_Some range _ _ _ Hr)).
    destruct (RemoveContext_loop_returns name (range mp) σ) as [[found σ1] Hloop].
    { apply Forall_forall. intros [k q] Hin.
      apply (elem_of_range range range_perm) in Hin. by apply (Hall k). }
    rewrite bind_assoc, (bind_Ok _ _ _ _ _ Hloop).
    apply RemoveContext_loop_spec in Hloop as (Hmaps & _ & _).
    destruct found as [name'|].
    + rewrite bind_ret. cbn [SetCurrent set_CurrentContext Contexts]. rewrite Hc.
      erewrite bind_Ok by (apply map_delete_Some; by rewrite Hmaps). by eexists.
    + rewrite !bind_ret. by eexists.
  - rewrite bind_ret, Hc.
    erewrite bind_Ok by (by apply map_delete_Some). by eexists.
Qed.

Lemma RemoveContext_current_resolvable_witness :
  (exists r mp' l v,
     Contexts {| CurrentContext := "prod"; Contexts := Some 1%positive |} = Some r /\
     maps two_contexts_after !! r = Some mp' /\
     mp' !! CurrentContext {| CurrentContext := "prod"; Contexts := Some 1%positive |}
       = Some (Some l) /\
     structs two_contexts_after !! l = Some v /\
     is_valid v /\ (ClientConfiguration_IsValid v).1 = true) /\
  (maps no_fallback_after = maps no_fallback /\
   exists mp,
     map_read (Some 1%positive) no_fallback = Ok (mp, no_fallback) /\
     (mp !! "dev" = None -> no_fallback_after = no_fallback) /\
     (forall l, is_Some (mp !! "dev") ->
        structs no_fallback_after !! l
        = formatted (other_names mp "dev" l) <$> structs no_fallback !! l) /\
     (forall l, (forall k, k <> "dev" -> mp !! k <> Some (Some l)) ->
        structs no_fallback_after !! l = structs no_fallback !! l)).
Proof.
  assert (RemoveContext map_to_list {| CurrentContext := "dev"; Contexts := Some 1%positive |}
            "dev" two_contexts
          = Ok ((true, {| CurrentContext := "prod"; Contexts := Some 1%positive |}),
                two_contexts_after)) as Htrue by (vm_compute; reflexivity).
  assert (RemoveContext map_to_list {| CurrentContext := "dev"; Contexts := Some 1%positive |}
            "dev" no_fallback
          = Ok ((false, {| CurrentContext := "dev"; Contexts := Some 1%positive |}),
                no_fallback_after)) as Hfalse by (vm_compute; reflexivity).
  split.
  - exact (proj1 (RemoveContext_current_resolvable map_to_list (fun mp => reflexivity _)
                    {| CurrentContext := "dev"; Contexts := Some 1%positive |} "dev"
                    two_contexts true
                    {| CurrentContext := "prod"; Contexts := Some 1%positive |}
                    two_contexts_after eq_refl Htrue) eq_refl).
  - exact (proj2 (proj2 (RemoveContext_current_resolvable map_to_list
                           (fun mp => reflexivity _)
                           {| CurrentContext := "dev"; Contexts := Some 1%positive |} "dev"
                           no_fallback false
                           {| CurrentContext := "dev"; Contexts := Some 1%positive |}
                           no_fallback_after eq_refl Hfalse) eq_refl)).
Defined.

(** C5, counterexample: "dev" is current and the only other context, "prod",
    has the host "example.com" and no credentials.  Removing "dev" is
    refused, and the host of "prod" has become "http://example.com:80". *)
Lemma RemoveContext_refused_rewrites_host :
  RemoveContext map_to_list {| CurrentContext := "dev"; Contexts := Some 1%positive |} "dev"
    no_fallback
  = Ok ((false, {| CurrentContext := "dev"; Contexts := Some 1%positive |}),
        no_fallback_after) /\
  structs no_fallback !! 2%positive = Some Fill_example_other /\
  structs no_fallback_after !! 2%positive
    = Some (set_Host "http://example.com:80" Fill_example_other) /\
  structs no_fallback_after !! 2%positive <> structs no_fallback !! 2%positive.
Proof. repeat split; vm_compute; discriminate. Qed.

(** ** [Clone] *)

Lemma load_inv p v σ σ' :
  load p σ = Ok (v, σ') -> σ' = σ /\ exists l, p = Some l /\ structs σ !! l = Some v.
Proof.
  unfold load. destruct p as [l|]; [|done].
  destruct (structs σ !! l) as [x|] eqn:E; [|done]. intros [= <- <-]. eauto.
Qed.

Lemma map_assign_inv m k p σ σ' :
  map_assign m k p σ = Ok (tt, σ') ->
  exists r mp, m = Some r /\ maps σ !! r = Some mp /\
               σ' = set_maps <[r := <[k := p]> mp]> σ.
Proof.
  unfold map_assign. destruct m as [r|]; [|done].
  destruct (maps σ !! r) as [mp|] eqn:E; [|done]. intros [= <-]. eauto.
Qed.

Lemma Clone_loop_spec m entries σ σ' mp0 :
  maps σ !! m = Some mp0 ->
  Clone_loop (Some m) entries σ = Ok (tt, σ') ->
  structs σ ⊆ structs σ' /\
  (forall r, r <> m -> maps σ' !! r = maps σ !! r) /\
  exists mp',
    maps σ' !! m = Some mp' /\
    (forall k, k ∉ (entries.*1) -> mp' !! k = mp0 !! k) /\
    (forall k, k ∈ (entries.*1) ->
       exists l' p l v,
         mp' !! k = Some (Some l') /\ (l' ∉ dom (structs σ)) /\
         (k, p) ∈ entries /\ p = Some l /\
         structs σ' !! l = Some v /\ structs σ' !! l' = Some v).
Proof.
  revert σ mp0. induction entries as [|[k p] rest IH]; intros σ mp0 Hm H.
  - injection H as <-. split; [done|]. split; [done|].
    exists mp0. split; [done|]. split; [done|]. intros k Hk. by apply elem_of_nil in Hk.
  - cbn [Clone_loop] in H.
    apply bind_inv in H as (x & σ0 & Hload & H).
    apply load_inv in Hload as [-> (l & -> & Hl)].
    unfold bind at 1 in H. unfold alloc in H.
    set (l1 := fresh (dom (structs σ))) in *.
    assert (l1 ∉ dom (structs σ)) as Hfresh by apply is_fresh.
    set (σ1 := set_structs <[l1 := x]> σ) in *.
    assert (maps σ1 !! m = Some mp0) as Hm1 by done.
    rewrite (bind_Ok _ _ _ _ _ (map_assign_Some _ _ k (Some l1) _ Hm1)) in H.
    set (σ2 := set_maps <[m := <[k := Some l1]> mp0]> σ1) in *.
    assert (maps σ2 !! m = Some (<[k := Some l1]> mp0)) as Hm2 by apply lookup_insert_eq.
    destruct (IH σ2 _ Hm2 H) as (Hsub & Hother & mp' & Hmp' & Hout & Hin).
    assert (structs σ ⊆ structs σ2) as Hsub2.
    { apply insert_subseteq. by apply not_elem_of_dom. }
    assert (structs σ ⊆ structs σ') as Hsub' by (by etrans).
    split; [done|]. split.
    { intros r Hr. rewrite Hother by done. cbn [σ2 set_maps maps].
      by rewrite lookup_insert_ne. }
    exists mp'. split; [done|]. split.
    { intros k' Hk'. rewrite fmap_cons, not_elem_of_cons in Hk'. destruct Hk' as [Hne Hk'].
      rewrite Hout by done. by rewrite lookup_insert_ne. }
    intros k' Hk'. destruct (decide (k' ∈ rest.*1)) as [Hrest|Hrest].
    + destruct (Hin k' Hrest) as (l' & p & l0 & v & Hk1 & Hl' & Hmem & -> & Hv & Hv').
      exists l', (Some l0), l0, v. split; [done|]. split.
      { intros Hd. apply Hl'. cbn [σ2 σ1 set_maps set_structs structs].
        rewrite dom_insert_L. by apply elem_of_union_r. }
      split; [by apply list_elem_of_further|]. done.
    + rewrite fmap_cons, elem_of_cons in Hk'. destruct Hk' as [->|]; [|done].
      exists l1, (Some l), l, x. rewrite Hout by done. rewrite lookup_insert_eq.
      split; [done|]. split; [done|]. split; [apply list_elem_of_here|].
      split; [done|]. split.
      * by eapply lookup_weaken.
      * eapply lookup_weaken; [|exact Hsub]. apply lookup_insert_eq.
Qed.

Lemma store_inv p w σ σ' :
  store p w σ = Ok (tt, σ') ->
  exists l, p = Some l /\ is_Some (structs σ !! l) /\ σ' = set_structs <[l := w]> σ.
Proof.
  unfold store. destruct p as [l|]; [|done].
  destruct (structs σ !! l) as [x|] eqn:E; [|done]. intros [= <-]. eauto.
Qed.

(** C8. [Clone] gives a deep copy.  The clone has the same current context
    and a new map with the same names; each name points to a new cell that
    holds a copy of the original's configuration.  [Clone] itself leaves
    every cell and every map of the original as it was, and so does any
    later write [*p = w] through an entry [p] of the clone. *)
Theorem Clone_deep_copy
    (range : gmap string ptr -> list (string * ptr))
    (range_perm : forall mp, range mp ≡ₚ map_to_list mp)
    (c : Configuration) (σ : Store) (clone : Configuration) (σ' : Store) :
  no_dangling σ c ->
  Clone range c σ = Ok (clone, σ') ->
  CurrentContext clone = CurrentContext c /\
  structs σ ⊆ structs σ' /\
  maps σ ⊆ maps σ' /\
  exists m' mp mp',
    Contexts clone = Some m' /\ (m' ∉ dom (maps σ)) /\
    map_read (Contexts c) σ = Ok (mp, σ) /\
    maps σ' !! m' = Some mp' /\
    dom mp' = dom mp /\
    forall k p, mp !! k = Some p ->
      exists l l' v,
        p = Some l /\ mp' !! k = Some (Some l') /\
        structs σ !! l = Some v /\ structs σ' !! l' = Some v /\
        (l' ∉ dom (structs σ)) /\
        forall w σ'', store (Some l') w σ' = Ok (tt, σ'') ->
          structs σ ⊆ structs σ'' /\ maps σ ⊆ maps σ''.
Proof.
  intros Hwf H. unfold Clone in H.
  unfold bind at 1 in H. unfold make in H.
  set (m' := fresh (dom (maps σ))) in *.
  assert (m' ∉ dom (maps σ)) as Hfresh by apply is_fresh.
  set (σ1 := set_maps <[m' := ∅]> σ) in *.
  apply bind_inv in H as (entries & σ0 & Hrange & H).
  apply map_range_inv in Hrange as [-> Hrange].
  apply bind_inv in H as ([] & σ2 & Hloop & H). injection H as <- <-.
  assert (maps σ1 !! m' = Some ∅) as Hm' by apply lookup_insert_eq.
  cbn [Contexts] in Hloop.
  destruct (Clone_loop_spec _ _ _ _ _ Hm' Hloop) as (Hsub & Hother & mp' & Hmp' & Hout & Hin).
  assert (maps σ ⊆ maps σ2) as Hmaps.
  { apply map_subseteq_spec. intros r x Hr.
    assert (r <> m') as Hne by (intros ->; apply Hfresh, elem_of_dom; eauto).
    rewrite (Hother r Hne). cbn [σ1 set_maps maps]. by rewrite lookup_insert_ne. }
  assert (exists mp, map_read (Contexts c) σ = Ok (mp, σ) /\ entries = range mp /\
                     forall k l, mp !! k = Some (Some l) -> is_Some (structs σ !! l))
    as (mp & Hread & -> & Halloc).
  { destruct (Contexts c) as [r|] eqn:Hc.
    - destruct (Hwf r Hc) as (mp & Hr & Halloc).
      destruct Hrange as (mp1 & Hr1 & ->).
      assert (r <> m') as Hne by (intros ->; apply Hfresh, elem_of_dom; eauto).
      cbn [σ1 set_maps maps] in Hr1. rewrite lookup_insert_ne in Hr1 by done.
      assert (mp1 = mp) as -> by congruence.
      exists mp. split; [by apply map_read_Some|done].
    - exists ∅. split; [done|]. split; [done|]. intros k l Hk.
      by rewrite lookup_empty in Hk. }
  assert (forall k, k ∈ (range mp).*1 <-> is_Some (mp !! k)) as Hkeys.
  { intros k. rewrite list_elem_of_fmap. split.
    - intros ([k' p] & -> & Hp). apply (elem_of_range range range_perm) in Hp. eauto.
    - intros [p Hp]. exists (k, p). split; [done|]. by apply (elem_of_range range range_perm). }
  split; [done|]. split; [done|]. split; [done|].
  exists m', mp, mp'. split; [done|]. split; [done|]. split; [done|]. split; [done|].
  split.
  { apply set_eq. intros k. rewrite !elem_of_dom, <- Hkeys.
    destruct (decide (k ∈ (range mp).*1)) as [Hk|Hk].
    - destruct (Hin k Hk) as (l' & p & l & v & Hk' & _). rewrite Hk'. split; eauto.
    - rewrite (Hout k Hk), lookup_empty. split; [by intros []|done]. }
  intros k p Hp.
  assert (k ∈ (range mp).*1) as Hk by (apply Hkeys; eauto).
  destruct (Hin k Hk) as (l' & p0 & l & v & Hk' & Hl' & Hmem & -> & Hv & Hv').
  apply (elem_of_range range range_perm) in Hmem.
  assert (p = Some l) as -> by congruence.
  destruct (Halloc k l Hp) as [v0 Hv0].
  assert (v0 = v) as ->.
  { pose proof (lookup_weaken _ _ _ _ Hv0 Hsub) as E. congruence. }
  exists l, l', v. repeat (split; [done|]).
  intros w σ'' Hstore.
  apply store_inv in Hstore as (? & [= <-] & _ & ->).
  cbn [set_structs structs maps]. split; [|done].
  apply map_subseteq_spec. intros l0 x Hx.
  assert (l0 <> l') as Hne by (intros ->; apply Hl', elem_of_dom; eauto).
  rewrite lookup_insert_ne by done. by eapply lookup_weaken.
Qed.

(** With no nil pointer among the entries, [Clone] returns. *)
Lemma Clone_loop_returns m entries σ mp0 :
  maps σ !! m = Some mp0 ->
  Forall (fun e => allocated σ e.2) entries ->
  exists σ', Clone_loop (Some m) entries σ = Ok (tt, σ').
Proof.
  revert σ mp0. induction entries as [|[k p] rest IH]; intros σ mp0 Hm Hall.
  - by eexists.
  - apply Forall_cons in Hall as [(l & Hp & [v Hv]) Hrest]. cbn in Hp. subst p.
    cbn [Clone_loop]. unfold bind at 1, load. rewrite Hv.
    unfold bind at 1, alloc.
    erewrite bind_Ok by (by apply map_assign_Some).
    eapply IH; [apply lookup_insert_eq|].
    eapply Forall_impl; [exact Hrest|].
    intros e He. by apply (allocated_insert σ).
Qed.

Lemma Clone_returns
    (range : gmap string ptr -> list (string * ptr))
    (range_perm : forall mp, range mp ≡ₚ map_to_list mp)
    (c : Configuration) (σ : Store) :
  (forall r, Contexts c = Some r ->
     exists mp, maps σ !! r = Some mp /\
                forall k p, mp !! k = Some p -> allocated σ p) ->
  exists res, Clone range c σ = Ok res.
Proof.
  intros Hwf. unfold Clone. unfold bind at 1, make.
  set (m' := fresh (dom (maps σ))).
  assert (m' ∉ dom (maps σ)) as Hfresh by apply is_fresh.
  set (σ1 := set_maps <[m' := ∅]> σ).
  assert (maps σ1 !! m' = Some ∅) as Hm' by apply lookup_insert_eq.
  cbn [Contexts].
  assert (exists mp, map_range range (Contexts c) σ1 = Ok (range mp, σ1) /\
                     forall k p, mp !! k = Some p -> allocated σ1 p) as (mp & Hrange & Hall).
  { destruct (Contexts c) as [r|] eqn:Hc.
    - destruct (Hwf r eq_refl) as (mp & Hr & Hall). exists mp. split; [|done].
      apply map_range_Some. cbn [σ1 set_maps maps].
      rewrite lookup_insert_ne; [done|]. intros <-. apply Hfresh, elem_of_dom; eauto.
    - exists ∅. split; [done|]. intros k p Hk. by rewrite lookup_empty in Hk. }
  rewrite (bind_Ok _ _ _ _ _ Hrange).
  destruct (Clone_loop_returns m' (range mp) σ1 ∅ Hm') as [σ2 Hloop].
  { apply Forall_forall. intros [k q] Hin.
    apply (elem_of_range range range_perm) in Hin. by apply (Hall k). }
  rewrite (bind_Ok _ _ _ _ _ Hloop). by eexists.
Qed.

Lemma no_dangling_two_contexts :
  no_dangling two_contexts {| CurrentContext := "dev"; Contexts := Some 1%positive |}.
Proof.
  intros r [= <-]. eexists. split; [reflexivity|]. intros k l Hk.
  apply lookup_insert_Some in Hk as [[_ [= <-]]|[_ Hk]]; [by eexists|].
  apply lookup_singleton_Some in Hk as [_ [= <-]]. by eexists.
Qed.

Lemma Clone_deep_copy_witness :
  Clone map_to_list {| CurrentContext := "dev"; Contexts := Some 1%positive |} two_contexts
  = Ok ({| CurrentContext := "dev"; Contexts := Some 2%positive |}, two_contexts_cloned) /\
  structs two_contexts ⊆ structs two_contexts_cloned /\
  maps two_contexts ⊆ maps two_contexts_cloned.
Proof.
  assert (Clone map_to_list {| CurrentContext := "dev"; Contexts := Some 1%positive |}
            two_contexts
          = Ok ({| CurrentContext := "dev"; Contexts := Some 2%positive |},
                two_contexts_cloned)) as H by (vm_compute; reflexivity).
  split; [exact H|].
  pose proof (Clone_deep_copy map_to_list (fun mp => reflexivity _)
                {| CurrentContext := "dev"; Contexts := Some 1%positive |} two_contexts
                {| CurrentContext := "dev"; Contexts := Some 2%positive |}
                two_contexts_cloned no_dangling_two_contexts H) as (_ & H2 & H3 & _).
  exact (conj H2 H3).
Defined.

(** * Further properties of the code *)

(** ** [FormatHost] *)

Lemma HasSuffix_slash_false h :
  Strings.HasSuffix h "/" = false ->
  Strings.at_index h (Strings.len h - 1) <> Some "/"%char.
Proof.
  intros Hs. destruct (decide (h = "")) as [->|Hne]; [done|].
  destruct (string_snoc h Hne) as (a & c & ->).
  rewrite at_index_last. intros [= ->]. by rewrite HasSuffix_app in Hs.
Qed.

Lemma Index_needs_colon s :
  0 <= Strings.Index s "://" -> 0 <= Strings.LastIndexByte s ":"%char.
Proof.
  induction s as [|x s IH]; [done|].
  cbn [Strings.Index Strings.LastIndexByte].
  pose proof (LastIndexByte_range s ":"%char).
  destruct (Strings.HasPrefix (String x s) "://") eqn:E.
  - intros _. cbn [Strings.HasPrefix] in E. apply andb_prop in E as [E _].
    rewrite E. destruct (0 <=? Strings.LastIndexByte s ":"); lia.
  - destruct (Z.leb_spec 0 (Strings.Index s "://")) as [H0|H0]; [|lia].
    intros _. specialize (IH H0).
    destruct (Z.leb_spec 0 (Strings.LastIndexByte s ":")); lia.
Qed.

(** X1. For every host that is not empty, the result of [FormatHost] has a
    scheme separator and a colon after it that marks a port. *)
Theorem FormatHost_has_scheme_and_port (h : string) :
  h <> "" ->
  0 <= Strings.Index (FormatHost h) "://" /\
  Strings.Index (FormatHost h) "://" + 1 < Strings.LastIndexByte (FormatHost h) ":"%char.
Proof.
  intros Hne. rewrite FormatHost_unfold.
  destruct (Z.eqb_spec (Strings.len h) 0) as [H0|_]; [by apply len_0 in H0|].
  apply format_stripped_scheme_port.
Qed.

Lemma FormatHost_has_scheme_and_port_witness :
  0 <= Strings.Index (FormatHost "example.com//") "://" /\
  Strings.Index (FormatHost "example.com//") "://" + 1
    < Strings.LastIndexByte (FormatHost "example.com//") ":"%char.
Proof. apply (FormatHost_has_scheme_and_port "example.com//"). discriminate. Defined.

(** X2. The hosts that [FormatHost] leaves as they are: the empty host and
    the hosts in normal form (not ending in a slash, with a scheme
    separator and a port marker after it), and no other. *)
Theorem FormatHost_fixed_points (h : string) :
  FormatHost h = h <-> h = "" \/ normalized h.
Proof.
  split.
  - intros Hfix. destruct (decide (h = "")) as [->|Hne]; [by left|]. right.
    rewrite FormatHost_unfold in Hfix.
    destruct (Z.eqb_spec (Strings.len h) 0) as [H0|Hlen]; [by apply len_0 in H0|].
    pose proof (len_nonneg h).
    assert (strip_slash h = h) as Hstrip.
    { destruct (strip_slash_len h) as [E|E]; [done|]. exfalso.
      destruct (format_stripped_grows (strip_slash h)) as [(_ & _ & E')|E'].
      - rewrite E' in Hfix. rewrite Hfix in E. lia.
      - rewrite Hfix in E'. lia. }
    rewrite Hstrip in Hfix.
    destruct (format_stripped_grows h) as [(Hs & Hp & _)|E]; [|rewrite Hfix in E; lia].
    split; [lia|]. split; [|done].
    intros Hlast. revert Hstrip. unfold strip_slash.
    rewrite bool_decide_eq_true_2 by done.
    destruct (string_snoc h Hne) as (a & c & ->). rewrite slice_init.
    intros E. apply (f_equal Strings.len) in E. rewrite len_app in E.
    change (Strings.len (String c "")) with 1 in E. lia.
  - intros [->|Hn]; [done|]. by apply FormatHost_normalized_id.
Qed.

(** X3. One trailing slash makes no difference: for every host that is not
    empty and does not end in a slash, [FormatHost] gives the same result
    with a slash appended. *)
Theorem FormatHost_trailing_slash (h : string) :
  h <> "" ->
  Strings.HasSuffix h "/" = false ->
  FormatHost (h +:+ "/") = FormatHost h.
Proof.
  intros Hne Hs. apply HasSuffix_slash_false in Hs.
  rewrite !FormatHost_unfold.
  destruct (Z.eqb_spec (Strings.len h) 0) as [H0|_]; [by apply len_0 in H0|].
  destruct (Z.eqb_spec (Strings.len (h +:+ "/")) 0) as [H0|_].
  { rewrite len_app in H0. pose proof (len_nonneg h).
    change (Strings.len "/") with 1 in H0. lia. }
  rewrite (strip_slash_id h Hs). f_equal.
  unfold strip_slash. rewrite at_index_last.
  rewrite bool_decide_eq_true_2 by done. apply slice_init.
Qed.

Lemma FormatHost_trailing_slash_witness :
  FormatHost ("example.com:443" +:+ "/") = FormatHost "example.com:443".
Proof. apply (FormatHost_trailing_slash "example.com:443"); [discriminate|reflexivity]. Defined.

(** X4. The default ports.  A host without any colon and without a trailing
    slash becomes "http://host:80"; behind "http://" it gets ":80" and behind
    "https://" it gets ":443". *)
Theorem FormatHost_default_ports (h : string) :
  h <> "" ->
  Strings.LastIndexByte h ":"%char = -1 ->
  Strings.HasSuffix h "/" = false ->
  FormatHost h = "http://" +:+ h +:+ ":80" /\
  FormatHost ("http://" +:+ h) = "http://" +:+ h +:+ ":80" /\
  FormatHost ("https://" +:+ h) = "https://" +:+ h +:+ ":443".
Proof.
  intros Hne Hcolon Hs. apply HasSuffix_slash_false in Hs.
  assert (Strings.Index h "://" < 0) as Hidx.
  { destruct (Z.ltb_spec (Strings.Index h "://") 0) as [|H0]; [done|].
    apply Index_needs_colon in H0. lia. }
  assert (forall p, p <> "" -> FormatHost (p +:+ h) = format_stripped (p +:+ h)) as Hpre.
  { intros p Hp. rewrite FormatHost_unfold.
    destruct (Z.eqb_spec (Strings.len (p +:+ h)) 0) as [H0|_].
    - apply len_0 in H0. by destruct p.
    - rewrite strip_slash_id; [done|]. by rewrite at_index_last_app. }
  split; [|split].
  - rewrite FormatHost_unfold.
    destruct (Z.eqb_spec (Strings.len h) 0) as [H0|_]; [by apply len_0 in H0|].
    rewrite (strip_slash_id h Hs). unfold format_stripped. rewrite Hcolon.
    pose proof (Index_range h "://") as [HI _].
    destruct (Z.leb_spec 0 (Strings.Index h "://")); [lia|].
    destruct (Z.ltb_spec (Strings.Index h "://" + 1) (-1)); [lia|]. reflexivity.
  - rewrite Hpre by done. unfold format_stripped.
    rewrite Index_http, LastIndexByte_app, Hcolon. reflexivity.
  - rewrite Hpre by done. unfold format_stripped.
    rewrite Index_https, LastIndexByte_app, Hcolon. reflexivity.
Qed.

Lemma FormatHost_default_ports_witness :
  FormatHost "example.com" = "http://" +:+ "example.com" +:+ ":80" /\
  FormatHost ("http://" +:+ "example.com") = "http://" +:+ "example.com" +:+ ":80" /\
  FormatHost ("https://" +:+ "example.com") = "https://" +:+ "example.com" +:+ ":443".
Proof.
  apply (FormatHost_default_ports "example.com"); [discriminate|reflexivity|reflexivity].
Defined.

(** ** [ClientConfiguration.IsValid] and [Fill] *)

Lemma eqb_empty_false s : s <> "" -> String.eqb s "" = false.
Proof. intros H. by apply String.eqb_neq. Qed.

Lemma credentials_bool (c : ClientConfiguration) :
  negb (String.eqb (Token c) "") || bool_decide (Authentication c <> None) = true <->
  Token c <> "" \/ Authentication c <> None.
Proof.
  rewrite orb_true_iff, negb_true_iff, String.eqb_neq, bool_decide_eq_true. done.
Qed.

(** X5. The verdict of [IsValid] only depends on the fields as they are
    before the call: it is true exactly when [Host] is not empty and there
    is a token or an authentication.  The rewriting of the host never
    changes it. *)
Theorem IsValid_verdict (c : ClientConfiguration) :
  (ClientConfiguration_IsValid c).1 = true <->
  Host c <> "" /\ (Token c <> "" \/ Authentication c <> None).
Proof.
  destruct (decide (Host c = "")) as [E|E].
  - rewrite IsValid_empty_host by done. cbn. split; [done|]. by intros [? _].
  - rewrite IsValid_non_empty_host by done. cbn [fst].
    rewrite credentials_bool. tauto.
Qed.

(** The fields of the receiver once [Fill] has merged [other], before the
    final call of [IsValid]. *)
Lemma Fill_unfold (c other : ClientConfiguration) :
  Fill c other =
  ClientConfiguration_IsValid
    {| Host := merged_host c other;
       Authentication := match Authentication other with
                         | Some a => Some a
                         | None => Authentication c
                         end;
       Token := if String.eqb (Token other) "" then Token c else Token other;
       Timeout := if String.eqb (Timeout other) "" then Timeout c else Timeout other;
       Debug := Debug other |}.
Proof.
  unfold Fill, merged_host. f_equal.
  destruct c as [h a t tm d], other as [h' a' t' tm' d'].
  unfold set_Host, set_Authentication, set_Token, set_Timeout, set_Debug.
  cbn [Host Authentication Token Timeout Debug].
  assert (forall b : bool, (if b then tm else tm) = tm) as Hif by (by intros []).
  destruct (String.eqb_spec h' ""), (String.eqb_spec h' h);
    cbn [negb andb Host Authentication Token Timeout Debug];
    (destruct a' as [a'|];
     [rewrite bool_decide_eq_true_2 by done|rewrite bool_decide_eq_false_2 by (by intros H; apply H)]);
    cbn [negb andb Host Authentication Token Timeout Debug];
    destruct (String.eqb_spec t' ""), (String.eqb_spec t' t);
    cbn [negb andb Host Authentication Token Timeout Debug];
    destruct (String.eqb_spec tm' ""), (String.eqb_spec tm' tm);
    cbn [negb andb Host Authentication Token Timeout Debug];
    destruct d, d';
    cbn [negb andb Host Authentication Token Timeout Debug Bool.eqb];
    congruence.
Qed.

(** X6. What [Fill] leaves in the other fields: a token, a timeout and an
    authentication of [other] replace the receiver's when they are not
    empty (not nil) and are kept otherwise, so [Fill] never clears one;
    [Debug] always becomes [other.Debug]. *)
Theorem Fill_fields (c other : ClientConfiguration) :
  Token (Fill c other).2 = (if String.eqb (Token other) "" then Token c else Token other) /\
  Timeout (Fill c other).2
    = (if String.eqb (Timeout other) "" then Timeout c else Timeout other) /\
  Authentication (Fill c other).2
    = match Authentication other with
      | Some a => Some a
      | None => Authentication c
      end /\
  Debug (Fill c other).2 = Debug other.
Proof.
  rewrite Fill_unfold. rewrite IsValid_fields. done.
Qed.

(** X7. [Fill] returns true exactly when one of the two hosts is not empty
    and one of the two configurations has a token or an authentication. *)
Theorem Fill_verdict (c other : ClientConfiguration) :
  (Fill c other).1 = true <->
  (Host other <> "" \/ Host c <> "") /\
  (Token other <> "" \/ Token c <> "" \/
   Authentication other <> None \/ Authentication c <> None).
Proof.
  rewrite Fill_unfold.
  match goal with |- (ClientConfiguration_IsValid ?x).1 = true <-> _ =>
    destruct (decide (Host x = "")) as [E|E];
    [rewrite (IsValid_empty_host x E)|rewrite (IsValid_non_empty_host x E)]
  end; cbn [fst Host Token Authentication merged_host] in *; unfold merged_host in E.
  - split; [done|]. intros [[H|H] _];
      destruct (String.eqb_spec (Host other) ""); congruence.
  - rewrite orb_true_iff, negb_true_iff, String.eqb_neq, bool_decide_eq_true.
    destruct (String.eqb_spec (Host other) ""), (String.eqb_spec (Token other) ""),
             (Authentication other) as [a|]; split; intros H;
      try (split; [tauto|]); try tauto; try (intuition congruence).
Qed.

(** X8. Filling twice with the same argument is the same as filling once,
    whenever the argument brings a host. *)
Theorem Fill_twice (c other : ClientConfiguration) :
  Host other <> "" ->
  Fill (Fill c other).2 other = Fill c other.
Proof.
  intros Hne.
  assert (merged_host c other = Host other) as Hm
    by (unfold merged_host; by rewrite eqb_empty_false).
  assert (forall x, merged_host x other = Host other) as Hm'
    by (intros x; unfold merged_host; by rewrite eqb_empty_false).
  rewrite (Fill_unfold (Fill c other).2 other), Hm'.
  assert (Token (Fill c other).2
          = if String.eqb (Token other) "" then Token c else Token other) as Ht
    by (by rewrite Fill_unfold, IsValid_fields).
  assert (Timeout (Fill c other).2
          = if String.eqb (Timeout other) "" then Timeout c else Timeout other) as Htm
    by (by rewrite Fill_unfold, IsValid_fields).
  assert (Authentication (Fill c other).2
          = match Authentication other with
            | Some a => Some a
            | None => Authentication c
            end) as Ha
    by (by rewrite Fill_unfold, IsValid_fields).
  rewrite Ht, Htm, Ha.
  rewrite (Fill_unfold c other), Hm. f_equal. f_equal.
  - by destruct (Authentication other).
  - by destruct (String.eqb (Token other) "").
  - by destruct (String.eqb (Timeout other) "").
Qed.

Lemma Fill_twice_witness :
  Fill (Fill zero_ClientConfiguration valid_example).2 valid_example
  = Fill zero_ClientConfiguration valid_example.
Proof. apply (Fill_twice zero_ClientConfiguration valid_example). discriminate. Defined.

(** ** [Configuration.IsValid] *)

Lemma same_validity_refl s : same_validity s s.
Proof. intros l. by destruct (s !! l). Qed.

Lemma same_validity_trans s1 s2 s3 :
  same_validity s1 s2 -> same_validity s2 s3 -> same_validity s1 s3.
Proof.
  intros H12 H23 l. specialize (H12 l). specialize (H23 l).
  destruct (s1 !! l), (s2 !! l), (s3 !! l); try done. by etrans.
Qed.

Lemma IsValid_true_iff (v : ClientConfiguration) :
  (ClientConfiguration_IsValid v).1 = true <-> is_valid v.
Proof.
  unfold is_valid. destruct (decide (Host v = "")) as [E|E].
  - rewrite IsValid_empty_host by done. cbn. split; [done|]. by intros [? _].
  - rewrite IsValid_non_empty_host by done. cbn [fst].
    rewrite credentials_bool. tauto.
Qed.

Lemma IsValid_keeps_validity (v : ClientConfiguration) :
  is_valid v <-> is_valid (ClientConfiguration_IsValid v).2.
Proof.
  unfold is_valid. destruct (decide (Host v = "")) as [E|E].
  - by rewrite IsValid_empty_host.
  - rewrite IsValid_non_empty_host by done. cbn [snd set_Host Host Token Authentication].
    pose proof (FormatHost_nonempty _ E). tauto.
Qed.

Lemma same_validity_IsValid s l v :
  s !! l = Some v ->
  same_validity s (<[l := (ClientConfiguration_IsValid v).2]> s).
Proof.
  intros Hl l'. destruct (decide (l = l')) as [<-|Hne].
  - rewrite lookup_insert_eq, Hl. apply IsValid_keeps_validity.
  - rewrite lookup_insert_ne by done. apply same_validity_refl.
Qed.

Lemma IsValid_loop_spec entries σ b σ' :
  IsValid_loop entries σ = Ok (b, σ') ->
  maps σ' = maps σ /\
  same_but_hosts (structs σ) (structs σ') /\
  same_validity (structs σ) (structs σ') /\
  (b = true ->
   forall k p, (k, p) ∈ entries ->
     exists l v, p = Some l /\ structs σ' !! l = Some v /\ is_valid v) /\
  (b = false ->
   exists k l v, (k, Some l) ∈ entries /\ structs σ' !! l = Some v /\ ~ is_valid v).
Proof.
  revert σ. induction entries as [|[k p] rest IH]; intros σ H.
  - cbn in H. injection H as <- <-.
    split; [done|]. split; [apply same_but_hosts_refl|].
    split; [apply same_validity_refl|]. split; [|done].
    intros _ k p Hin. by apply elem_of_nil in Hin.
  - cbn [IsValid_loop] in H.
    apply bind_inv in H as (valid & σ1 & Hv & H).
    apply on_struct_inv in Hv as (l & v & -> & Hl & -> & ->).
    pose proof (same_but_hosts_IsValid _ _ _ Hl) as Hh.
    pose proof (same_validity_IsValid _ _ _ Hl) as Hs.
    destruct (ClientConfiguration_IsValid v).1 eqn:Hvalid; cbn [negb] in H.
    + apply IH in H as (Hm & Hh' & Hs' & Ht & Hf).
      split; [done|]. split; [by eapply same_but_hosts_trans|].
      split; [by eapply same_validity_trans|]. split.
      * intros -> k' p' Hin. apply elem_of_cons in Hin as [[= -> ->]|Hin]; [|by eapply Ht].
        apply IsValid_true_iff, IsValid_keeps_validity in Hvalid.
        specialize (Hs' l). cbn [set_structs structs] in Hs'.
        rewrite lookup_insert_eq in Hs'.
        destruct (structs σ' !! l) as [v'|] eqn:E; [|done].
        exists l, v'. split; [done|]. split; [done|]. by apply Hs'.
      * intros ->. destruct (Hf eq_refl) as (k' & l' & v' & Hin & Hrest).
        exists k', l', v'. split; [by apply list_elem_of_further|done].
    + injection H as <- <-. split; [done|]. split; [done|]. split; [done|].
      split; [done|]. intros _.
      exists k, l, (ClientConfiguration_IsValid v).2.
      split; [apply list_elem_of_here|]. split; [apply lookup_insert_eq|].
      intros Hv. apply IsValid_keeps_validity, IsValid_true_iff in Hv. congruence.
Qed.

Lemma map_len_spec m σ n σ' :
  map_len m σ = Ok (n, σ') ->
  σ' = σ /\ exists mp, map_read m σ = Ok (mp, σ) /\ n = Z.of_nat (size mp).
Proof.
  unfold map_len. intros (mp & σ1 & Hr & H)%bind_inv.
  pose proof (map_read_inv _ _ _ _ Hr) as [-> _]. injection H as <- <-. eauto.
Qed.

Lemma map_read_maps_eq m σ σ' mp :
  maps σ' = maps σ -> map_read m σ = Ok (mp, σ) -> map_read m σ' = Ok (mp, σ').
Proof.
  intros Hm H. apply map_read_inv in H as [_ H]. destruct m as [r|].
  - apply map_read_Some. by rewrite Hm.
  - by subst.
Qed.

Lemma Configuration_IsValid_inv range c σ b σ' :
  Configuration_IsValid range c σ = Ok (b, σ') ->
  exists mp,
    map_read (Contexts c) σ = Ok (mp, σ) /\
    if decide (mp = ∅) then b = false /\ σ' = σ
    else IsValid_loop (range mp) σ = Ok (b, σ').
Proof.
  unfold Configuration_IsValid. intros (n & σ0 & Hn & H)%bind_inv.
  apply map_len_spec in Hn as [-> (mp & Hread & ->)].
  exists mp. split; [done|].
  destruct (decide (mp = ∅)) as [->|Hne].
  - rewrite map_size_empty in H. by injection H as <- <-.
  - assert (size mp <> 0%nat) as Hsize by (by intros ?%map_size_empty_inv).
    destruct (Z.eqb_spec (Z.of_nat (size mp)) 0) as [|_]; [lia|].
    apply bind_inv in H as (entries & σ0 & Hrange & H).
    unfold map_range in Hrange. rewrite (bind_Ok _ _ _ _ _ Hread) in Hrange.
    injection Hrange as <- <-.
    apply bind_inv in H as (all & σ1 & Hloop & H).
    destruct all; cbn [negb] in H.
    + pose proof (IsValid_loop_spec _ _ _ _ Hloop) as (Hm & _).
      pose proof (map_read_maps_eq _ _ _ _ Hm Hread) as Hread1.
      unfold map_len in H. rewrite bind_assoc, (bind_Ok _ _ _ _ _ Hread1) in H.
      injection H as <- <-.
      destruct (Z.ltb_spec 0 (Z.of_nat (size mp))); [done|lia].
    + by injection H as <- <-.
Qed.

(** X9. When [Configuration.IsValid] returns true the map is not empty and
    every entry points to a valid client configuration, before the call
    and after it; the map itself is not touched. *)
Theorem Configuration_IsValid_true
    (range : gmap string ptr -> list (string * ptr))
    (range_perm : forall mp, range mp ≡ₚ map_to_list mp)
    (c : Configuration) (σ σ' : Store) :
  Configuration_IsValid range c σ = Ok (true, σ') ->
  exists r mp,
    Contexts c = Some r /\ maps σ !! r = Some mp /\ mp <> ∅ /\
    all_valid σ mp /\ all_valid σ' mp /\ maps σ' = maps σ.
Proof.
  intros (mp & Hread & H)%Configuration_IsValid_inv.
  destruct (decide (mp = ∅)) as [->|Hne]; [by destruct H|].
  apply map_read_inv in Hread as [_ Hread].
  destruct (Contexts c) as [r|]; [|done]. exists r, mp.
  apply IsValid_loop_spec in H as (Hm & _ & Hs & Ht & _).
  assert (all_valid σ' mp) as Hafter.
  { intros k p Hp. apply (Ht eq_refl k). by apply (elem_of_range range range_perm). }
  repeat (split; [done|]). split; [|by split].
  intros k p Hp. destruct (Hafter k p Hp) as (l & v' & -> & Hl' & Hv').
  specialize (Hs l). rewrite Hl' in Hs.
  destruct (structs σ !! l) as [v|] eqn:E; [|done].
  exists l, v. split; [done|]. split; [done|]. by apply Hs.
Qed.

Lemma Configuration_IsValid_true_witness :
  exists r mp,
    Contexts {| CurrentContext := "dev"; Contexts := Some 1%positive |} = Some r /\
    maps all_valid_contexts !! r = Some mp /\ mp <> ∅ /\
    all_valid all_valid_contexts mp /\
    all_valid (set_structs <[1%positive := set_Host "http://example.com:80" valid_example]>
                 all_valid_contexts) mp /\
    maps (set_structs <[1%positive := set_Host "http://example.com:80" valid_example]>
            all_valid_contexts) = maps all_valid_contexts.
Proof.
  apply (Configuration_IsValid_true map_to_list (fun mp => reflexivity _)
           {| CurrentContext := "dev"; Contexts := Some 1%positive |} all_valid_contexts).
  vm_compute. reflexivity.
Defined.

(** X10. One entry that is not valid makes the whole configuration not
    valid: whatever the order of the loop, [Configuration.IsValid] cannot
    return true. *)
Theorem Configuration_IsValid_invalid_entry
    (range : gmap string ptr -> list (string * ptr))
    (range_perm : forall mp, range mp ≡ₚ map_to_list mp)
    (c : Configuration) (σ σ' : Store) (b : bool)
    (r : loc) (mp : gmap string ptr) (k : string) (l : loc) (v : ClientConfiguration) :
  Contexts c = Some r ->
  maps σ !! r = Some mp ->
  mp !! k = Some (Some l) ->
  structs σ !! l = Some v ->
  ~ is_valid v ->
  Configuration_IsValid range c σ = Ok (b, σ') ->
  b = false.
Proof.
  intros Hc Hr Hk Hl Hv (mp0 & Hread & H)%Configuration_IsValid_inv.
  rewrite Hc, (map_read_Some _ _ _ Hr) in Hread. injection Hread as <-.
  destruct (decide (mp = ∅)) as [->|Hne]; [by destruct H|].
  destruct b; [|done]. exfalso.
  apply IsValid_loop_spec in H as (_ & _ & Hs & Ht & _).
  destruct (Ht eq_refl k (Some l)) as (l' & v' & [= <-] & Hl' & Hv').
  { by apply (elem_of_range range range_perm). }
  specialize (Hs l). rewrite Hl, Hl' in Hs. by apply Hv, Hs.
Qed.

Lemma not_valid_without_credentials : ~ is_valid Fill_example_other.
Proof. intros [_ [H|H]]; apply H; reflexivity. Qed.

Lemma Configuration_IsValid_invalid_entry_witness :
  Configuration_IsValid map_to_list {| CurrentContext := "dev"; Contexts := Some 1%positive |}
    half_filled_contexts = Ok (false, half_filled_contexts_after) /\
  false = false.
Proof.
  assert (Configuration_IsValid map_to_list
            {| CurrentContext := "dev"; Contexts := Some 1%positive |}
            half_filled_contexts = Ok (false, half_filled_contexts_after)) as H
    by (vm_compute; reflexivity).
  split; [exact H|].
  exact (Configuration_IsValid_invalid_entry map_to_list (fun mp => reflexivity _)
           {| CurrentContext := "dev"; Contexts := Some 1%positive |}
           half_filled_contexts half_filled_contexts_after false 1%positive
           {[ "dev" := Some 1%positive; "scratch" := Some 2%positive ]}
           "scratch" 2%positive Fill_example_other
           eq_refl eq_refl eq_refl eq_refl not_valid_without_credentials H).
Defined.

(** X11. A configuration without contexts, its map nil or empty, is never
    valid, and asking leaves everything as it was. *)
Theorem Configuration_IsValid_no_contexts
    (range : gmap string ptr -> list (string * ptr))
    (c : Configuration) (σ : Store) :
  Contexts c = None \/ (exists r, Contexts c = Some r /\ maps σ !! r = Some ∅) ->
  Configuration_IsValid range c σ = Ok (false, σ).
Proof.
  intros H. unfold Configuration_IsValid, map_len.
  assert (map_read (Contexts c) σ = Ok (∅, σ)) as Hread.
  { destruct H as [-> |(r & -> & Hr)]; [done|by apply map_read_Some]. }
  rewrite bind_assoc, (bind_Ok _ _ _ _ _ Hread), bind_ret.
  by rewrite map_size_empty.
Qed.

Lemma Configuration_IsValid_no_contexts_witness :
  Configuration_IsValid map_to_list {| CurrentContext := ""; Contexts := None |}
    {| structs := ∅; maps := ∅ |}
  = Ok (false, {| structs := ∅; maps := ∅ |}).
Proof.
  apply (Configuration_IsValid_no_contexts map_to_list
           {| CurrentContext := ""; Contexts := None |} {| structs := ∅; maps := ∅ |}).
  by left.
Defined.

Lemma IsValid_loop_all_valid entries σ :
  (forall k p, (k, p) ∈ entries ->
     exists l v, p = Some l /\ structs σ !! l = Some v /\ is_valid v) ->
  exists σ', IsValid_loop entries σ = Ok (true, σ').
Proof.
  revert σ. induction entries as [|[k p] rest IH]; intros σ Hall; [by eexists|].
  destruct (Hall k p) as (l & v & -> & Hl & Hv); [apply list_elem_of_here|].
  cbn [IsValid_loop]. rewrite (bind_Ok _ _ _ _ _ (on_struct_Some _ _ _ _ Hl)).
  apply IsValid_true_iff in Hv as Hb. rewrite Hb. cbn [negb].
  apply IH. intros k' p' Hin.
  destruct (Hall k' p') as (l' & v' & -> & Hl' & Hv'); [by apply list_elem_of_further|].
  cbn [set_structs structs]. destruct (decide (l = l')) as [<-|Hne].
  - exists l, (ClientConfiguration_IsValid v).2. rewrite lookup_insert_eq.
    split; [done|]. split; [done|]. by apply (proj1 (IsValid_keeps_validity v)).
  - exists l', v'. by rewrite lookup_insert_ne.
Qed.

(** X12. When the map is not empty and every entry points to a valid client
    configuration, [Configuration.IsValid] returns, and returns true. *)
Theorem Configuration_IsValid_all_valid
    (range : gmap string ptr -> list (string * ptr))
    (range_perm : forall mp, range mp ≡ₚ map_to_list mp)
    (c : Configuration) (σ : Store) (r : loc) (mp : gmap string ptr) :
  Contexts c = Some r ->
  maps σ !! r = Some mp ->
  mp <> ∅ ->
  all_valid σ mp ->
  exists σ', Configuration_IsValid range c σ = Ok (true, σ').
Proof.
  intros Hc Hr Hne Hall. unfold Configuration_IsValid, map_len. rewrite Hc.
  rewrite bind_assoc, (bind_Ok _ _ _ _ _ (map_read_Some _ _ _ Hr)), bind_ret.
  assert (size mp <> 0%nat) as Hsize by (by intros ?%map_size_empty_inv).
  destruct (Z.eqb_spec (Z.of_nat (size mp)) 0) as [|_]; [lia|].
  rewrite (bind_Ok _ _ _ _ _ (map_range_Some range _ _ _ Hr)).
  destruct (IsValid_loop_all_valid (range mp) σ) as [σ' Hloop].
  { intros k p Hin. apply (Hall k). by apply (elem_of_range range range_perm). }
  rewrite (bind_Ok _ _ _ _ _ Hloop). cbn [negb].
  apply IsValid_loop_spec in Hloop as (Hm & _).
  rewrite bind_assoc.
  erewrite bind_Ok by (apply map_read_Some; by rewrite Hm).
  rewrite bind_ret. exists σ'.
  destruct (Z.ltb_spec 0 (Z.of_nat (size mp))); [done|lia].
Qed.

Lemma all_valid_example :
  all_valid all_valid_contexts {[ "dev" := Some 1%positive ]}.
Proof.
  intros k p [<- <-]%lookup_singleton_Some. exists 1%positive, valid_example.
  split; [done|]. split; [done|]. split; [done|]. by left.
Qed.

Lemma Configuration_IsValid_all_valid_witness :
  exists σ',
    Configuration_IsValid map_to_list {| CurrentContext := "dev"; Contexts := Some 1%positive |}
      all_valid_contexts = Ok (true, σ').
Proof.
  apply (Configuration_IsValid_all_valid map_to_list (fun mp => reflexivity _)
           {| CurrentContext := "dev"; Contexts := Some 1%positive |} all_valid_contexts
           1%positive {[ "dev" := Some 1%positive ]});
    [reflexivity|reflexivity| |exact all_valid_example].
  intros H. by apply (f_equal (fun m : gmap string ptr => m !! "dev")) in H.
Defined.

(** ** [RemoveContext]: every case *)

(** The three ways through [RemoveContext]. *)
Lemma RemoveContext_inv range c name σ b c' σ' :
  RemoveContext range c name σ = Ok ((b, c'), σ') ->
  exists mp,
    map_read (Contexts c) σ = Ok (mp, σ) /\
    match mp !! name with
    | None => b = false /\ c' = c /\ σ' = σ
    | Some _ =>
        if decide (CurrentContext c = name) then
          exists found σ1,
            RemoveContext_loop name (range mp) σ = Ok (found, σ1) /\
            match found with
            | Some name' =>
                b = true /\ c' = SetCurrent c name' /\
                map_delete (Contexts c) name σ1 = Ok (tt, σ')
            | None => b = false /\ c' = c /\ σ' = σ1
            end
        else b = true /\ c' = c /\ map_delete (Contexts c) name σ = Ok (tt, σ')
    end.
Proof.
  unfold RemoveContext. intros (o & σ0 & Hlook & H)%bind_inv.
  unfold map_lookup in Hlook. apply bind_inv in Hlook as (mp & σ1 & Hread & Hret).
  pose proof (map_read_inv _ _ _ _ Hread) as [-> _]. injection Hret as <- <-.
  exists mp. split; [done|].
  destruct (mp !! name) as [p|]; [|by injection H as <- <- <-].
  destruct (decide (CurrentContext c = name)) as [E|E].
  - rewrite (proj2 (String.eqb_eq _ _) E) in H.
    rewrite bind_assoc in H. apply bind_inv in H as (entries & σ0 & Hrange & H).
    unfold map_range in Hrange. rewrite (bind_Ok _ _ _ _ _ Hread) in Hrange.
    injection Hrange as <- <-.
    rewrite bind_assoc in H. apply bind_inv in H as (found & σ1 & Hloop & H).
    exists found, σ1. split; [done|]. destruct found as [name'|].
    + rewrite bind_ret in H. cbn [SetCurrent set_CurrentContext Contexts] in H.
      apply bind_inv in H as ([] & σ2 & Hdel & H). by injection H as <- <- <-.
    + rewrite !bind_ret in H. by injection H as <- <- <-.
  - rewrite (proj2 (String.eqb_neq _ _) E) in H. rewrite bind_ret in H.
    apply bind_inv in H as ([] & σ2 & Hdel & H). by injection H as <- <- <-.
Qed.

Lemma map_delete_inv m k σ σ' mp :
  map_read m σ = Ok (mp, σ) ->
  map_delete m k σ = Ok (tt, σ') ->
  map_read m σ' = Ok (delete k mp, σ') /\ structs σ' = structs σ /\
  match m with
  | Some r => maps σ' = <[r := delete k mp]> (maps σ)
  | None => σ' = σ
  end.
Proof.
  intros [_ Hread]%map_read_inv. destruct m as [r|].
  - rewrite (map_delete_Some _ _ k _ Hread). intros [= <-].
    split; [|done]. apply map_read_Some. apply lookup_insert_eq.
  - subst mp. intros [= <-]. by rewrite delete_empty.
Qed.

(** X13. Removing a name that is not in the map, or from a nil map, returns
    false and changes nothing. *)
Theorem RemoveContext_missing
    (range : gmap string ptr -> list (string * ptr))
    (c : Configuration) (name : string) (σ : Store) :
  Contexts c = None \/
  (exists r mp, Contexts c = Some r /\ maps σ !! r = Some mp /\ mp !! name = None) ->
  RemoveContext range c name σ = Ok ((false, c), σ).
Proof.
  intros H. unfold RemoveContext.
  destruct H as [-> |(r & mp & -> & Hr & Hn)].
  - by rewrite (bind_Ok _ _ _ _ _ (map_lookup_nil _ _)).
  - by rewrite (bind_Ok _ _ _ _ _ (map_lookup_Some _ _ name _ Hr)), Hn.
Qed.

Lemma RemoveContext_missing_witness :
  RemoveContext map_to_list {| CurrentContext := "dev"; Contexts := Some 1%positive |} "prod"
    RemoveContext_sole_input
  = Ok ((false, {| CurrentContext := "dev"; Contexts := Some 1%positive |}),
        RemoveContext_sole_input).
Proof.
  apply (RemoveContext_missing map_to_list
           {| CurrentContext := "dev"; Contexts := Some 1%positive |} "prod"
           RemoveContext_sole_input).
  right. exists 1%positive, {[ "dev" := Some 1%positive ]}. repeat split.
Defined.

(** X14. The outcome of [RemoveContext] in every case.  When it returns true
    the name was in the map, the map has lost exactly that name, and
    [CurrentContext] is not the removed name; when it returns false the
    receiver and every map are as before. *)
Theorem RemoveContext_outcome
    (range : gmap string ptr -> list (string * ptr))
    (range_perm : forall mp, range mp ≡ₚ map_to_list mp)
    (c : Configuration) (name : string) (σ : Store)
    (b : bool) (c' : Configuration) (σ' : Store) :
  RemoveContext range c name σ = Ok ((b, c'), σ') ->
  Contexts c' = Contexts c /\
  if b then
    CurrentContext c' <> name /\
    exists r mp, Contexts c = Some r /\ maps σ !! r = Some mp /\ is_Some (mp !! name) /\
                 maps σ' = <[r := delete name mp]> (maps σ)
  else c' = c /\ maps σ' = maps σ.
Proof.
  intros (mp & Hread & H)%RemoveContext_inv.
  destruct (mp !! name) as [p|] eqn:Hname.
  2:{ destruct H as (-> & -> & ->). done. }
  assert (exists r, Contexts c = Some r /\ maps σ !! r = Some mp) as (r & Hc & Hr).
  { apply map_read_inv in Hread as [_ Hread].
    destruct (Contexts c) as [r|]; [by exists r|]. by subst mp. }
  destruct (decide (CurrentContext c = name)) as [E|E].
  - destruct H as (found & σ1 & Hloop & H).
    apply RemoveContext_loop_spec in Hloop as (Hm & _ & Hf).
    destruct found as [name'|].
    + destruct H as (-> & -> & Hdel). split; [done|].
      destruct (Hf name' eq_refl) as (Hne & _). split; [done|].
      exists r, mp. split; [done|]. split; [done|]. split; [by eexists|].
      rewrite Hc in Hdel. unfold map_delete in Hdel. rewrite Hm, Hr in Hdel.
      injection Hdel as <-. cbn [set_maps maps]. by rewrite Hm.
    + by destruct H as (-> & -> & ->).
  - destruct H as (-> & -> & Hdel). split; [done|]. split; [done|].
    exists r, mp. split; [done|]. split; [done|]. split; [by eexists|].
    rewrite Hc, (map_delete_Some _ _ name _ Hr) in Hdel. by injection Hdel as <-.
Qed.

Lemma RemoveContext_outcome_witness :
  Contexts {| CurrentContext := "prod"; Contexts := Some 1%positive |}
    = Contexts {| CurrentContext := "dev"; Contexts := Some 1%positive |} /\
  CurrentContext {| CurrentContext := "prod"; Contexts := Some 1%positive |} <> "dev" /\
  exists r mp,
    Contexts {| CurrentContext := "dev"; Contexts := Some 1%positive |} = Some r /\
    maps two_contexts !! r = Some mp /\ is_Some (mp !! "dev") /\
    maps two_contexts_after = <[r := delete "dev" mp]> (maps two_contexts).
Proof.
  apply (RemoveContext_outcome map_to_list (fun mp => reflexivity _)
           {| CurrentContext := "dev"; Contexts := Some 1%positive |} "dev" two_contexts
           true {| CurrentContext := "prod"; Contexts := Some 1%positive |}
           two_contexts_after).
  vm_compute. reflexivity.
Defined.

(** X15. [RemoveContext] keeps the current context resolvable: when
    [CurrentContext] names an entry of the map before the call, it names an
    entry of the map after it, whatever is removed and whatever is
    returned. *)
Theorem RemoveContext_keeps_current
    (range : gmap string ptr -> list (string * ptr))
    (range_perm : forall mp, range mp ≡ₚ map_to_list mp)
    (c : Configuration) (name : string) (σ : Store)
    (b : bool) (c' : Configuration) (σ' : Store) (r : loc) (mp : gmap string ptr) :
  Contexts c = Some r ->
  maps σ !! r = Some mp ->
  is_Some (mp !! CurrentContext c) ->
  RemoveContext range c name σ = Ok ((b, c'), σ') ->
  exists mp', Contexts c' = Some r /\ maps σ' !! r = Some mp' /\
              is_Some (mp' !! CurrentContext c').
Proof.
  intros Hc Hr Hcur (mp0 & Hread & H)%RemoveContext_inv.
  rewrite Hc, (map_read_Some _ _ _ Hr) in Hread. injection Hread as <-.
  destruct (mp !! name) as [p|] eqn:Hname.
  2:{ destruct H as (-> & -> & ->). by exists mp. }
  destruct (decide (CurrentContext c = name)) as [E|E].
  - destruct H as (found & σ1 & Hloop & H).
    apply RemoveContext_loop_spec in Hloop as (Hm & _ & Hf).
    destruct found as [name'|].
    + destruct H as (-> & -> & Hdel).
      destruct (Hf name' eq_refl) as (Hne & l & v & Hin & _).
      apply (elem_of_range range range_perm) in Hin.
      rewrite Hc in Hdel. unfold map_delete in Hdel. rewrite Hm, Hr in Hdel.
      injection Hdel as <-. exists (delete name mp).
      cbn [SetCurrent set_CurrentContext Contexts CurrentContext set_maps maps].
      split; [done|]. split; [apply lookup_insert_eq|].
      rewrite lookup_delete_ne by done. by eexists.
    + destruct H as (-> & -> & ->). exists mp. by rewrite Hm.
  - destruct H as (-> & -> & Hdel).
    rewrite Hc, (map_delete_Some _ _ name _ Hr) in Hdel. injection Hdel as <-.
    exists (delete name mp). cbn [set_maps maps].
    split; [done|]. split; [apply lookup_insert_eq|].
    by rewrite lookup_delete_ne.
Qed.

Lemma RemoveContext_keeps_current_witness :
  exists mp',
    Contexts {| CurrentContext := "prod"; Contexts := Some 1%positive |} = Some 1%positive /\
    maps two_contexts_after !! 1%positive = Some mp' /\
    is_Some (mp' !! CurrentContext {| CurrentContext := "prod"; Contexts := Some 1%positive |}).
Proof.
  apply (RemoveContext_keeps_current map_to_list (fun mp => reflexivity _)
           {| CurrentContext := "dev"; Contexts := Some 1%positive |} "dev" two_contexts
           true {| CurrentContext := "prod"; Contexts := Some 1%positive |}
           two_contexts_after 1%positive
           {[ "dev" := Some 1%positive; "prod" := Some 2%positive ]}).
  - reflexivity.
  - reflexivity.
  - by eexists.
  - vm_compute. reflexivity.
Defined.

(** ** [RemoveTokens] *)

Lemma set_Token_twice t (v : ClientConfiguration) :
  set_Token t (set_Token t v) = set_Token t v.
Proof. done. Qed.

Lemma RemoveTokens_loop_spec entries σ σ' :
  RemoveTokens_loop entries σ = Ok (tt, σ') ->
  maps σ' = maps σ /\
  (forall l, Some l ∈ (entries.*2) ->
             structs σ' !! l = set_Token "" <$> (structs σ !! l)) /\
  (forall l, Some l ∉ (entries.*2) -> structs σ' !! l = structs σ !! l) /\
  None ∉ (entries.*2).
Proof.
  revert σ. induction entries as [|[k p] rest IH]; intros σ H.
  - injection H as <-. split; [done|]. split; [|split; [done|]].
    + intros l Hl. by apply elem_of_nil in Hl.
    + intros Hn. by apply elem_of_nil in Hn.
  - cbn [RemoveTokens_loop] in H.
    apply bind_inv in H as ([] & σ1 & Hs & H).
    apply on_struct_inv in Hs as (l0 & v & -> & Hl0 & _ & ->). cbn [snd] in H.
    apply IH in H as (Hm & Hin & Hout & Hnil). cbn [set_structs structs maps] in *.
    split; [done|]. rewrite fmap_cons. cbn [snd].
    split; [|split].
    + intros l Hl. destruct (decide (l = l0)) as [->|Hne].
      * rewrite Hl0. cbn [fmap option_fmap option_map].
        destruct (decide (Some l0 ∈ rest.*2)) as [Hr|Hr].
        -- by rewrite (Hin _ Hr), lookup_insert_eq.
        -- by rewrite (Hout _ Hr), lookup_insert_eq.
      * apply elem_of_cons in Hl as [[=]|Hl]; [done|].
        by rewrite (Hin _ Hl), lookup_insert_ne.
    + intros l Hl. apply not_elem_of_cons in Hl as [Hne Hl].
      rewrite (Hout _ Hl), lookup_insert_ne; [done|]. congruence.
    + intros Hn. apply elem_of_cons in Hn as [[=]|Hn]. by apply Hnil.
Qed.

Lemma elem_of_range_values (range : gmap string ptr -> list (string * ptr))
    (range_perm : forall mp, range mp ≡ₚ map_to_list mp) mp (p : ptr) :
  p ∈ (range mp).*2 <-> exists k, mp !! k = Some p.
Proof.
  rewrite list_elem_of_fmap. split.
  - intros ([k q] & -> & Hin). exists k. by apply (elem_of_range range range_perm).
  - intros [k Hk]. exists (k, p). split; [done|]. by apply (elem_of_range range range_perm).
Qed.

(** X16. [RemoveTokens] empties the token of every client configuration
    that an entry of the map points to, and nothing else: the other fields
    of these configurations, the configurations that no entry points to, and
    the maps are as before. *)
Theorem RemoveTokens_clears_tokens
    (range : gmap string ptr -> list (string * ptr))
    (range_perm : forall mp, range mp ≡ₚ map_to_list mp)
    (c : Configuration) (σ σ' : Store) (mp : gmap string ptr) :
  map_read (Contexts c) σ = Ok (mp, σ) ->
  RemoveTokens range c σ = Ok (tt, σ') ->
  maps σ' = maps σ /\
  (forall k l, mp !! k = Some (Some l) ->
     structs σ' !! l = set_Token "" <$> (structs σ !! l)) /\
  (forall l, (forall k, mp !! k <> Some (Some l)) -> structs σ' !! l = structs σ !! l).
Proof.
  intros Hread H. unfold RemoveTokens, map_range in H.
  rewrite bind_assoc, (bind_Ok _ _ _ _ _ Hread), bind_ret in H.
  apply RemoveTokens_loop_spec in H as (Hm & Hin & Hout & _).
  split; [done|]. split.
  - intros k l Hk. apply Hin. apply (elem_of_range_values range range_perm). eauto.
  - intros l Hl. apply Hout. intros [k Hk]%(elem_of_range_values range range_perm).
    by apply (Hl k).
Qed.

Lemma RemoveTokens_clears_tokens_witness :
  maps two_contexts_no_tokens = maps two_contexts /\
  (forall k l,
     ({[ "dev" := Some 1%positive; "prod" := Some 2%positive ]} : gmap string ptr) !! k
       = Some (Some l) ->
     structs two_contexts_no_tokens !! l = set_Token "" <$> (structs two_contexts !! l)) /\
  (forall l,
     (forall k, ({[ "dev" := Some 1%positive; "prod" := Some 2%positive ]} : gmap string ptr) !! k
                <> Some (Some l)) ->
     structs two_contexts_no_tokens !! l = structs two_contexts !! l).
Proof.
  apply (RemoveTokens_clears_tokens map_to_list (fun mp => reflexivity _)
           {| CurrentContext := "dev"; Contexts := Some 1%positive |}
           two_contexts two_contexts_no_tokens).
  - reflexivity.
  - vm_compute. reflexivity.
Defined.

Lemma RemoveTokens_loop_nil entries σ :
  None ∈ (entries.*2) -> RemoveTokens_loop entries σ = Panic.
Proof.
  revert σ. induction entries as [|[k p] rest IH]; intros σ Hn.
  - by apply elem_of_nil in Hn.
  - cbn [RemoveTokens_loop]. destruct p as [l|]; [|done].
    rewrite fmap_cons in Hn. apply elem_of_cons in Hn as [[=]|Hn].
    unfold bind. destruct (on_struct (Some l) _ σ) as [[[] σ1]|]; [|done]. by apply IH.
Qed.

Lemma RemoveTokens_loop_returns entries σ :
  Forall (fun e => allocated σ e.2) entries ->
  exists σ', RemoveTokens_loop entries σ = Ok (tt, σ').
Proof.
  revert σ. induction entries as [|[k p] rest IH]; intros σ Hall; [by eexists|].
  apply Forall_cons in Hall as [(l & Hp & [v Hv]) Hrest]. cbn in Hp. subst p.
  cbn [RemoveTokens_loop]. rewrite (bind_Ok _ _ _ _ _ (on_struct_Some _ _ _ _ Hv)).
  apply IH. eapply Forall_impl; [exact Hrest|]. intros e He. by apply allocated_insert.
Qed.

(** X17. [RemoveTokens] panics when the map holds a nil pointer, whatever
    the order of the loop, and returns when every entry points to a client
    configuration. *)
Theorem RemoveTokens_nil_entry
    (range : gmap string ptr -> list (string * ptr))
    (range_perm : forall mp, range mp ≡ₚ map_to_list mp)
    (c : Configuration) (σ : Store) (r : loc) (mp : gmap string ptr) :
  Contexts c = Some r ->
  maps σ !! r = Some mp ->
  ((exists k, mp !! k = Some None) -> RemoveTokens range c σ = Panic) /\
  ((forall k p, mp !! k = Some p -> allocated σ p) ->
   exists σ', RemoveTokens range c σ = Ok (tt, σ')).
Proof.
  intros Hc Hr. unfold RemoveTokens. rewrite Hc.
  rewrite (bind_Ok _ _ _ _ _ (map_range_Some range _ _ _ Hr)). split.
  - intros Hnil. apply RemoveTokens_loop_nil.
    by apply (elem_of_range_values range range_perm).
  - intros Hall. apply RemoveTokens_loop_returns. apply Forall_forall.
    intros [k p] Hin. apply (elem_of_range range range_perm) in Hin. by apply (Hall k).
Qed.

Lemma RemoveTokens_nil_entry_witness :
  RemoveTokens map_to_list {| CurrentContext := "dev"; Contexts := Some 1%positive |}
    {| structs := ∅; maps := {[ 1%positive := {[ "dev" := None ]} ]} |} = Panic.
Proof.
  apply (RemoveTokens_nil_entry map_to_list (fun mp => reflexivity _)
           {| CurrentContext := "dev"; Contexts := Some 1%positive |}
           {| structs := ∅; maps := {[ 1%positive := {[ "dev" := None ]} ]} |}
           1%positive {[ "dev" := None ]}); [reflexivity|reflexivity|].
  by exists "dev".
Defined.

(** ** [GetCurrent]: what it keeps *)

Lemma GetCurrent_dangling (c : Configuration) (σ : Store) r :
  Contexts c = Some r -> maps σ !! r = None -> GetCurrent c σ = Panic.
Proof.
  intros Hc Hr. unfold GetCurrent. rewrite Hc, bind_ret, Hc.
  unfold bind, map_lookup, bind, map_read. by rewrite Hr.
Qed.

(** The two ways through [GetCurrent]: the entry is there, or it is made,
    under "master" when [CurrentContext] is empty. *)
Lemma GetCurrent_inv (c : Configuration) (σ : Store) p c' σ' :
  GetCurrent c σ = Ok ((p, c'), σ') ->
  exists r mp,
    Contexts c' = Some r /\
    map_read (Contexts c) σ = Ok (mp, σ) /\
    (forall r0, r0 <> r -> maps σ' !! r0 = maps σ !! r0) /\
    ((mp !! CurrentContext c = Some p /\ c' = c /\ σ' = σ) \/
     (mp !! CurrentContext c = None /\
      exists l, p = Some l /\ (l ∉ dom (structs σ)) /\
        CurrentContext c' =
          (if String.eqb (CurrentContext c) "" then DefaultContextKey else CurrentContext c) /\
        structs σ' = <[l := zero_ClientConfiguration]> (structs σ) /\
        maps σ' !! r = Some (<[CurrentContext c' := Some l]> mp))).
Proof.
  intros H. destruct (Contexts c) as [r|] eqn:Hc.
  - destruct (maps σ !! r) as [mp|] eqn:Hr;
      [|by rewrite (GetCurrent_dangling c σ r Hc Hr) in H].
    rewrite (GetCurrent_live c σ r mp Hc Hr) in H.
    exists r, mp. destruct (mp !! CurrentContext c) as [cfg|] eqn:Hcur.
    + injection H as <- <- <-. split; [done|]. split; [by apply map_read_Some|].
      split; [done|]. by left.
    + cbv zeta in H. injection H as <- <- <-.
      split; [by destruct (String.eqb _ _)|]. split; [by apply map_read_Some|].
      split; [intros r0 Hr0; cbn [maps]; by rewrite lookup_insert_ne|].
      right. split; [done|]. eexists. split; [done|]. split; [apply is_fresh|].
      split; [by destruct (String.eqb _ _)|]. split; [done|].
      cbn [maps]. apply lookup_insert_eq.
  - rewrite (GetCurrent_nil c σ Hc) in H.
    set (r := fresh (dom (maps σ))) in *.
    assert (r ∉ dom (maps σ)) as Hfresh by apply is_fresh.
    set (σ1 := set_maps <[r := ∅]> σ) in *.
    assert (maps σ1 !! r = Some ∅) as Hr by apply lookup_insert_eq.
    rewrite (GetCurrent_live (set_Contexts (Some r) c) σ1 r ∅ eq_refl Hr), lookup_empty in H.
    cbv zeta in H. cbn [set_Contexts CurrentContext Contexts] in H.
    injection H as <- <- <-. exists r, ∅.
    split; [by destruct (String.eqb _ _)|]. split; [done|].
    split.
    { intros r0 Hr0. cbn [maps σ1 set_maps]. by rewrite !lookup_insert_ne. }
    right. split; [done|]. eexists. split; [done|]. split; [apply is_fresh|].
    split; [by destruct (String.eqb _ _)|]. split; [done|].
    cbn [maps]. apply lookup_insert_eq.
Qed.

(** X18. After [GetCurrent] the current context exists, and a second call
    returns the same pointer and changes nothing. *)
Theorem GetCurrent_twice (c : Configuration) (σ : Store)
    (p : ptr) (c' : Configuration) (σ' : Store) :
  GetCurrent c σ = Ok ((p, c'), σ') ->
  GetCurrent c' σ' = Ok ((p, c'), σ') /\
  CurrentContextExists c' σ' = Ok (true, σ').
Proof.
  intros (r & mp & Hc' & Hread & _ & H)%GetCurrent_inv.
  assert (exists mp', maps σ' !! r = Some mp' /\ mp' !! CurrentContext c' = Some p)
    as (mp' & Hr' & Hp).
  { destruct H as [(Hp & -> & ->)|(_ & l & -> & _ & _ & _ & Hr')].
    - exists mp. split; [|done]. apply map_read_inv in Hread as [_ Hread].
      by rewrite Hc' in Hread.
    - eexists. split; [exact Hr'|]. apply lookup_insert_eq. }
  split.
  - by rewrite (GetCurrent_live c' σ' r mp' Hc' Hr'), Hp.
  - unfold CurrentContextExists. rewrite Hc'.
    rewrite (bind_Ok _ _ _ _ _ (map_lookup_Some _ _ _ _ Hr')), Hp. done.
Qed.

Lemma GetCurrent_twice_witness :
  GetCurrent {| CurrentContext := "master"; Contexts := Some 1%positive |}
    {| structs := {[ 1%positive := zero_ClientConfiguration ]};
       maps := {[ 1%positive := {[ "master" := Some 1%positive ]} ]} |}
  = Ok ((Some 1%positive, {| CurrentContext := "master"; Contexts := Some 1%positive |}),
        {| structs := {[ 1%positive := zero_ClientConfiguration ]};
           maps := {[ 1%positive := {[ "master" := Some 1%positive ]} ]} |}).
Proof.
  apply (GetCurrent_twice {| CurrentContext := ""; Contexts := None |}
           {| structs := ∅; maps := ∅ |}).
  vm_compute. reflexivity.
Defined.

(** X19. [GetCurrent] keeps what is there: every client configuration of
    the heap is untouched, every entry of the map under a name other than
    the resulting [CurrentContext] is kept, and when [CurrentContext] was
    not empty it is not changed and the whole map is kept, with at most the
    entry for it added. *)
Theorem GetCurrent_keeps_entries (c : Configuration) (σ : Store)
    (p : ptr) (c' : Configuration) (σ' : Store) (mp : gmap string ptr) :
  map_read (Contexts c) σ = Ok (mp, σ) ->
  GetCurrent c σ = Ok ((p, c'), σ') ->
  structs σ ⊆ structs σ' /\
  exists mp',
    map_read (Contexts c') σ' = Ok (mp', σ') /\
    (forall k, k <> CurrentContext c' -> mp' !! k = mp !! k) /\
    (CurrentContext c <> "" -> CurrentContext c' = CurrentContext c /\ mp ⊆ mp').
Proof.
  intros Hread0 (r & mp0 & Hc' & Hread & _ & H)%GetCurrent_inv.
  rewrite Hread0 in Hread. injection Hread as <-.
  destruct H as [(Hp & -> & ->)|(Hnone & l & -> & Hl & Hcur & Hs & Hr')].
  - split; [done|]. exists mp. by split.
  - split.
    { rewrite Hs. apply insert_subseteq. by apply not_elem_of_dom. }
    eexists. rewrite Hc'. split; [by apply map_read_Some|]. split.
    + intros k Hk. by rewrite lookup_insert_ne.
    + intros Hne. rewrite (eqb_empty_false _ Hne) in Hcur. split; [done|].
      apply insert_subseteq. by rewrite Hcur.
Qed.

Lemma GetCurrent_keeps_entries_witness :
  GetCurrent {| CurrentContext := "prod"; Contexts := Some 1%positive |}
    RemoveContext_sole_input
  = Ok ((Some 2%positive, {| CurrentContext := "prod"; Contexts := Some 1%positive |}),
        sole_input_with_prod) /\
  structs RemoveContext_sole_input ⊆ structs sole_input_with_prod.
Proof.
  assert (GetCurrent {| CurrentContext := "prod"; Contexts := Some 1%positive |}
            RemoveContext_sole_input
          = Ok ((Some 2%positive, {| CurrentContext := "prod"; Contexts := Some 1%positive |}),
                sole_input_with_prod)) as H by (vm_compute; reflexivity).
  split; [exact H|].
  exact (proj1 (GetCurrent_keeps_entries
                  {| CurrentContext := "prod"; Contexts := Some 1%positive |}
                  RemoveContext_sole_input (Some 2%positive)
                  {| CurrentContext := "prod"; Contexts := Some 1%positive |}
                  sole_input_with_prod {[ "dev" := Some 1%positive ]} eq_refl H)).
Defined.

(** X20. With an empty [CurrentContext], no entry under the empty name and
    an entry under "master", [GetCurrent] does not return that entry: it
    makes a new zero-valued client configuration, stores it under "master"
    in place of the one that was there, and returns it. *)
Theorem GetCurrent_replaces_master (c : Configuration) (σ : Store)
    (r : loc) (mp : gmap string ptr) (q : ptr) :
  Contexts c = Some r ->
  maps σ !! r = Some mp ->
  CurrentContext c = "" ->
  mp !! "" = None ->
  mp !! "master" = Some q ->
  exists l σ',
    GetCurrent c σ = Ok ((Some l, set_CurrentContext "master" c), σ') /\
    (l ∉ dom (structs σ)) /\
    structs σ' !! l = Some zero_ClientConfiguration /\
    maps σ' !! r = Some (<["master" := Some l]> mp).
Proof.
  intros Hc Hr Hcur Hempty Hmaster.
  rewrite (GetCurrent_live c σ r mp Hc Hr), Hcur, Hempty. cbv zeta.
  cbn [String.eqb CurrentContext set_CurrentContext DefaultContextKey].
  eexists _, _. split; [reflexivity|]. cbn [structs maps].
  split; [apply is_fresh|]. split; apply lookup_insert_eq.
Qed.

Lemma GetCurrent_replaces_master_witness :
  exists l σ',
    GetCurrent {| CurrentContext := ""; Contexts := Some 1%positive |} master_contexts
    = Ok ((Some l, set_CurrentContext "master"
                     {| CurrentContext := ""; Contexts := Some 1%positive |}), σ') /\
    (l ∉ dom (structs master_contexts)) /\
    structs σ' !! l = Some zero_ClientConfiguration /\
    maps σ' !! 1%positive = Some (<["master" := Some l]> {[ "master" := Some 1%positive ]}).
Proof.
  apply (GetCurrent_replaces_master {| CurrentContext := ""; Contexts := Some 1%positive |}
           master_contexts 1%positive {[ "master" := Some 1%positive ]} (Some 1%positive));
    reflexivity.
Defined.

(** ** [FillCurrent] *)

(** The ways through [FillCurrent]. *)
Lemma FillCurrent_inv (c : Configuration) (cfg : ClientConfiguration) σ σ' :
  FillCurrent c cfg σ = Ok (tt, σ') ->
  exists mp,
    map_read (Contexts c) σ = Ok (mp, σ) /\
    match mp !! CurrentContext c with
    | Some p =>
        exists l v, p = Some l /\ structs σ !! l = Some v /\
                    σ' = set_structs <[l := (Fill v cfg).2]> σ
    | None =>
        if (ClientConfiguration_IsValid cfg).1 then
          exists r, Contexts c = Some r /\
            σ' = {| structs := <[fresh (dom (structs σ)) := (ClientConfiguration_IsValid cfg).2]>
                                 (structs σ);
                    maps := <[r := <[CurrentContext c := Some (fresh (dom (structs σ)))]> mp]>
                              (maps σ) |}
        else σ' = σ
    end.
Proof.
  unfold FillCurrent. intros (o & σ0 & Hlook & H)%bind_inv.
  unfold map_lookup in Hlook. apply bind_inv in Hlook as (mp & σ1 & Hread & Hret).
  pose proof (map_read_inv _ _ _ _ Hread) as [-> Hmp]. injection Hret as <- <-.
  exists mp. split; [done|]. destruct (mp !! CurrentContext c) as [p|].
  - apply bind_inv in H as (b & σ1 & Hs & H). injection H as <-.
    apply on_struct_inv in Hs as (l & v & -> & Hl & _ & ->). by exists l, v.
  - destruct (ClientConfiguration_IsValid cfg) as [[] cfg']; cbn [fst snd];
      [|by injection H as <-].
    unfold bind at 1 in H. unfold alloc in H.
    apply map_assign_inv in H as (r & mp0 & Hc & Hr & ->).
    exists r. split; [done|]. rewrite Hc in Hmp. cbn [set_structs maps] in Hr.
    assert (mp0 = mp) as -> by congruence. done.
Qed.

Lemma FillCurrent_no_entry (c : Configuration) (cfg : ClientConfiguration) (σ : Store)
    (mp : gmap string ptr) :
  map_read (Contexts c) σ = Ok (mp, σ) ->
  mp !! CurrentContext c = None ->
  FillCurrent c cfg σ =
    if (ClientConfiguration_IsValid cfg).1 then
      (p <- alloc (ClientConfiguration_IsValid cfg).2 ;;
       map_assign (Contexts c) (CurrentContext c) p) σ
    else Ok (tt, σ).
Proof.
  intros Hread Hnone. unfold FillCurrent, map_lookup.
  rewrite bind_assoc, (bind_Ok _ _ _ _ _ Hread), bind_ret, Hnone.
  by destruct (ClientConfiguration_IsValid cfg) as [[] cfg'].
Qed.

Lemma FillCurrent_seed_valid (c : Configuration) (cfg : ClientConfiguration) (σ : Store)
    (r : loc) (mp : gmap string ptr) :
  Contexts c = Some r ->
  maps σ !! r = Some mp ->
  mp !! CurrentContext c = None ->
  is_valid cfg ->
  FillCurrent c cfg σ =
    Ok (tt, {| structs := <[fresh (dom (structs σ)) := set_Host (FormatHost (Host cfg)) cfg]>
                            (structs σ);
               maps := <[r := <[CurrentContext c := Some (fresh (dom (structs σ)))]> mp]>
                         (maps σ) |}) /\
  is_valid (set_Host (FormatHost (Host cfg)) cfg).
Proof.
  intros Hc Hr Hnone Hv. pose proof Hv as [Hhost _].
  rewrite (FillCurrent_no_entry c cfg σ mp) by (by rewrite ?Hc; try apply map_read_Some).
  apply IsValid_true_iff in Hv as Hb. rewrite Hb.
  pose proof (proj1 (IsValid_keeps_validity cfg) Hv) as Hv'.
  rewrite (IsValid_non_empty_host cfg Hhost) in *. cbn [snd] in *.
  split; [|done]. unfold bind at 1, alloc. rewrite Hc.
  by erewrite map_assign_Some by done.
Qed.

(** X21. [FillCurrent] on a current context that has no entry yet.  An
    argument that is not valid is dropped: nothing changes, with a nil map
    as well.  A valid argument is stored, in an allocated map, in a new cell
    under [CurrentContext], with its host in normal form, and the stored
    configuration is valid. *)
Theorem FillCurrent_seeds (c : Configuration) (cfg : ClientConfiguration) (σ : Store)
    (mp : gmap string ptr) :
  map_read (Contexts c) σ = Ok (mp, σ) ->
  mp !! CurrentContext c = None ->
  (~ is_valid cfg -> FillCurrent c cfg σ = Ok (tt, σ)) /\
  (is_valid cfg ->
   forall r, Contexts c = Some r ->
     exists l,
       (l ∉ dom (structs σ)) /\
       FillCurrent c cfg σ =
         Ok (tt, {| structs := <[l := set_Host (FormatHost (Host cfg)) cfg]> (structs σ);
                    maps := <[r := <[CurrentContext c := Some l]> mp]> (maps σ) |}) /\
       is_valid (set_Host (FormatHost (Host cfg)) cfg)).
Proof.
  intros Hread Hnone. split.
  - intros Hv. rewrite (FillCurrent_no_entry c cfg σ mp Hread Hnone).
    destruct (ClientConfiguration_IsValid cfg).1 eqn:E; [|done].
    by apply IsValid_true_iff in E.
  - intros Hv r Hc. exists (fresh (dom (structs σ))). split; [apply is_fresh|].
    apply FillCurrent_seed_valid; try done.
    apply map_read_inv in Hread as [_ Hread]. by rewrite Hc in Hread.
Qed.

Lemma is_valid_example : is_valid valid_example.
Proof. split; [done|]. by left. Qed.

Lemma FillCurrent_seeds_witness :
  exists l,
    (l ∉ dom (structs RemoveContext_sole_input)) /\
    FillCurrent {| CurrentContext := "prod"; Contexts := Some 1%positive |} valid_example
      RemoveContext_sole_input =
      Ok (tt, {| structs := <[l := set_Host (FormatHost (Host valid_example)) valid_example]>
                              (structs RemoveContext_sole_input);
                 maps := <[1%positive := <["prod" := Some l]> {[ "dev" := Some 1%positive ]}]>
                           (maps RemoveContext_sole_input) |}) /\
    is_valid (set_Host (FormatHost (Host valid_example)) valid_example).
Proof.
  apply (FillCurrent_seeds {| CurrentContext := "prod"; Contexts := Some 1%positive |}
           valid_example RemoveContext_sole_input {[ "dev" := Some 1%positive ]});
    [reflexivity|reflexivity|exact is_valid_example|reflexivity].
Defined.

(** X22. After [FillCurrent] with a valid argument the current context is
    there and valid, whether it was created or merged into: the map is
    allocated and the entry under [CurrentContext], if any, points to a
    client configuration. *)
Theorem FillCurrent_valid_argument (c : Configuration) (cfg : ClientConfiguration)
    (σ : Store) (r : loc) (mp : gmap string ptr) :
  Contexts c = Some r ->
  maps σ !! r = Some mp ->
  (forall p, mp !! CurrentContext c = Some p -> allocated σ p) ->
  is_valid cfg ->
  exists σ' mp' l v,
    FillCurrent c cfg σ = Ok (tt, σ') /\
    maps σ' !! r = Some mp' /\ mp' !! CurrentContext c = Some (Some l) /\
    structs σ' !! l = Some v /\ is_valid v.
Proof.
  intros Hc Hr Halloc Hv.
  destruct (mp !! CurrentContext c) as [p|] eqn:Hcur.
  - destruct (Halloc p eq_refl) as (l & -> & [v Hl]).
    unfold FillCurrent. rewrite Hc.
    rewrite (bind_Ok _ _ _ _ _ (map_lookup_Some _ _ _ _ Hr)), Hcur.
    rewrite (bind_Ok _ _ _ _ _ (on_struct_Some _ _ _ _ Hl)).
    eexists _, mp, l, _. split; [reflexivity|]. cbn [set_structs maps structs].
    split; [done|]. split; [done|]. split; [apply lookup_insert_eq|].
    rewrite Fill_unfold.
    match goal with |- is_valid (ClientConfiguration_IsValid ?x).2 =>
      apply (proj1 (IsValid_keeps_validity x)) end.
    destruct Hv as [Hh Hcred]. split; cbn [Host Token Authentication].
    + unfold merged_host. by rewrite eqb_empty_false.
    + destruct Hcred as [Ht|Ha]; [left; by rewrite eqb_empty_false|right].
      by destruct (Authentication cfg).
  - destruct (FillCurrent_seed_valid c cfg σ r mp Hc Hr Hcur Hv) as [-> Hv'].
    eexists _, _, _, _. split; [reflexivity|]. cbn [maps structs].
    split; [apply lookup_insert_eq|]. split; [apply lookup_insert_eq|].
    split; [apply lookup_insert_eq|done].
Qed.

Lemma FillCurrent_valid_argument_witness :
  exists σ' mp' l v,
    FillCurrent {| CurrentContext := "dev"; Contexts := Some 1%positive |} valid_example
      RemoveContext_sole_input = Ok (tt, σ') /\
    maps σ' !! 1%positive = Some mp' /\
    mp' !! CurrentContext {| CurrentContext := "dev"; Contexts := Some 1%positive |}
      = Some (Some l) /\
    structs σ' !! l = Some v /\ is_valid v.
Proof.
  apply (FillCurrent_valid_argument {| CurrentContext := "dev"; Contexts := Some 1%positive |}
           valid_example RemoveContext_sole_input 1%positive {[ "dev" := Some 1%positive ]});
    [reflexivity|reflexivity| |exact is_valid_example].
  intros p [= <-]. exists 1%positive. split; [done|]. by eexists.
Defined.

(** ** Edits of a clone *)

Lemma Clone_fresh
    (range : gmap string ptr -> list (string * ptr))
    (range_perm : forall mp, range mp ≡ₚ map_to_list mp)
    (c : Configuration) (σ : Store) (clone : Configuration) (σ1 : Store) :
  Clone range c σ = Ok (clone, σ1) ->
  exists m' mp',
    Contexts clone = Some m' /\ (m' ∉ dom (maps σ)) /\ maps σ1 !! m' = Some mp' /\
    (forall k p, mp' !! k = Some p -> exists l', p = Some l' /\ l' ∉ dom (structs σ)) /\
    structs σ ⊆ structs σ1 /\ maps σ ⊆ maps σ1.
Proof.
  intros H. unfold Clone in H.
  unfold bind at 1 in H. unfold make in H.
  set (m' := fresh (dom (maps σ))) in *.
  assert (m' ∉ dom (maps σ)) as Hfresh by apply is_fresh.
  set (σ0 := set_maps <[m' := ∅]> σ) in *.
  apply bind_inv in H as (entries & σ0' & Hrange & H).
  apply map_range_inv in Hrange as [-> _].
  apply bind_inv in H as ([] & σ2 & Hloop & H). injection H as <- <-.
  assert (maps σ0 !! m' = Some ∅) as Hm' by apply lookup_insert_eq.
  cbn [Contexts] in Hloop.
  destruct (Clone_loop_spec _ _ _ _ _ Hm' Hloop) as (Hsub & Hother & mp' & Hmp' & Hout & Hin).
  exists m', mp'. split; [done|]. split; [done|]. split; [done|]. split; [|split; [done|]].
  - intros k p Hk. destruct (decide (k ∈ entries.*1)) as [Hk'|Hk'].
    + destruct (Hin k Hk') as (l' & _ & _ & _ & Hl' & Hf & _).
      exists l'. split; [congruence|done].
    + rewrite (Hout k Hk'), lookup_empty in Hk. done.
  - apply map_subseteq_spec. intros r x Hr.
    assert (r <> m') as Hne by (intros ->; apply Hfresh, elem_of_dom; eauto).
    rewrite (Hother r Hne). cbn [σ0 set_maps maps]. by rewrite lookup_insert_ne.
Qed.

Lemma edits_within_original σ σ1 σ2 m' mp' :
  m' ∉ dom (maps σ) ->
  (forall k p, mp' !! k = Some p -> exists l', p = Some l' /\ l' ∉ dom (structs σ)) ->
  structs σ ⊆ structs σ1 -> maps σ ⊆ maps σ1 ->
  edits_within σ1 σ2 m' mp' ->
  structs σ ⊆ structs σ2 /\ maps σ ⊆ maps σ2.
Proof.
  intros Hm' Hfresh Hs Hm [Hmaps Hstructs]. split.
  - apply map_subseteq_spec. intros l v Hl.
    pose proof (lookup_weaken _ _ _ _ Hl Hs) as Hl1.
    rewrite Hstructs; [done|apply elem_of_dom; eauto|].
    intros k Hk. destruct (Hfresh k _ Hk) as (l' & [= <-] & Hl').
    apply Hl', elem_of_dom. eauto.
  - apply map_subseteq_spec. intros r x Hr.
    rewrite Hmaps; [by eapply lookup_weaken|].
    intros ->. apply Hm', elem_of_dom. eauto.
Qed.

Lemma RemoveContext_loop_frame name entries σ found σ' :
  RemoveContext_loop name entries σ = Ok (found, σ') ->
  forall l, Some l ∉ (entries.*2) -> structs σ' !! l = structs σ !! l.
Proof.
  revert σ. induction entries as [|[k p] rest IH]; intros σ H l Hl.
  - by injection H as <- <-.
  - rewrite fmap_cons in Hl. apply not_elem_of_cons in Hl as [Hne Hl].
    cbn [RemoveContext_loop] in H. destruct (String.eqb k name); [by eapply IH|].
    apply bind_inv in H as (valid & σ1 & Hv & H).
    apply on_struct_inv in Hv as (l0 & v & -> & Hl0 & -> & ->).
    assert (structs (set_structs <[l0 := (ClientConfiguration_IsValid v).2]> σ) !! l
            = structs σ !! l) as Hstep.
    { cbn [set_structs structs]. rewrite lookup_insert_ne; [done|]. cbn in Hne. congruence. }
    destruct (ClientConfiguration_IsValid v).1.
    + by injection H as <- <-.
    + rewrite <- Hstep. by eapply IH.
Qed.

Lemma RemoveContext_edits_within
    (range : gmap string ptr -> list (string * ptr))
    (range_perm : forall mp, range mp ≡ₚ map_to_list mp)
    conf name σ res σ' m mp :
  Contexts conf = Some m ->
  maps σ !! m = Some mp ->
  RemoveContext range conf name σ = Ok (res, σ') ->
  edits_within σ σ' m mp.
Proof.
  intros Hc Hm H. destruct res as [b c'].
  apply RemoveContext_inv in H as (mp0 & Hread & H).
  rewrite Hc, (map_read_Some _ _ _ Hm) in Hread. injection Hread as <-.
  destruct (mp !! name) as [p|]; [|by destruct H as (_ & _ & ->)].
  destruct (decide (CurrentContext conf = name)) as [E|E].
  - destruct H as (found & σ1 & Hloop & H).
    pose proof (RemoveContext_loop_frame _ _ _ _ _ Hloop) as Hframe.
    apply RemoveContext_loop_spec in Hloop as (Hmaps & _ & _).
    assert (forall l, (forall k, mp !! k <> Some (Some l)) ->
                      structs σ1 !! l = structs σ !! l) as Hs.
    { intros l Hl. apply Hframe.
      intros [k Hk]%(elem_of_range_values range range_perm). by apply (Hl k). }
    destruct found as [name'|].
    + destruct H as (_ & _ & Hdel). rewrite Hc in Hdel.
      unfold map_delete in Hdel. rewrite Hmaps, Hm in Hdel. injection Hdel as <-.
      split.
      * intros r Hr. cbn [set_maps maps]. by rewrite lookup_insert_ne, Hmaps.
      * intros l _ Hl. cbn [set_maps structs]. by apply Hs.
    + destruct H as (_ & _ & ->). split; [by intros r _; rewrite Hmaps|].
      intros l _ Hl. by apply Hs.
  - destruct H as (_ & _ & Hdel).
    rewrite Hc, (map_delete_Some _ _ name _ Hm) in Hdel. injection Hdel as <-.
    split; [|done]. intros r Hr. cbn [set_maps maps]. by rewrite lookup_insert_ne.
Qed.

Lemma FillCurrent_edits_within conf cfg σ σ' m mp :
  Contexts conf = Some m ->
  maps σ !! m = Some mp ->
  FillCurrent conf cfg σ = Ok (tt, σ') ->
  edits_within σ σ' m mp.
Proof.
  intros Hc Hm (mp0 & Hread & H)%FillCurrent_inv.
  rewrite Hc, (map_read_Some _ _ _ Hm) in Hread. injection Hread as <-.
  destruct (mp !! CurrentContext conf) as [p|] eqn:Hcur.
  - destruct H as (l & v & -> & Hl & ->). split; [done|].
    intros l' _ Hl'. cbn [set_structs structs]. rewrite lookup_insert_ne; [done|].
    intros <-. by apply (Hl' (CurrentContext conf)).
  - destruct (ClientConfiguration_IsValid cfg).1; [|by subst].
    destruct H as (r & Hr & ->). assert (r = m) as -> by congruence. split.
    + intros r Hne. cbn [maps]. by rewrite lookup_insert_ne.
    + intros l Hl _. cbn [structs]. rewrite lookup_insert_ne; [done|].
      intros <-. by apply (is_fresh (dom (structs σ))).
Qed.

Lemma RemoveTokens_edits_within
    (range : gmap string ptr -> list (string * ptr))
    (range_perm : forall mp, range mp ≡ₚ map_to_list mp)
    conf σ σ' m mp :
  Contexts conf = Some m ->
  maps σ !! m = Some mp ->
  RemoveTokens range conf σ = Ok (tt, σ') ->
  edits_within σ σ' m mp.
Proof.
  intros Hc Hm H. unfold RemoveTokens in H.
  rewrite Hc, (bind_Ok _ _ _ _ _ (map_range_Some range _ _ _ Hm)) in H.
  apply RemoveTokens_loop_spec in H as (Hmaps & _ & Hout & _). split.
  - intros r _. by rewrite Hmaps.
  - intros l _ Hl. apply Hout.
    intros [k Hk]%(elem_of_range_values range range_perm). by apply (Hl k).
Qed.

(** X23. Edits of a clone do not reach the original.  After [Clone], a
    [RemoveContext], a [FillCurrent] or a [RemoveTokens] on the clone leaves
    every client configuration and every map of the heap before the clone
    as it was. *)
Theorem Clone_then_edit
    (range : gmap string ptr -> list (string * ptr))
    (range_perm : forall mp, range mp ≡ₚ map_to_list mp)
    (c : Configuration) (σ : Store) (clone : Configuration) (σ1 : Store) :
  Clone range c σ = Ok (clone, σ1) ->
  (forall name res σ2,
     RemoveContext range clone name σ1 = Ok (res, σ2) ->
     structs σ ⊆ structs σ2 /\ maps σ ⊆ maps σ2) /\
  (forall cfg σ2,
     FillCurrent clone cfg σ1 = Ok (tt, σ2) ->
     structs σ ⊆ structs σ2 /\ maps σ ⊆ maps σ2) /\
  (forall σ2,
     RemoveTokens range clone σ1 = Ok (tt, σ2) ->
     structs σ ⊆ structs σ2 /\ maps σ ⊆ maps σ2).
Proof.
  intros (m' & mp' & Hc & Hm' & Hmp' & Hfresh & Hs & Hm)%(Clone_fresh range range_perm).
  split; [|split].
  - intros name res σ2 H. apply (edits_within_original σ σ1 σ2 m' mp'); try done.
    by eapply RemoveContext_edits_within.
  - intros cfg σ2 H. apply (edits_within_original σ σ1 σ2 m' mp'); try done.
    by eapply FillCurrent_edits_within.
  - intros σ2 H. apply (edits_within_original σ σ1 σ2 m' mp'); try done.
    by eapply RemoveTokens_edits_within.
Qed.

Lemma Clone_then_edit_witness :
  RemoveContext map_to_list {| CurrentContext := "dev"; Contexts := Some 2%positive |} "dev"
    two_contexts_cloned
  = Ok ((true, {| CurrentContext := "prod"; Contexts := Some 2%positive |}),
        two_contexts_cloned_edited) /\
  structs two_contexts ⊆ structs two_contexts_cloned_edited /\
  maps two_contexts ⊆ maps two_contexts_cloned_edited.
Proof.
  assert (Clone map_to_list {| CurrentContext := "dev"; Contexts := Some 1%positive |}
            two_contexts
          = Ok ({| CurrentContext := "dev"; Contexts := Some 2%positive |},
                two_contexts_cloned)) as H by (vm_compute; reflexivity).
  assert (RemoveContext map_to_list {| CurrentContext := "dev"; Contexts := Some 2%positive |}
            "dev" two_contexts_cloned
          = Ok ((true, {| CurrentContext := "prod"; Contexts := Some 2%positive |}),
                two_contexts_cloned_edited)) as H' by (vm_compute; reflexivity).
  split; [exact H'|].
  exact (proj1 (Clone_then_edit map_to_list (fun mp => reflexivity _)
                  {| CurrentContext := "dev"; Contexts := Some 1%positive |} two_contexts
                  {| CurrentContext := "dev"; Contexts := Some 2%positive |}
                  two_contexts_cloned H) "dev" _ _ H').
Defined.

(** ** Reading and looking up a configuration file *)

Section reading_facts.
Variables (error File : Type).
Variable filepath_Abs : string -> error + string.
Variable filepath_Join : string -> string -> string.
Variable os_Open : string -> error + File.
Variable ioutil_ReadAll : File -> error + string.
Variable not_compatible : string -> error.
Variables JSON YAML : UnmarshalFunc error.

Local Abbreviation read := (read_file filepath_Abs os_Open ioutil_ReadAll).
Local Abbreviation ReadFrom :=
  (ReadConfigurationFromFile error File filepath_Abs os_Open ioutil_ReadAll).
Local Abbreviation TryRead :=
  (TryReadConfigurationFromFile error File filepath_Abs os_Open ioutil_ReadAll
     not_compatible JSON YAML).
Local Abbreviation lookup_in :=
  (lookup_loop error File filepath_Abs filepath_Join os_Open ioutil_ReadAll
     not_compatible JSON YAML).
Local Abbreviation lookupIn :=
  (lookupConfiguration error File filepath_Abs filepath_Join os_Open ioutil_ReadAll
     not_compatible JSON YAML).

Lemma ReadFrom_read filename (unmarshaler : UnmarshalFunc error) out σ :
  ReadFrom filename unmarshaler out σ =
    match read filename with
    | inl err => Ok ((Some err, out), σ)
    | inr data => unmarshaler data out σ
    end.
Proof.
  unfold ReadConfigurationFromFile, ReadConfiguration, read_file.
  destruct (filepath_Abs filename) as [e|a]; [done|].
  destruct (os_Open a) as [e|f]; [done|].
  by destruct (ioutil_ReadAll f).
Qed.

Lemma ReadFrom_unreadable filename err (unmarshaler : UnmarshalFunc error) out σ :
  read filename = inl err ->
  ReadFrom filename unmarshaler out σ = Ok ((Some err, out), σ).
Proof. intros H. by rewrite ReadFrom_read, H. Qed.

Lemma ReadFrom_readable filename data (unmarshaler : UnmarshalFunc error) out σ :
  read filename = inr data ->
  ReadFrom filename unmarshaler out σ = unmarshaler data out σ.
Proof. intros H. by rewrite ReadFrom_read, H. Qed.

(** Whatever the formats tried, a file that cannot be read is never
    decoded. *)
Lemma TryRead_loop_unreadable (tries : list (UnmarshalFunc error)) (filename : string)
    (err : error) (out : Configuration) (σ : Store) :
  read filename = inl err ->
  TryRead_loop error File filepath_Abs os_Open ioutil_ReadAll not_compatible
    tries filename out σ
  = Ok ((Some (not_compatible filename), out), σ).
Proof.
  intros Hread. induction tries as [|unmarshaler rest IH]; [done|].
  cbn [TryRead_loop].
  by rewrite (bind_Ok _ _ _ _ _ (ReadFrom_unreadable _ _ unmarshaler out σ Hread)).
Qed.

(** X24. A file that cannot be read (no absolute path, no such file, a
    failed read) makes [TryReadConfigurationFromFile] return its own error
    for that name, not the error of the file system, and leaves the
    configuration and the heap untouched: no decoder runs. *)
Theorem TryRead_unreadable (filename : string) (err : error)
    (out : Configuration) (σ : Store) :
  read filename = inl err ->
  TryRead filename out σ = Ok ((Some (not_compatible filename), out), σ).
Proof.
  intros Hread. unfold TryReadConfigurationFromFile. cbn [TryRead_loop].
  rewrite (bind_Ok _ _ _ _ _ (ReadFrom_unreadable _ _ JSON out σ Hread)).
  by rewrite (bind_Ok _ _ _ _ _ (ReadFrom_unreadable _ _ YAML out σ Hread)).
Qed.

(** X25. [TryReadConfigurationFromFile] returns a nil error exactly when
    the file can be read and either the JSON decoder accepts its bytes, or
    it refuses them and the YAML decoder accepts them, starting from what
    the JSON decoder left behind. *)
Theorem TryRead_nil_iff (filename : string) (out out' : Configuration) (σ σ' : Store) :
  TryRead filename out σ = Ok ((None, out'), σ') <->
  exists data,
    read filename = inr data /\
    (JSON data out σ = Ok ((None, out'), σ') \/
     exists e out1 σ1,
       JSON data out σ = Ok ((Some e, out1), σ1) /\
       YAML data out1 σ1 = Ok ((None, out'), σ')).
Proof.
  unfold TryReadConfigurationFromFile. cbn [TryRead_loop]. split.
  - destruct (read filename) as [e|data] eqn:Hread.
    + rewrite (bind_Ok _ _ _ _ _ (ReadFrom_unreadable _ _ JSON out σ Hread)).
      by rewrite (bind_Ok _ _ _ _ _ (ReadFrom_unreadable _ _ YAML out σ Hread)).
    + intros H. exists data. split; [done|].
      apply bind_inv in H as ([o out1] & σ1 & Hj & H).
      rewrite (ReadFrom_readable _ _ JSON out σ Hread) in Hj.
      destruct o as [e|]; [|left; by injection H as <- <-].
      right. exists e, out1, σ1. split; [done|].
      apply bind_inv in H as ([o out2] & σ2 & Hy & H).
      rewrite (ReadFrom_readable _ _ YAML out1 σ1 Hread) in Hy.
      destruct o as [e'|]; [done|]. by injection H as <- <-.
  - intros (data & Hread & [Hj|(e & out1 & σ1 & Hj & Hy)]);
      rewrite <- (ReadFrom_readable _ _ JSON out σ Hread) in Hj;
      rewrite (bind_Ok _ _ _ _ _ Hj); [done|].
    rewrite <- (ReadFrom_readable _ _ YAML out1 σ1 Hread) in Hy.
    by rewrite (bind_Ok _ _ _ _ _ Hy).
Qed.

Lemma lookup_in_unreadable filenames dir out σ :
  (forall f, f ∈ filenames -> exists err, read (filepath_Join dir f) = inl err) ->
  lookup_in filenames dir out σ = Ok ((false, out), σ).
Proof.
  induction filenames as [|f rest IH]; intros Hall; [done|].
  cbn [lookup_loop]. destruct (Hall f) as [err Herr]; [apply list_elem_of_here|].
  rewrite (bind_Ok _ _ _ _ _ (TryRead_loop_unreadable [JSON; YAML] _ _ out σ Herr : TryRead _ out σ = _)).
  apply IH. intros f' Hf'. apply Hall. by apply list_elem_of_further.
Qed.

(** X26. When none of the twelve file names can be read in the directory,
    [lookupConfiguration] returns false and leaves the configuration and
    the heap untouched. *)
Theorem lookupConfiguration_nothing (dir : string) (out : Configuration) (σ : Store) :
  (forall f, f ∈ configurationPossibleFilenames ->
             exists err, read (filepath_Join dir f) = inl err) ->
  lookupIn dir out σ = Ok ((false, out), σ).
Proof. apply lookup_in_unreadable. Qed.

(** X27. The first name wins, in the order of the list: when a file of the
    list can be decoded and none of the names before it can be read,
    [lookupConfiguration] returns true with the configuration decoded from
    that file, whatever the later files hold. *)
Theorem lookupConfiguration_first (dir : string) (out out' : Configuration) (σ σ' : Store)
    (before after : list string) (f : string) :
  configurationPossibleFilenames = (before ++ f :: after)%list ->
  (forall f0, f0 ∈ before -> exists err, read (filepath_Join dir f0) = inl err) ->
  TryRead (filepath_Join dir f) out σ = Ok ((None, out'), σ') ->
  lookupIn dir out σ = Ok ((true, out'), σ').
Proof.
  unfold lookupConfiguration. intros -> Hbefore Hf.
  induction before as [|f0 rest IH]; cbn [app lookup_loop].
  - by rewrite (bind_Ok _ _ _ _ _ Hf).
  - destruct (Hbefore f0) as [err Herr]; [apply list_elem_of_here|].
    rewrite (bind_Ok _ _ _ _ _ (TryRead_loop_unreadable [JSON; YAML] _ _ out σ Herr : TryRead _ out σ = _)).
    apply IH. intros f' Hf'. apply Hbefore. by apply list_elem_of_further.
Qed.

End reading_facts.

Lemma TryRead_unreadable_witness :
  TryReadConfigurationFromFile string string example_Abs (example_Open example_files)
    example_ReadAll example_not_compatible example_JSON example_YAML
    "/etc/lenses/lenses.yml" {| CurrentContext := ""; Contexts := None |}
    {| structs := ∅; maps := ∅ |}
  = Ok ((Some (example_not_compatible "/etc/lenses/lenses.yml"),
         {| CurrentContext := ""; Contexts := None |}), {| structs := ∅; maps := ∅ |}).
Proof.
  apply (TryRead_unreadable string string example_Abs (example_Open example_files)
           example_ReadAll example_not_compatible example_JSON example_YAML
           "/etc/lenses/lenses.yml" "no such file").
  reflexivity.
Defined.

Lemma lookupConfiguration_nothing_witness :
  lookupConfiguration string string example_Abs example_Join (example_Open [])
    example_ReadAll example_not_compatible example_JSON example_YAML
    "/etc/lenses" {| CurrentContext := ""; Contexts := None |} {| structs := ∅; maps := ∅ |}
  = Ok ((false, {| CurrentContext := ""; Contexts := None |}), {| structs := ∅; maps := ∅ |}).
Proof.
  apply (lookupConfiguration_nothing string string example_Abs example_Join (example_Open [])
           example_ReadAll example_not_compatible example_JSON example_YAML).
  intros f _. by exists "no such file".
Defined.

Lemma lookupConfiguration_first_witness :
  lookupConfiguration string string example_Abs example_Join (example_Open example_files)
    example_ReadAll example_not_compatible example_JSON example_YAML
    "/etc/lenses" {| CurrentContext := ""; Contexts := None |} {| structs := ∅; maps := ∅ |}
  = Ok ((true, {| CurrentContext := "from-yaml"; Contexts := None |}),
        {| structs := ∅; maps := ∅ |}).
Proof.
  apply (lookupConfiguration_first string string example_Abs example_Join
           (example_Open example_files) example_ReadAll example_not_compatible
           example_JSON example_YAML "/etc/lenses" _ _ _ _
           [ "lenses.yml"; "lenses.yaml"; "lenses.json";
             ".lenses.yml"; ".lenses.yaml"; ".lenses.json" ]
           [ "lenses-cli.yaml"; "lenses-cli.json";
             ".lenses-cli.yml"; ".lenses-cli.yaml"; ".lenses-cli.json" ]
           "lenses-cli.yml").
  - reflexivity.
  - intros f0 Hf0.
    repeat (apply elem_of_cons in Hf0 as [->|Hf0]; [by exists "no such file"|]).
    by apply elem_of_nil in Hf0.
  - vm_compute. reflexivity.
Defined.

(** ** [HomeDir] *)

Lemma append_empty_iff a b : a +:+ b = "" <-> a = "" /\ b = "".
Proof.
  split; [|by intros [-> ->]]. destruct a; [|done]. intros H. split; [done|exact H].
Qed.

(** X28. [HomeDir] returns the empty string exactly when nothing is found:
    no home directory in a user record returned without error, no "HOME",
    and on plan9 no "home", on windows neither "HOMEDRIVE" nor "HOMEPATH"
    nor "USERPROFILE".  On the other systems only the first two count. *)
Theorem HomeDir_empty_iff (u : option string) (err_nil : bool)
    (Getenv : string -> string) (GOOS : string) :
  HomeDir u err_nil Getenv GOOS = "" <->
  (forall h, u = Some h -> err_nil = true -> h = "") /\
  Getenv "HOME" = "" /\
  (GOOS = "plan9" -> Getenv "home" = "") /\
  (GOOS = "windows" ->
   Getenv "HOMEDRIVE" = "" /\ Getenv "HOMEPATH" = "" /\ Getenv "USERPROFILE" = "").
Proof.
  unfold HomeDir.
  set (h0 := match u with
             | Some uHomeDir => if err_nil then uHomeDir else ""
             | None => ""
             end).
  assert (h0 = "" <-> forall h, u = Some h -> err_nil = true -> h = "") as Hu.
  { subst h0. destruct u as [h|], err_nil; split; try done.
    - by intros -> ? [= ->] _.
    - intros H. by apply H. }
  rewrite <- Hu. clear Hu.
  destruct (String.eqb_spec h0 "") as [->|Hh0].
  2:{ rewrite (eqb_empty_false _ Hh0). split; [done|]. by intros [? _]. }
  destruct (String.eqb_spec (Getenv "HOME") "") as [Hhome|Hhome].
  2:{ split; [done|]. by intros (_ & ? & _). }
  rewrite Hhome.
  destruct (String.eqb_spec GOOS "plan9") as [->|Hp].
  { split; [|by intros (_ & _ & H & _); apply H]. intros H.
    repeat split; try done. }
  destruct (String.eqb_spec GOOS "windows") as [->|Hw].
  - destruct (String.eqb_spec (Getenv "HOMEDRIVE" +:+ Getenv "HOMEPATH") "") as [E|E].
    + apply append_empty_iff in E as [Hd Hpth]. split.
      * intros H. repeat split; done.
      * intros (_ & _ & _ & H). by apply H.
    + split; [done|]. intros (_ & _ & _ & H). destruct (H eq_refl) as (Hd & Hpth & _).
      exfalso. apply E. by rewrite Hd, Hpth.
  - split; [|done]. intros _. repeat split; done.
Qed.

(** ** [loadServiceAccounts] *)

Section service_accounts_facts.
Variables (error ServiceAccount FileInfo : Type).
Variable Name : ServiceAccount -> string.
Variable update_payload : ServiceAccount -> ServiceAccount.
Variable LoadFile : FileInfo -> error + ServiceAccount.
Variable respond : list (request ServiceAccount) -> request ServiceAccount -> option error.

Local Abbreviation updates :=
  (update_loop error ServiceAccount Name update_payload respond).
Local Abbreviation per_file :=
  (files_loop error ServiceAccount FileInfo Name update_payload LoadFile respond).
Local Abbreviation load :=
  (loadServiceAccounts error ServiceAccount FileInfo Name update_payload LoadFile respond).

Lemma update_loop_any svcacc currentSvcAccs found log err found' log' :
  updates svcacc currentSvcAccs found log = (err, found', log') ->
  exists n,
    log' = (log ++ replicate n (UpdateServiceAccount _ (update_payload svcacc)))%list /\
    (0 < n -> Name svcacc ∈ Name <$> currentSvcAccs)%nat /\
    (err = None -> found' = false ->
     found = false /\ Name svcacc ∉ Name <$> currentSvcAccs).
Proof.
  revert found log. induction currentSvcAccs as [|sva rest IH]; intros found log H.
  - injection H as <- <- <-. exists 0%nat. rewrite app_nil_r.
    split; [done|]. split; [lia|]. intros _ ->. split; [done|]. by intros ?%elem_of_nil.
  - cbn [update_loop] in H. rewrite fmap_cons.
    destruct (String.eqb_spec (Name sva) (Name svcacc)) as [E|E].
    + destruct (respond log _) as [e|].
      * injection H as <- <- <-. exists 1%nat. split; [done|].
        split; [intros _; rewrite E; apply list_elem_of_here|done].
      * apply IH in H as (n & -> & _ & Hf). exists (S n).
        split; [by rewrite <- List.app_assoc|].
        split; [intros _; rewrite E; apply list_elem_of_here|].
        intros He Hf'. by destruct (Hf He Hf').
    + apply IH in H as (n & -> & Hn & Hf). exists n. split; [done|]. split.
      * intros Hpos. apply list_elem_of_further. by apply Hn.
      * intros He Hf'. destruct (Hf He Hf') as [-> Hnot]. split; [done|].
        intros [?|?]%elem_of_cons; [congruence|done].
Qed.

(** X29. Every request of [loadServiceAccounts] comes from a file that was
    loaded, on success and on failure: an update is only sent for a name
    that the server listed, and an account is only created under a name
    that the server did not list. *)
Theorem loadServiceAccounts_requests (files : list FileInfo)
    (currentSvcAccs : list ServiceAccount) (err : option error)
    (log : list (request ServiceAccount)) :
  load files (inr currentSvcAccs) = (err, log) ->
  forall req, req ∈ log ->
    exists file svcacc,
      file ∈ files /\ LoadFile file = inr svcacc /\
      match req with
      | UpdateServiceAccount _ payload =>
          payload = update_payload svcacc /\ Name svcacc ∈ Name <$> currentSvcAccs
      | CreateServiceAccount _ created =>
          created = svcacc /\ Name svcacc ∉ Name <$> currentSvcAccs
      end.
Proof.
  unfold loadServiceAccounts.
  set (good (fs : list FileInfo) (req : request ServiceAccount) :=
         exists file svcacc,
           file ∈ fs /\ LoadFile file = inr svcacc /\
           match req with
           | UpdateServiceAccount _ payload =>
               payload = update_payload svcacc /\ Name svcacc ∈ Name <$> currentSvcAccs
           | CreateServiceAccount _ created =>
               created = svcacc /\ Name svcacc ∉ Name <$> currentSvcAccs
           end).
  assert (forall fs log0 err0 log1,
            per_file fs currentSvcAccs log0 = (err0, log1) ->
            forall req, req ∈ log1 -> req ∈ log0 \/ good fs req) as Hloop.
  { induction fs as [|file rest IH]; intros log0 err0 log1 H req Hreq.
    { injection H as <- <-. by left. }
    assert (forall r, good rest r -> good (file :: rest) r) as Hmono.
    { intros r (f & s & Hf & Hrest). exists f, s. split; [by apply list_elem_of_further|done]. }
    cbn [files_loop] in H. destruct (LoadFile file) as [e|svcacc] eqn:Hload.
    { injection H as <- <-. by left. }
    destruct (updates svcacc currentSvcAccs false log0) as [[e found] log2] eqn:Hupd.
    apply update_loop_any in Hupd as (n & -> & Hn & Hf).
    assert (forall r, r ∈ (log0 ++ replicate n (UpdateServiceAccount _ (update_payload svcacc)))%list ->
                      r ∈ log0 \/ good (file :: rest) r) as Hupdates.
    { intros r [?|Hr]%elem_of_app; [by left|]. right.
      apply elem_of_replicate in Hr as [-> Hpos].
      exists file, svcacc. split; [apply list_elem_of_here|]. split; [done|].
      split; [done|]. apply Hn. lia. }
    destruct e as [e|].
    { injection H as <- <-. by apply Hupdates. }
    destruct found.
    { destruct (IH _ _ _ H req Hreq) as [?|?]; [by apply Hupdates|right; by apply Hmono]. }
    destruct (Hf eq_refl eq_refl) as [_ Hnot].
    assert (good (file :: rest) (CreateServiceAccount _ svcacc)) as Hcreate.
    { exists file, svcacc. split; [apply list_elem_of_here|]. done. }
    destruct (respond _ (CreateServiceAccount _ svcacc)) as [e|].
    - injection H as <- <-.
      apply elem_of_app in Hreq as [?|Hx]; [by apply Hupdates|].
      apply list_elem_of_singleton in Hx as ->. by right.
    - destruct (IH _ _ _ H req Hreq) as [Hin|?]; [|right; by apply Hmono].
      apply elem_of_app in Hin as [?|Hx]; [by apply Hupdates|].
      apply list_elem_of_singleton in Hx as ->. by right. }
  intros H req Hreq. destruct (Hloop _ _ _ _ H req Hreq) as [Hnil|?]; [|done].
  by apply elem_of_nil in Hnil.
Qed.

Lemma update_loop_success svcacc currentSvcAccs found log found' log' :
  updates svcacc currentSvcAccs found log = (None, found', log') ->
  let n := length (filter (fun sva => Name sva = Name svcacc) currentSvcAccs) in
  log' = (log ++ replicate n (UpdateServiceAccount _ (update_payload svcacc)))%list /\
  found' = found || negb (Nat.eqb n 0).
Proof.
  revert found log. induction currentSvcAccs as [|sva rest IH]; intros found log H.
  - injection H as <- <-. cbn. rewrite app_nil_r. by destruct found.
  - cbn [update_loop] in H. rewrite filter_cons.
    destruct (String.eqb_spec (Name sva) (Name svcacc)) as [E|E].
    + rewrite decide_True by done. destruct (respond log _) as [e|]; [done|].
      apply IH in H as [-> ->]. cbn [length replicate Nat.eqb negb].
      split; [by rewrite <- List.app_assoc|]. by rewrite orb_true_r.
    + rewrite decide_False by done. by apply IH in H.
Qed.

Lemma files_loop_success files currentSvcAccs log log' :
  per_file files currentSvcAccs log = (None, log') ->
  exists loaded,
    Forall2 (fun file svcacc => LoadFile file = inr svcacc) files loaded /\
    log' = (log ++ (loaded ≫= requests_for Name update_payload currentSvcAccs))%list.
Proof.
  revert log log'. induction files as [|file rest IH]; intros log log' H.
  - injection H as <-. exists []. split; [constructor|]. by rewrite app_nil_r.
  - cbn [files_loop] in H. destruct (LoadFile file) as [e|svcacc] eqn:Hload; [done|].
    destruct (updates svcacc currentSvcAccs false log) as [[e found] log2] eqn:Hupd.
    destruct e as [e|]; [done|].
    apply update_loop_success in Hupd as [-> ->]. cbn [orb] in H.
    assert (forall log3,
              per_file rest currentSvcAccs
                (log ++ requests_for Name update_payload currentSvcAccs svcacc)%list
                = (None, log3) ->
              exists loaded,
                Forall2 (fun file svcacc => LoadFile file = inr svcacc) (file :: rest) loaded /\
                log3 = (log ++ (loaded ≫= requests_for Name update_payload currentSvcAccs))%list)
      as Hrest.
    { intros log3 (loaded & Hall & ->)%IH. exists (svcacc :: loaded).
      split; [by constructor|]. cbn [mbind list_bind]. by rewrite List.app_assoc. }
    destruct (length (filter (fun sva => Name sva = Name svcacc) currentSvcAccs))
      as [|n] eqn:E; cbn [Nat.eqb negb replicate] in H.
    + rewrite app_nil_r in H. destruct (respond _ _) as [e|]; [done|].
      apply Hrest. unfold requests_for. by rewrite E.
    + apply Hrest. unfold requests_for. by rewrite E.
Qed.

Lemma no_match {A} (f : A -> string) (l : list A) (x : string) :
  x ∉ f <$> l -> filter (fun y => f y = x) l = [].
Proof.
  induction l as [|a l IH]; [done|].
  rewrite fmap_cons, not_elem_of_cons, filter_cons. intros [Hne Hl].
  rewrite decide_False by congruence. by apply IH.
Qed.

Lemma one_match {A} (f : A -> string) (l : list A) (x : string) :
  NoDup (f <$> l) -> x ∈ f <$> l -> length (filter (fun y => f y = x) l) = 1%nat.
Proof.
  induction l as [|a l IH]; [by intros _ ?%elem_of_nil|].
  rewrite fmap_cons, NoDup_cons, filter_cons. intros [Ha Hnd] Hx.
  destruct (decide (f a = x)) as [E|E].
  - rewrite no_match; [done|]. by rewrite <- E.
  - apply IH; [done|]. apply elem_of_cons in Hx as [?|?]; [congruence|done].
Qed.

(** X30. When [loadServiceAccounts] returns nil, every file was loaded and
    the requests are, file after file, one update for each account of the
    server that has the name of the loaded account, or one creation when
    there is none.  When the names on the server are all different, that is
    one request for each file. *)
Theorem loadServiceAccounts_success (files : list FileInfo)
    (currentSvcAccs : list ServiceAccount) (log : list (request ServiceAccount)) :
  load files (inr currentSvcAccs) = (None, log) ->
  exists loaded,
    Forall2 (fun file svcacc => LoadFile file = inr svcacc) files loaded /\
    log = loaded ≫= requests_for Name update_payload currentSvcAccs /\
    (NoDup (Name <$> currentSvcAccs) -> length log = length files).
Proof.
  unfold loadServiceAccounts. intros (loaded & Hall & ->)%files_loop_success.
  exists loaded. split; [done|]. split; [done|]. intros Hnd.
  rewrite (Forall2_length _ _ _ Hall). clear Hall. cbn [app].
  induction loaded as [|svcacc loaded IH]; [done|].
  cbn [mbind list_bind length]. rewrite length_app. cbn [mbind] in IH. rewrite IH.
  f_equal. unfold requests_for.
  destruct (decide (Name svcacc ∈ Name <$> currentSvcAccs)) as [Hin|Hout].
  - by rewrite (one_match Name currentSvcAccs _ Hnd Hin).
  - by rewrite (no_match Name currentSvcAccs _ Hout).
Qed.

End service_accounts_facts.

Lemma loadServiceAccounts_requests_witness :
  exists file svcacc,
    file ∈ ["alice"; "bob"] /\ example_LoadFile file = inr svcacc /\
    ("bob", "owner") = svcacc /\ (fst svcacc ∉ fst <$> [("alice", "admin")]).
Proof.
  apply (loadServiceAccounts_requests string (string * string) string fst id
           example_LoadFile example_respond ["alice"; "bob"] [("alice", "admin")] None
           [ UpdateServiceAccount _ ("alice", "owner");
             CreateServiceAccount _ ("bob", "owner") ]
           eq_refl (CreateServiceAccount _ ("bob", "owner"))).
  apply list_elem_of_further, list_elem_of_here.
Defined.

Lemma loadServiceAccounts_success_witness :
  exists loaded,
    Forall2 (fun file svcacc => example_LoadFile file = inr svcacc) ["alice"; "bob"] loaded /\
    [ UpdateServiceAccount _ ("alice", "owner"); CreateServiceAccount _ ("bob", "owner") ]
      = loaded ≫= requests_for fst id [("alice", "admin")] /\
    (NoDup (fst <$> [("alice", "admin")]) ->
     length [ UpdateServiceAccount _ ("alice", "owner");
              CreateServiceAccount _ ("bob", "owner") ] = length ["alice"; "bob"]).
Proof.
  apply (loadServiceAccounts_success string (string * string) string fst id
           example_LoadFile example_respond ["alice"; "bob"] [("alice", "admin")]).
  reflexivity.
Defined.
